(** * HashDB IDA plugin: a shallow embedding of [hashdb.py]

    The development follows the layout of the plugin source:

    - [Py]      the Python built-ins the plugin leans on (string slicing,
                [int(text, base)], [str(int)], exception classes);
    - [Exec]    a state-and-exception monad: Python statements mutate shared
                state and may raise, and the mutations made before a raise
                stay in place;
    - [Worker]  the [Worker] thread class with its two wrappers;
    - the HashDB API client, the IDA helper functions and the three
      pipelines (lookup, scan, hunt), under the names they have in the
      source.

    The host (IDA) and the remote service are collaborators of the plugin:
    the host database is a record that the helper functions read and update,
    the remote service and the user's answers to dialogs are oracles bundled
    in an environment record. *)

From Stdlib Require Import ZArith List String Ascii Bool Arith Lia.
From Stdlib Require Import DecimalString.
From Stdlib Require DecimalPos DecimalNat Finite.
Import ListNotations.

Local Open Scope string_scope.
Local Open Scope Z_scope.

(* ====================================================================== *)
(** * Python built-ins *)
(* ====================================================================== *)

Module Py.

(** Exception classes that occur in the plugin.  [SystemExit] and
    [CancelledError] derive from [BaseException] only; the others derive
    from [Exception]. *)
Inductive exn : Type :=
| SystemExit
| CancelledError
| TimeoutError        (* asyncio.exceptions.TimeoutError *)
| RuntimeError
| TypeError
| ValueError
| KeyError
| AttributeError
| IndexError
| HashDBError
| RequestsTimeout     (* requests.Timeout *)
| RequestsError       (* any other requests.RequestException *)
| JSONDecodeError.    (* r.json() on a body that is not JSON *)

Definition exn_eqb (a b : exn) : bool :=
  match a, b with
  | SystemExit, SystemExit | CancelledError, CancelledError
  | TimeoutError, TimeoutError | RuntimeError, RuntimeError
  | TypeError, TypeError | ValueError, ValueError | KeyError, KeyError
  | AttributeError, AttributeError | IndexError, IndexError
  | HashDBError, HashDBError
  | RequestsTimeout, RequestsTimeout | RequestsError, RequestsError
  | JSONDecodeError, JSONDecodeError => true
  | _, _ => false
  end.

(** [isinstance(e, Exception)] *)
Definition is_Exception (e : exn) : bool :=
  match e with
  | SystemExit | CancelledError => false
  | _ => true
  end.

(** Outcome of evaluating a Python expression or statement: a value, a
    raised exception, or a thread that blocks for ever. *)
Inductive result (A : Type) : Type :=
| Ret (a : A)
| Raise (e : exn)
| Blocked.
Arguments Ret {A} a.
Arguments Raise {A} e.
Arguments Blocked {A}.

(** ** Strings *)

Definition chars (s : string) : list ascii := list_ascii_of_string s.

(** [c in s] for a one-character [c] *)
Fixpoint char_in (c : ascii) (s : string) : bool :=
  match s with
  | EmptyString => false
  | String d r => Ascii.eqb c d || char_in c r
  end.

(** [s.startswith(p)] *)
Definition startswith (s p : string) : bool := String.prefix p s.

(** [s.endswith(p)] *)
Definition endswith (s p : string) : bool :=
  let n := String.length s in
  let m := String.length p in
  (m <=? n)%nat && String.eqb (substring (n - m) m s) p.

(** [s[:-k]] *)
Definition drop_last (k : nat) (s : string) : string :=
  substring 0 (String.length s - k) s.

(** [s[k:]] *)
Definition drop_first (k : nat) (s : string) : string :=
  substring k (String.length s - k) s.

(** [s[:k]] *)
Definition slice_to (k : nat) (s : string) : string := substring 0 k s.

(** [s.replace(c, '')] for a one-character [c] *)
Fixpoint remove_char (c : ascii) (s : string) : string :=
  match s with
  | EmptyString => EmptyString
  | String d r =>
      if Ascii.eqb d c then remove_char c r else String d (remove_char c r)
  end.

(** [string.digits], [string.octdigits], [string.hexdigits] *)
Definition digits : string := "0123456789".
Definition octdigits : string := "01234567".
Definition hexdigits : string := "0123456789abcdefABCDEF".

(** [str(n)] for a natural number *)
Definition str_nat (n : nat) : string := NilZero.string_of_uint (Nat.to_uint n).

(** [str(z)], ['%d' % z] *)
Definition str_int (z : Z) : string := NilZero.string_of_int (Z.to_int z).

(** ['%s' % x] for [x] a string or [None] *)
Definition format_s (x : option string) : string :=
  match x with
  | Some s => s
  | None => "None"
  end.

(** ** [int(text, base)] *)

Definition digit_value (c : ascii) : option Z :=
  let n := Z.of_nat (nat_of_ascii c) in
  if (48 <=? n) && (n <=? 57) then Some (n - 48)
  else if (97 <=? n) && (n <=? 122) then Some (n - 87)
  else if (65 <=? n) && (n <=? 90) then Some (n - 55)
  else None.

Fixpoint int_digits (base acc : Z) (s : string) : result Z :=
  match s with
  | EmptyString => Ret acc
  | String c r =>
      match digit_value c with
      | Some d =>
          if d <? base then int_digits base (acc * base + d) r
          else Raise ValueError
      | None => Raise ValueError
      end
  end.

(** [int(s, base)] on a string of plain digits: an empty string or a
    character that is no digit of the base raises [ValueError]. *)
Definition int_of (s : string) (base : Z) : result Z :=
  match s with
  | EmptyString => Raise ValueError
  | _ => int_digits base 0 s
  end.

(** ** [int(text)]

    A character of a string is a code point below 256.  [int] strips the
    white space around the numeral; the numeral is an optional sign
    followed by decimal digits, with at most one underscore between two
    digits.  Anything else raises [ValueError].  (The bound that CPython
    puts on the number of digits is a setting of the interpreter,
    [sys.set_int_max_str_digits], and is left out.) *)

(** The white space that [int] strips. *)
Definition int_space (c : ascii) : bool :=
  let n := nat_of_ascii c in
  ((9 <=? n) && (n <=? 13) || (n =? 32) || (n =? 133) || (n =? 160))%nat.

Fixpoint lstrip (s : string) : string :=
  match s with
  | EmptyString => EmptyString
  | String c r => if int_space c then lstrip r else s
  end.

Fixpoint rstrip (s : string) : string :=
  match s with
  | EmptyString => EmptyString
  | String c r =>
      match rstrip r with
      | EmptyString =>
          if int_space c then EmptyString else String c EmptyString
      | r' => String c r'
      end
  end.

Definition decimal_digit (c : ascii) : option Z :=
  let n := Z.of_nat (nat_of_ascii c) in
  if (48 <=? n) && (n <=? 57) then Some (n - 48) else None.

(** The rest of a numeral after a digit; [acc] is the number read so
    far. *)
Fixpoint numeral_rest (acc : Z) (s : string) : result Z :=
  match s with
  | EmptyString => Ret acc
  | String c r =>
      match decimal_digit c with
      | Some d => numeral_rest (acc * 10 + d) r
      | None =>
          if Ascii.eqb c "_" then
            match r with
            | String c' r' =>
                match decimal_digit c' with
                | Some d => numeral_rest (acc * 10 + d) r'
                | None => Raise ValueError
                end
            | EmptyString => Raise ValueError
            end
          else Raise ValueError
      end
  end.

Definition numeral (s : string) : result Z :=
  match s with
  | EmptyString => Raise ValueError
  | String c r =>
      match decimal_digit c with
      | Some d => numeral_rest d r
      | None => Raise ValueError
      end
  end.

Definition int_str (text : string) : result Z :=
  match rstrip (lstrip text) with
  | EmptyString => Raise ValueError
  | String c r =>
      if Ascii.eqb c "-" then
        match numeral r with
        | Ret z => Ret (- z)
        | failed => failed
        end
      else if Ascii.eqb c "+" then numeral r
      else numeral (String c r)
  end.

End Py.
Import Py.

(* ====================================================================== *)
(** * Reading a literal from the highlighted text *)
(* ====================================================================== *)

(** The local variable [type] of [parse_highlighted_value]. *)
Inductive literal_type : Type := binary | octal | decimal | hex.

(** The dictionary [character_set]. *)
Definition character_set (t : literal_type) : string :=
  match t with
  | binary => "01"
  | octal => Py.octdigits
  | decimal => Py.digits
  | hex => Py.hexdigits
  end.

(** The dictionary [types]. *)
Definition types (t : literal_type) : Z :=
  match t with
  | binary => 2
  | octal => 8
  | decimal => 10
  | hex => 16
  end.

(** The [if]/[elif] chain that strips the marker of the literal and sets
    [type]. *)
Definition strip_marker (identifier : string) : string * literal_type :=
  if endswith identifier "h" then (drop_last 1 identifier, hex)
  else if startswith identifier "0x" then (drop_first 2 identifier, hex)
  else if endswith identifier "o" then (drop_last 1 identifier, octal)
  else if endswith identifier "b" then (drop_last 1 identifier, binary)
  else (identifier, decimal).

(** [for index, character in enumerate(identifier)]: the index of the first
    character outside the set, at which the loop breaks. *)
Fixpoint first_invalid (set_ : string) (identifier : string) (index : nat)
  : option nat :=
  match identifier with
  | EmptyString => None
  | String character rest =>
      if negb (char_in character set_) then Some index
      else first_invalid set_ rest (S index)
  end.

Definition trim_invalid (set_ : string) (identifier : string) : string :=
  match first_invalid set_ identifier 0 with
  | Some index => slice_to index identifier
  | None => identifier
  end.

(** [thing] is the result of [ida_kernwin.get_highlight(v)]: [None] or a
    pair of the highlighted text and its flags. *)
Definition parse_highlighted_value (thing : option (string * Z))
  : result (option Z) :=
  let identifier :=
    match thing with
    | Some (text, flags) => if flags =? 0 then None else Some text
    | None => None
    end in
  match identifier with
  | None => Ret None
  | Some identifier =>
      let '(identifier, type) := strip_marker identifier in
      let identifier := trim_invalid (character_set type) identifier in
      match identifier with
      | EmptyString => Ret None            (* The first character was bad *)
      | _ =>
          match int_of identifier (types type) with
          | Ret v => Ret (Some v)
          | Raise e => Raise e
          | Blocked => Blocked
          end
      end
  end.

(** The reading the specification gives of the same function: the longest
    prefix of the literal's body made of characters valid for its base, no
    value when that prefix is empty, and otherwise the number the prefix
    denotes in that base. *)
Fixpoint valid_prefix (set_ : string) (s : string) : string :=
  match s with
  | EmptyString => EmptyString
  | String c r =>
      if char_in c set_ then String c (valid_prefix set_ r) else EmptyString
  end.

Definition digit_or_zero (c : ascii) : Z :=
  match digit_value c with Some d => d | None => 0 end.

Definition number_in_base (base : Z) (s : string) : Z :=
  fold_left (fun acc c => acc * base + digit_or_zero c) (chars s) 0.

Definition spec_parse (thing : option (string * Z)) : option Z :=
  match thing with
  | None => None
  | Some (text, flags) =>
      if flags =? 0 then None
      else
        let '(body, type) := strip_marker text in
        match valid_prefix (character_set type) body with
        | EmptyString => None
        | p => Some (number_in_base (types type) p)
        end
  end.

(* ====================================================================== *)
(** * Statements as state transformers that may raise *)
(* ====================================================================== *)

Module Exec.

(** A statement run in state [S]: its outcome and the state it leaves.  The
    state reached when an exception is raised is kept: Python does not undo
    the assignments made before the raise. *)
Definition M (S A : Type) : Type := S -> result A * S.

Section Ops.
Context {S : Type}.

Definition ret {A} (a : A) : M S A := fun s => (Ret a, s).

Definition raise {A} (e : exn) : M S A := fun s => (Raise e, s).

Definition bind {A B} (m : M S A) (k : A -> M S B) : M S B :=
  fun s =>
    match m s with
    | (Ret a, s') => k a s'
    | (Raise e, s') => (Raise e, s')
    | (Blocked, s') => (Blocked, s')
    end.

Definition get : M S S := fun s => (Ret s, s).

Definition modify (f : S -> S) : M S unit := fun s => (Ret tt, f s).

Definition lift {A} (r : result A) : M S A := fun s => (r, s).

(** [try: m  except <classes>: handler]: [handles] tells which exceptions
    the [except] clause matches. *)
Definition try_except {A} (m : M S A) (handles : exn -> bool)
    (handler : exn -> M S A) : M S A :=
  fun s =>
    match m s with
    | (Raise e, s') => if handles e then handler e s' else (Raise e, s')
    | r => r
    end.
End Ops.

(** What the body of a [for] loop asks for when it ends: the next item
    ([continue], or the end of the body), the end of the loop ([break]), or
    the end of the enclosing function ([return r]). *)
Inductive flow (R : Type) : Type :=
| Continue
| Break
| Return (r : R).
Arguments Continue {R}.
Arguments Break {R}.
Arguments Return {R} r.

(** [for x in xs: body]: [Some r] when the body returned [r] from the
    enclosing function, [None] when the loop ended. *)
Fixpoint for_each {S X R} (xs : list X) (body : X -> M S (flow R))
  : M S (option R) :=
  match xs with
  | [] => ret None
  | x :: rest =>
      bind (body x) (fun f =>
        match f with
        | Continue => for_each rest body
        | Break => ret None
        | Return r => ret (Some r)
        end)
  end.

End Exec.
Import Exec.

Declare Scope exec_scope.
Delimit Scope exec_scope with exec.
Notation "x <- m ;; k" := (bind m (fun x => k))
  (at level 61, m at next level, right associativity) : exec_scope.
Notation "m ;; k" := (bind m (fun _ => k))
  (at level 61, right associativity) : exec_scope.
Local Open Scope exec_scope.

(* ====================================================================== *)
(** * Data exchanged with the lookup service *)
(* ====================================================================== *)

(** The JSON objects of the service are read with [dict.get(key, default)]:
    a key that may be absent is an [option] field. *)

(** The object under the key ["string"] of a hash record. *)
Record string_info : Type := {
  si_string : option string;              (* "string" *)
  si_is_api : option bool;                (* "is_api", by truth value *)
  si_api : option string;                 (* "api" *)
  si_modules : option (list string);      (* "modules" *)
  si_permutation : option string          (* "permutation" *)
}.

(** An element of the list under ["hashes"]. *)
Record hash_info : Type := {
  hi_hash : option Z;                     (* "hash" *)
  hi_string : option string_info          (* "string" *)
}.

(** An element of the list under ["algorithms"]. *)
Record algorithm_info : Type := {
  ai_algorithm : option string;           (* "algorithm" *)
  ai_type : option string                 (* "type" *)
}.

(** An element of the list under ["hits"]. *)
Record hit_info : Type := {
  hit_algorithm : option string           (* "algorithm" *)
}.

(** The body of a response, [r.json()]. *)
Record body : Type := {
  b_hashes : option (list hash_info);
  b_algorithms : option (list algorithm_info);
  b_hits : option (list hit_info)
}.

Inductive request : Type :=
| GET (url : string) (timeout : Z)
| POST (url : string) (hashes : list Z) (timeout : Z).

(** What [requests.get] / [requests.post] does: it raises
    [requests.Timeout], raises another [RequestException], or returns a
    response with a status code and a body; the body is JSON, or it is not
    (the page of a gateway error, for instance). *)
Inductive response : Type :=
| TimedOut
| Failed
| Response (status_code : Z) (json : body)
| Page (status_code : Z).

(** [r.ok] *)
Definition ok (status_code : Z) : bool := status_code <? 400.

(** The dictionaries that [scan_range] builds, one per scanned location;
    [hash_scan_request] adds the key ["hashes"]. *)
Record scan_entry : Type := {
  se_ea : Z;
  se_hash_value : Z;
  se_size : Z;
  se_hashes : option (list hash_info)
}.

(** The Python objects that travel through a [Worker]: the arguments of
    the target, its result, and the arguments of the done callback. *)
#[warnings="-register-all"]
Inductive value : Type :=
| VNone
| VBool (b : bool)
| VInt (z : Z)
| VStr (s : string)
| VHash (h : hash_info)
| VEntry (e : scan_entry)
| VList (l : list value)
| VTuple (l : list value).

(** Iterating over a dictionary yields the keys it holds. *)
Definition key_if {A} (field : option A) (key : string) : list value :=
  match field with
  | Some _ => [VStr key]
  | None => []
  end.

(** [isinstance(v, Iterable)], and the items that [*v] unpacks. *)
Definition iterable (v : value) : option (list value) :=
  match v with
  | VList l | VTuple l => Some l
  | VStr s => Some (map (fun c => VStr (String c EmptyString)) (chars s))
  | VHash h =>
      Some (key_if (hi_hash h) "hash" ++ key_if (hi_string h) "string")%list
  | VEntry e =>
      Some ([VStr "ea"; VStr "hash_value"; VStr "size"]
            ++ key_if (se_hashes e) "hashes")%list
  | VNone | VBool _ | VInt _ => None
  end.

(* ====================================================================== *)
(** * Worker implementation *)
(* ====================================================================== *)

Module Worker.

Inductive callback : Type := onDone | onError.

(** What a run of the thread leaves behind: how the thread ended ([Raise e]
    when [e] left the wrapper) and the callbacks the wrapper invoked, in
    order. *)
Record report : Type := {
  outcome : result unit;
  invoked : list callback
}.

Section Worker.
Context {S : Type}.

(** A Python callable with the answer of [asyncio.iscoroutinefunction]. *)
Record callable (Arg Res : Type) : Type := {
  iscoroutinefunction : bool;
  call : Arg -> M S Res
}.
Arguments iscoroutinefunction {Arg Res} c.
Arguments call {Arg Res} c a.

(** The attributes of a [Worker]. *)
Record t : Type := {
  _target : callable (list value) value;
  _args : list value;
  __timeout : option Z;
  __done_callback : option (callable (list value) unit);
  __error_callback : option (callable exn unit)
}.

(** [Worker(target=..., args=...)] *)
Definition init (target : callable (list value) value) (args : list value)
  : t :=
  {| _target := target; _args := args; __timeout := None;
     __done_callback := None; __error_callback := None |}.

(** Support for multiple return values *)
Definition normalize (result : value) : list value :=
  match iterable result with
  | Some items => items
  | None => [result]
  end.

(** The clause [except SystemExit] of [__wrapper]. *)
Definition expected_sync (e : exn) : bool :=
  match e with SystemExit => true | _ => false end.

(** The clause [except (CancelledError, TimeoutError, RuntimeError)] of
    [__async_wrapper]. *)
Definition expected_async (e : exn) : bool :=
  match e with
  | CancelledError | TimeoutError | RuntimeError => true
  | _ => false
  end.

(** The [except] clauses of a wrapper, entered with [exception] after the
    callbacks [called] have run: an expected exception goes to the error
    callback when one was set, any other one leaves the wrapper. *)
Definition on_exception (expected : exn -> bool) (w : t)
    (called : list callback) (exception : exn) (s : S) : report * S :=
  if expected exception then
    match __error_callback w with
    | Some error_callback =>
        let '(r, s') := call error_callback exception s in
        ({| outcome := r; invoked := called ++ [onError] |}, s')
    | None => ({| outcome := Ret tt; invoked := called |}, s)
    end
  else ({| outcome := Raise exception; invoked := called |}, s).

(** [Worker.__wrapper]: the wrapper of a plain function. *)
Definition __wrapper (w : t) (s : S) : report * S :=
  match call (_target w) (_args w) s with
  | (Ret result, s1) =>
      let result := normalize result in
      match __done_callback w with
      | Some done_callback =>
          match call done_callback result s1 with
          | (Ret _, s2) => ({| outcome := Ret tt; invoked := [onDone] |}, s2)
          | (Raise exception, s2) =>
              on_exception expected_sync w [onDone] exception s2
          | (Blocked, s2) =>
              ({| outcome := Blocked; invoked := [onDone] |}, s2)
          end
      | None => ({| outcome := Ret tt; invoked := [] |}, s1)
      end
  | (Raise exception, s1) => on_exception expected_sync w [] exception s1
  | (Blocked, s1) => ({| outcome := Blocked; invoked := [] |}, s1)
  end.

(** [loop.run_until_complete(coroutine)], where [coroutine] is the target
    or [asyncio.wait_for(target, timeout)].  Whether the timer or a
    [loop.stop] wins the race against the target is decided by the clock:
    it shows in the outcome of the awaited computation, which then is
    [Raise TimeoutError], [Raise CancelledError] or [Raise RuntimeError]. *)
Definition run_until_complete {A} (timeout : option Z) (coroutine : M S A)
  : M S A := coroutine.

(** [Worker.__async_wrapper]: the wrapper of a coroutine function. *)
Definition __async_wrapper (w : t) (s : S) : report * S :=
  match run_until_complete (__timeout w) (call (_target w) (_args w)) s with
  | (Ret result, s1) =>
      let result := normalize result in
      match __done_callback w with
      | Some done_callback =>
          match run_until_complete None (call done_callback result) s1 with
          | (Ret _, s2) => ({| outcome := Ret tt; invoked := [onDone] |}, s2)
          | (Raise exception, s2) =>
              on_exception expected_async w [onDone] exception s2
          | (Blocked, s2) =>
              ({| outcome := Blocked; invoked := [onDone] |}, s2)
          end
      | None => ({| outcome := Ret tt; invoked := [] |}, s1)
      end
  | (Raise exception, s1) => on_exception expected_async w [] exception s1
  | (Blocked, s1) => ({| outcome := Blocked; invoked := [] |}, s1)
  end.

(** The test that [start] applies to a callback: a coroutine callback
    needs a coroutine target. *)
Definition callback_fits (is_target_coroutine is_callback_coroutine : bool)
  : bool :=
  is_target_coroutine
  || (negb is_target_coroutine && negb is_callback_coroutine).

(** [Worker.start]: the worker with its timeout and callbacks set, ready
    for [Thread.start()], or the [TypeError] of a mismatch. *)
Definition start (w : t) (timeout : Z)
    (done_callback : option (callable (list value) unit))
    (error_callback : option (callable exn unit)) : result t :=
  let is_target_coroutine := iscoroutinefunction (_target w) in
  let timeout' :=
    if is_target_coroutine && negb (timeout =? 0) then Some timeout
    else __timeout w in
  let done_ok :=
    match done_callback with
    | Some cb => callback_fits is_target_coroutine (iscoroutinefunction cb)
    | None => true
    end in
  let error_ok :=
    match error_callback with
    | Some cb => callback_fits is_target_coroutine (iscoroutinefunction cb)
    | None => true
    end in
  if negb done_ok then Raise TypeError
  else if negb error_ok then Raise TypeError
  else
    Ret {| _target := _target w; _args := _args w; __timeout := timeout';
           __done_callback :=
             match done_callback with
             | Some cb => Some cb
             | None => __done_callback w
             end;
           __error_callback :=
             match error_callback with
             | Some cb => Some cb
             | None => __error_callback w
             end |}.

(** [Worker.run]: the thread's body, which picks the wrapper. *)
Definition run (w : t) : S -> report * S :=
  if iscoroutinefunction (_target w) then __async_wrapper w
  else __wrapper w.

End Worker.

Arguments callable S Arg Res : clear implicits.
Arguments t S : clear implicits.
Arguments iscoroutinefunction {S Arg Res} c.
Arguments call {S Arg Res} c a.

End Worker.

(* ====================================================================== *)
(** * Global settings/variables *)
(* ====================================================================== *)

(** The module-level variables of the plugin. *)
Record config : Type := {
  HASHDB_API_URL : string;
  HASHDB_USE_XOR : bool;
  HASHDB_XOR_VALUE : Z;
  HASHDB_ALGORITHM : option string;
  HASHDB_ALGORITHM_SIZE : Z;
  ENUM_PREFIX : string;
  HASHDB_REQUEST_TIMEOUT : Z
}.

(** The values the module assigns when it is loaded. *)
Definition initial_config : config :=
  {| HASHDB_API_URL := "https://hashdb.openanalysis.net";
     HASHDB_USE_XOR := false;
     HASHDB_XOR_VALUE := 0;
     HASHDB_ALGORITHM := None;
     HASHDB_ALGORITHM_SIZE := 0;
     ENUM_PREFIX := "hashdb_strings";
     HASHDB_REQUEST_TIMEOUT := 15 |}.

(* ====================================================================== *)
(** * The host database *)
(* ====================================================================== *)

Module IDA.

(** Modelled from the spec: the host's store of enumerated constant sets
    ([idc.add_enum], [ida_enum.get_enum], [ida_enum.set_enum_width],
    [ida_enum.get_enum_member], [ida_enum.add_enum_member]) and of names and
    operand tags is the disassembler's, outside the plugin.  An enum is a
    named, width-typed list of (label, value) members; an enum id is its
    position in the database. *)
Record enum_t : Type := {
  enum_name : string;
  enum_width : Z;
  enum_members : list (string * Z)
}.

(** The calls that change the database, as the plugin makes them. *)
Inductive host_call : Type :=
| AddEnumMember (enum_id : nat) (name : string) (value : Z) (code : Z)
| OpEnum (ea : Z) (n : Z) (enum_id : nat)
| CreateData (ea : Z) (size : Z)
| SetName (ea : Z) (name : string).

Record idb : Type := {
  enums : list enum_t;
  names : list (string * Z);          (* named addresses *)
  journal : list host_call            (* the calls made so far, oldest first *)
}.

Definition empty : idb := {| enums := []; names := []; journal := [] |}.

Definition with_enums (db : idb) (es : list enum_t) : idb :=
  {| enums := es; names := names db; journal := journal db |}.

Definition with_names (db : idb) (ns : list (string * Z)) : idb :=
  {| enums := enums db; names := ns; journal := journal db |}.

Definition record_call (db : idb) (c : host_call) : idb :=
  {| enums := enums db; names := names db; journal := journal db ++ [c] |}.

(** Names live in one name space: enum names, member names and the names
    of addresses. *)
Definition member_names (db : idb) : list string :=
  flat_map (fun e => map fst (enum_members e)) (enums db).

Definition name_in_use (db : idb) (name : string) : bool :=
  existsb (String.eqb name)
    (map enum_name (enums db) ++ member_names db ++ map fst (names db)).

(** [ida_enum.get_enum(name)]: the id, or [None] for [BADNODE]. *)
Fixpoint find_enum (es : list enum_t) (name : string) (id : nat)
  : option nat :=
  match es with
  | [] => None
  | e :: rest =>
      if String.eqb (enum_name e) name then Some id
      else find_enum rest name (S id)
  end.

Definition get_enum (db : idb) (name : string) : option nat :=
  find_enum (enums db) name 0.

(** [idc.add_enum(-1, name, flag)]: a new, empty enum, or [None] for
    [BADNODE] when the name is taken. *)
Definition add_enum (db : idb) (name : string) : option nat * idb :=
  if name_in_use db name then (None, db)
  else
    (Some (List.length (enums db)),
     with_enums db
       (enums db ++ [{| enum_name := name; enum_width := 0;
                        enum_members := [] |}])).

Definition valid_widths : list Z := [0; 1; 2; 4; 8; 16; 32; 64].

Definition update_enum (db : idb) (enum_id : nat) (f : enum_t -> enum_t)
  : idb :=
  with_enums db
    (map (fun p => if Nat.eqb (fst p) enum_id then f (snd p) else snd p)
         (combine (seq 0 (List.length (enums db))) (enums db))).

(** [ida_enum.set_enum_width(enum_id, width)] *)
Definition set_enum_width (db : idb) (enum_id : nat) (width : Z)
  : bool * idb :=
  match nth_error (enums db) enum_id with
  | Some _ =>
      if existsb (Z.eqb width) valid_widths then
        (true,
         update_enum db enum_id (fun e =>
           {| enum_name := enum_name e; enum_width := width;
              enum_members := enum_members e |}))
      else (false, db)
  | None => (false, db)
  end.

Definition members_of (db : idb) (enum_id : nat) : list (string * Z) :=
  match nth_error (enums db) enum_id with
  | Some e => enum_members e
  | None => []
  end.

(** [ida_enum.get_enum_member(enum_id, value, 0, 0)]: the member with the
    value, or [None] for [BADNODE]. *)
Definition get_enum_member (db : idb) (enum_id : nat) (value : Z)
  : option (string * Z) :=
  find (fun m => Z.eqb (snd m) value) (members_of db enum_id).

Definition ENUM_MEMBER_ERROR_SUCCESS : Z := 0. (* successfully added *)
Definition ENUM_MEMBER_ERROR_NAME : Z := 1.    (* a member with this name
                                                  already exists *)
Definition ENUM_MEMBER_ERROR_VALUE : Z := 2.   (* already 256 members with
                                                  this value *)
Definition ENUM_MEMBER_ERROR_ENUM : Z := 3.    (* bad enum id *)

Definition same_value_count (db : idb) (enum_id : nat) (value : Z) : nat :=
  List.length (filter (fun m => Z.eqb (snd m) value) (members_of db enum_id)).

(** [ida_enum.add_enum_member(enum_id, name, value)]: the error code; the
    member is appended on success.  Every call is written to the journal. *)
Definition add_enum_member (db : idb) (enum_id : nat) (name : string)
    (value : Z) : Z * idb :=
  let code :=
    match nth_error (enums db) enum_id with
    | None => ENUM_MEMBER_ERROR_ENUM
    | Some _ =>
        if name_in_use db name then ENUM_MEMBER_ERROR_NAME
        else if (256 <=? same_value_count db enum_id value)%nat
        then ENUM_MEMBER_ERROR_VALUE
        else ENUM_MEMBER_ERROR_SUCCESS
    end in
  let db' :=
    if code =? ENUM_MEMBER_ERROR_SUCCESS then
      update_enum db enum_id (fun e =>
        {| enum_name := enum_name e; enum_width := enum_width e;
           enum_members := enum_members e ++ [(name, value)] |})
    else db in
  (code, record_call db' (AddEnumMember enum_id name value code)).

(** The database after the calls [cs] that changed nothing else. *)
Definition journal_extended (db : idb) (cs : list host_call) : idb :=
  {| enums := enums db; names := names db; journal := journal db ++ cs |}.

(** The database after a call of [add_enum_member] that succeeded. *)
Definition member_added (db : idb) (enum_id : nat) (name : string)
    (value : Z) : idb :=
  record_call
    (update_enum db enum_id (fun e =>
       {| enum_name := enum_name e; enum_width := enum_width e;
          enum_members := enum_members e ++ [(name, value)] |}))
    (AddEnumMember enum_id name value ENUM_MEMBER_ERROR_SUCCESS).

(** Name and width of every enum, in order. *)
Definition shape (db : idb) : list (string * Z) :=
  map (fun e => (enum_name e, enum_width e)) (enums db).

(** [ida_bytes.op_enum(ea, n, enum_id, 0)] *)
Definition op_enum (db : idb) (ea n : Z) (enum_id : nat) : idb :=
  record_call db (OpEnum ea n enum_id).

(** [ida_bytes.create_qword/dword/word/byte(ea, size, True)] *)
Definition create_data (db : idb) (ea size : Z) : idb :=
  record_call db (CreateData ea size).

(** [idc.get_name_ea_simple(name)]: the address, or [None] for [BADADDR]. *)
Definition get_name_ea_simple (db : idb) (name : string) : option Z :=
  option_map snd (find (fun p => String.eqb (fst p) name) (names db)).

(** [idc.set_name(ea, name, SN_CHECK)] *)
Definition set_name (db : idb) (ea : Z) (name : string) : idb :=
  record_call
    (if name_in_use db name then db else with_names db (names db ++ [(name, ea)]))
    (SetName ea name).

Definition BADADDR : Z := 0xFFFFFFFFFFFFFFFF.

End IDA.

(* ====================================================================== *)
(** * The state of the plugin and its surroundings *)
(* ====================================================================== *)

(** The functions handed to a [Worker], by name. *)
Inductive target_function : Type :=
| hash_lookup_request_fn
| hash_scan_request_fn
| hunt_algorithm_request_fn.

Inductive done_function : Type :=
| hash_lookup_done_fn
| hash_scan_done_fn
| hunt_algorithm_done_fn.

Inductive error_function : Type :=
| hash_lookup_error_fn
| hash_scan_error_fn
| hunt_algorithm_error_fn.

(** A [Worker] that was started: [Worker(target, args).start(timeout,
    done_callback, error_callback)]. *)
Record thread : Type := {
  th_target : target_function;
  th_args : list value;
  th_timeout : Z;
  th_done_callback : option done_function;
  th_error_callback : option error_function
}.

(** What the plugin shows: lines of [idaapi.msg], message boxes, forms. *)
Inductive event : Type :=
| Msg (text : string)
| Info (text : string)
| Warning (text : string)
| SettingsForm
| MatchSelectForm (collision_strings : list string)
| ApiImportSelectForm (string_value : string) (module_list : list string)
| HuntResultForm (algo_list : list value) (msg : string)
| Print (object : value)
| PrintJson (json : body).

Record world : Type := {
  cfg : config;                 (* the module globals *)
  locked : bool;                (* HASHDB_REQUEST_LOCK.locked() *)
  acquires : nat;               (* calls of HASHDB_REQUEST_LOCK.acquire() *)
  releases : nat;               (* calls of HASHDB_REQUEST_LOCK.release() *)
  idb : IDA.idb;                (* the host database *)
  threads : list thread;        (* workers started and not yet run *)
  sent : list request;          (* requests sent so far, oldest first *)
  output : list event           (* shown so far, oldest first *)
}.

Definition initial_world : world :=
  {| cfg := initial_config; locked := false; acquires := 0; releases := 0;
     idb := IDA.empty; threads := []; sent := []; output := [] |}.

Definition with_cfg (w : world) (c : config) : world :=
  {| cfg := c; locked := locked w; acquires := acquires w;
     releases := releases w; idb := idb w; threads := threads w;
     sent := sent w; output := output w |}.

Definition with_idb (w : world) (d : IDA.idb) : world :=
  {| cfg := cfg w; locked := locked w; acquires := acquires w;
     releases := releases w; idb := d; threads := threads w;
     sent := sent w; output := output w |}.

Definition with_threads (w : world) (ts : list thread) : world :=
  {| cfg := cfg w; locked := locked w; acquires := acquires w;
     releases := releases w; idb := idb w; threads := ts;
     sent := sent w; output := output w |}.

Definition with_sent (w : world) (rs : list request) : world :=
  {| cfg := cfg w; locked := locked w; acquires := acquires w;
     releases := releases w; idb := idb w; threads := threads w;
     sent := rs; output := output w |}.

Definition with_output (w : world) (o : list event) : world :=
  {| cfg := cfg w; locked := locked w; acquires := acquires w;
     releases := releases w; idb := idb w; threads := threads w;
     sent := sent w; output := o |}.

(** The answer of the user to the settings form: the form is cancelled, or
    confirmed with the values of its fields and the chosen row of the
    algorithm chooser, a pair [[name, size]], if any. *)
Inductive settings_answer : Type :=
| SettingsCancel
| SettingsOk (use_xor : bool) (xor_value : Z) (api_url : string)
    (enum_prefix : string) (selection : option (value * value)).

(** The answer to the hunt result form: closed, or confirmed with the
    index of the chosen row, if any. *)
Inductive hunt_answer : Type :=
| HuntCancel
| HuntOk (selection : option nat).

(** What the plugin reads from its surroundings and cannot change: the
    view of the host, the remote service and the user.  The service answers
    the [n]-th request sent; the user answers a form by what has been shown
    before it. *)
Record env : Type := {
  get_highlight : option (string * Z);
  viewer_at_idaplace : bool;
  read_selection_start : Z;
  read_selection_end : Z;
  here : Z;
  get_item_head : Z -> Z;
  get_item_end : Z -> Z;
  idc_guess_type : Z -> string;
  get_64bit : Z -> Z;
  get_32bit : Z -> Z;
  get_16bit : Z -> Z;
  get_byte : Z -> Z;
  is_code : Z -> bool;
  get_operand_value : Z -> Z -> Z;
  service : nat -> request -> response;
  settings_form : list event -> settings_answer;
  match_select_form : list event -> list string -> option nat;
  api_import_select_form : list event -> string -> list string -> option nat;
  hunt_result_form : list event -> list value -> hunt_answer
}.

(** ** Primitive statements *)

Definition msg (text : string) : M world unit :=
  modify (fun w => with_output w (output w ++ [Msg text])).

Definition show (e : event) : M world unit :=
  modify (fun w => with_output w (output w ++ [e])).

(** A call into the host database. *)
Definition host {A} (f : IDA.idb -> A * IDA.idb) : M world A :=
  fun w => let '(a, d) := f (idb w) in (Ret a, with_idb w d).

Definition host_do (f : IDA.idb -> IDA.idb) : M world unit :=
  fun w => (Ret tt, with_idb w (f (idb w))).

Definition host_read {A} (f : IDA.idb -> A) : M world A :=
  fun w => (Ret (f (idb w)), w).

Definition global {A} (f : config -> A) : M world A :=
  fun w => (Ret (f (cfg w)), w).

Definition set_globals (f : config -> config) : M world unit :=
  modify (fun w => with_cfg w (f (cfg w))).

(** [print(object)] and [print(r.json())]: what is printed, in the order
    of the output. *)
Definition print (object : value) : M world unit :=
  modify (fun w => with_output w (output w ++ [Print object])).

Definition print_json (json : body) : M world unit :=
  modify (fun w => with_output w (output w ++ [PrintJson json])).

(** [requests.get] and [requests.post]: the response [r], given by its
    status code and its body, [None] for a body that is not JSON. *)
Definition requests_send (E : env) (rq : request)
  : M world (Z * option body) :=
  fun w =>
    let w' := with_sent w (sent w ++ [rq]) in
    match service E (List.length (sent w)) rq with
    | TimedOut => (Raise RequestsTimeout, w')
    | Failed => (Raise RequestsError, w')
    | Response status_code json => (Ret (status_code, Some json), w')
    | Page status_code => (Ret (status_code, None), w')
    end.

(** [r.json()]: a [JSONDecodeError] on a body that is not JSON. *)
Definition r_json (content : option body) : M world body :=
  match content with
  | Some json => ret json
  | None => raise JSONDecodeError
  end.

(** [HASHDB_REQUEST_LOCK.locked()] *)
Definition lock_locked : M world bool := fun w => (Ret (locked w), w).

(** [HASHDB_REQUEST_LOCK.acquire()]: blocks while the lock is held. *)
Definition lock_acquire : M world unit :=
  fun w =>
    if locked w then (Blocked, w)
    else
      (Ret tt,
       {| cfg := cfg w; locked := true; acquires := S (acquires w);
          releases := releases w; idb := idb w; threads := threads w;
          sent := sent w; output := output w |}).

(** [HASHDB_REQUEST_LOCK.release()]: a [RuntimeError] on a free lock. *)
Definition lock_release : M world unit :=
  fun w =>
    if locked w then
      (Ret tt,
       {| cfg := cfg w; locked := false; acquires := acquires w;
          releases := S (releases w); idb := idb w; threads := threads w;
          sent := sent w; output := output w |})
    else (Raise RuntimeError, w).

(* ====================================================================== *)
(** * HashDB API *)
(* ====================================================================== *)

(** [timeout=None]: handle an empty timeout. *)
Definition default_timeout (timeout : option Z) : M world Z :=
  match timeout with
  | Some t => ret t
  | None => global HASHDB_REQUEST_TIMEOUT
  end.

Definition determine_algorithm_size (algorithm_type : option string)
  : string :=
  match algorithm_type with
  | None => "Unknown"
  | Some t =>
      if String.eqb t "unsigned_int" then "32"
      else if String.eqb t "unsigned_long" then "64"
      else "Unknown"
  end.

(** A row [[name, size]] of the algorithm choosers. *)
Definition algorithm_row (name : option string) (size : string) : value :=
  VList [match name with Some n => VStr n | None => VNone end; VStr size].

(** The loop of [get_algorithms]: one row per algorithm of the catalog. *)
Fixpoint algorithm_rows (l : list algorithm_info) : M world (list value) :=
  match l with
  | [] => ret []
  | algorithm :: rest =>
      let size := determine_algorithm_size (ai_type algorithm) in
      (if String.eqb size "Unknown"
       then msg "ERROR: Unknown algorithm type encountered when fetching algorithms"
       else ret tt) ;;
      algorithms <- algorithm_rows rest ;;
      ret (algorithm_row (ai_algorithm algorithm) size :: algorithms)
  end.

Definition get_algorithms (E : env) (api_url : string) (timeout : option Z)
  : M world (list value) :=
  timeout <- default_timeout timeout ;;
  let algorithms_url := api_url ++ "/hash" in
  r <- requests_send E (GET algorithms_url timeout) ;;
  let '(status_code, content) := r in
  if negb (ok status_code) then raise HashDBError
  else
    results <- r_json content ;;
    algorithm_rows
      (match b_algorithms results with Some l => l | None => [] end).

(** The body of the loop of [get_strings_from_hash]: remove null bytes
    from non-api strings.  [.get('is_api', True)] reads an absent flag as
    true; a record without the key ["string"] below raises [KeyError]. *)
Definition strip_null_bytes (info : hash_info) : result hash_info :=
  match hi_string info with
  | None => Ret info
  | Some s =>
      match si_is_api s with
      | None | Some true => Ret info
      | Some false =>
          match si_string s with
          | None => Raise KeyError
          | Some text =>
              Ret {| hi_hash := hi_hash info;
                     hi_string :=
                       Some {| si_string := Some (remove_char zero text);
                               si_is_api := si_is_api s;
                               si_api := si_api s;
                               si_modules := si_modules s;
                               si_permutation := si_permutation s |} |}
          end
      end
  end.

Fixpoint strip_all (hashes : list hash_info) : result (list hash_info) :=
  match hashes with
  | [] => Ret []
  | info :: rest =>
      match strip_null_bytes info with
      | Ret h =>
          match strip_all rest with
          | Ret out_hashes => Ret (h :: out_hashes)
          | Raise e => Raise e
          | Blocked => Blocked
          end
      | Raise e => Raise e
      | Blocked => Blocked
      end
  end.

(** The result is the dictionary [{'hashes': out_hashes}], given by its
    list. *)
Definition get_strings_from_hash (E : env) (algorithm : option string)
    (hash_value xor_value : Z) (api_url : string) (timeout : option Z)
  : M world (list hash_info) :=
  timeout <- default_timeout timeout ;;
  let hash_value := Z.lxor hash_value xor_value in
  let hash_url :=
    api_url ++ "/hash/" ++ format_s algorithm ++ "/" ++ str_int hash_value in
  r <- requests_send E (GET hash_url timeout) ;;
  let '(status_code, content) := r in
  if negb (ok status_code) then raise HashDBError
  else
    results <- r_json content ;;
    let hashes := match b_hashes results with Some l => l | None => [] end in
    lift (strip_all hashes).

Definition get_module_hashes (E : env) (module_name : string)
    (algorithm : option string) (permutation : string) (api_url : string)
    (timeout : option Z) : M world body :=
  timeout <- default_timeout timeout ;;
  let module_url :=
    api_url ++ "/module/" ++ module_name ++ "/" ++ format_s algorithm ++ "/"
    ++ permutation in
  r <- requests_send E (GET module_url timeout) ;;
  let '(status_code, content) := r in
  if negb (ok status_code) then raise HashDBError
  else
    results <- r_json content ;;
    ret results.

(** The loop of [hunt_hash]: the algorithms of the hits, without
    repetition, in the order of their first hit. *)
Fixpoint collect_matches (hits : list hit_info) (matches : list string)
  : list string :=
  match hits with
  | [] => matches
  | hit :: rest =>
      match hit_algorithm hit with
      | Some algo =>
          if existsb (String.eqb algo) matches then collect_matches rest matches
          else collect_matches rest (matches ++ [algo])
      | None => collect_matches rest matches
      end
  end.

Definition hunt_hash (E : env) (hash_value : Z) (api_url : string)
    (timeout : option Z) : M world (list string) :=
  timeout <- default_timeout timeout ;;
  let hash_list := [hash_value] in
  let module_url := api_url ++ "/hunt" in
  r <- requests_send E (POST module_url hash_list timeout) ;;
  let '(status_code, content) := r in
  if negb (ok status_code) then
    print (VStr module_url) ;;
    print (VList (map VInt hash_list)) ;;
    results <- r_json content ;;
    print_json results ;;
    raise HashDBError
  else
    results <- r_json content ;;
    ret (collect_matches
           (match b_hits results with Some l => l | None => [] end) []).

(* ====================================================================== *)
(** * Set the algorithm and its size *)
(* ====================================================================== *)

(** [set_algorithm(algorithm, size)], on the two entries of a chooser row.
    A size given as a string goes through [int(size)], which raises
    [ValueError] on ["Unknown"]; a [bool] is an [int]; any other size is
    reported with the [%] operator, which raises [TypeError] on a tuple
    that has not exactly one element. *)
Definition set_algorithm (algorithm size : value) : M world bool :=
  match algorithm with
  | VStr algorithm =>
      size <- match size with
              | VStr text =>
                  z <- lift (int_str text) ;; ret (Some z)
              | VInt z => ret (Some z)
              | VBool b => ret (Some (if b then 1 else 0))
              | VTuple [_] => ret None
              | VTuple _ => raise TypeError
              | _ => ret None
              end ;;
      match size with
      | None =>
          msg "HashDB encountered an error while trying to set the algorithm: provided size is not an integer" ;;
          ret false
      | Some size =>
          if negb (existsb (Z.eqb size) [32; 64]) || negb (size mod 8 =? 0)
          then
            msg "HashDB encountered an error while trying to set the algorithm: the size provided was invalid" ;;
            ret false
          else
            set_globals (fun c =>
              {| HASHDB_API_URL := HASHDB_API_URL c;
                 HASHDB_USE_XOR := HASHDB_USE_XOR c;
                 HASHDB_XOR_VALUE := HASHDB_XOR_VALUE c;
                 HASHDB_ALGORITHM := Some algorithm;
                 HASHDB_ALGORITHM_SIZE := size;
                 ENUM_PREFIX := ENUM_PREFIX c;
                 HASHDB_REQUEST_TIMEOUT := HASHDB_REQUEST_TIMEOUT c |}) ;;
            ret true
      end
  | _ =>
      msg "HashDB encountered an error while trying to set the algorithm: provided algorithm is a string type" ;;
      ret false
  end.

(* ====================================================================== *)
(** * Forms *)
(* ====================================================================== *)

(** [hashdb_settings_t.show]: the form stores its fields in the globals
    when it is confirmed, before it looks at the chosen algorithm. *)
Definition hashdb_settings_t_show (E : env) : M world bool :=
  w <- get ;;
  show SettingsForm ;;
  match settings_form E (output w) with
  | SettingsOk use_xor xor_value api_url enum_prefix selection =>
      (* Save default settings first *)
      set_globals (fun c =>
        {| HASHDB_API_URL := api_url;
           HASHDB_USE_XOR := use_xor;
           HASHDB_XOR_VALUE := xor_value;
           HASHDB_ALGORITHM := HASHDB_ALGORITHM c;
           HASHDB_ALGORITHM_SIZE := HASHDB_ALGORITHM_SIZE c;
           ENUM_PREFIX := enum_prefix;
           HASHDB_REQUEST_TIMEOUT := HASHDB_REQUEST_TIMEOUT c |}) ;;
      match selection with
      | None =>
          msg "HashDB: No algorithm selected!" ;;
          ret false
      | Some (name, size) =>
          set_algorithm name size ;;
          ret true
      end
  | SettingsCancel => ret false
  end.

(** [items[index]] of a dropdown list. *)
Definition chosen {A} (items : list A) (index : nat) : M world A :=
  match nth_error items index with
  | Some x => ret x
  | None => raise IndexError
  end.

(** [match_select_t.show] *)
Definition match_select_t_show (E : env) (collision_strings : list string)
  : M world (option string) :=
  w <- get ;;
  show (MatchSelectForm collision_strings) ;;
  match match_select_form E (output w) collision_strings with
  | Some index =>
      string_selection <- chosen collision_strings index ;;
      ret (Some string_selection)
  | None => ret None
  end.

(** [api_import_select_t.show] *)
Definition api_import_select_t_show (E : env) (string_value : string)
    (module_list : list string) : M world (option string) :=
  w <- get ;;
  show (ApiImportSelectForm string_value module_list) ;;
  match api_import_select_form E (output w) string_value module_list with
  | Some index =>
      module_selection <- chosen module_list index ;;
      ret (Some module_selection)
  | None => ret None
  end.

(** [v[i]] on a list or tuple. *)
Definition item (v : value) (i : nat) : M world value :=
  match v with
  | VList l | VTuple l =>
      match nth_error l i with
      | Some x => ret x
      | None => raise IndexError
      end
  | _ => raise TypeError
  end.

(** [hunt_result_form_t.show] *)
Definition hunt_result_form_t_show (E : env) (algo_list : list value)
  : M world bool :=
  w <- get ;;
  let msg_ :=
    if (List.length algo_list =? 0)%nat then "No algorithms matched the hash."
    else "The following algorithms contain a matching hash." in
  show (HuntResultForm algo_list msg_) ;;
  match hunt_result_form E (output w) algo_list with
  | HuntOk None => ret false           (* No algorithm selected bail! *)
  | HuntOk (Some index) =>
      algorithm <- chosen algo_list index ;;
      name <- item algorithm 0 ;;
      size <- item algorithm 1 ;;
      set_algorithm name size ;;
      ret true
  | HuntCancel => ret false
  end.

(** Modelled from the spec: [ida_kernwin.execute_sync(callable, MFF_FAST)]
    belongs to the host.  It runs the callable on the main thread and waits
    for it; it returns the callable's integer, or -1 when the callable
    failed, so an exception of the callable does not reach the caller.  The
    callables of the plugin hand their result over in a [nonlocal]
    variable: [initial] is the value the variable holds before the call. *)
Definition execute_sync {A} (callable : M world A) (initial : A) : M world A :=
  fun w =>
    match callable w with
    | (Ret a, w') => (Ret a, w')
    | (Raise _, w') => (Ret initial, w')
    | (Blocked, w') => (Blocked, w')
    end.

(* ====================================================================== *)
(** * IDA helper functions *)
(* ====================================================================== *)

Definition MAXIMUM_ATTEMPTS : nat := 256.

(** [member_name if not index else member_name + '_' + str(index)] *)
Definition attempt_name (member_name : string) (index : nat) : string :=
  if (index =? 0)%nat then member_name
  else member_name ++ "_" ++ str_nat index.

(** The body of the inner loop of [add_enums]: one attempt to insert the
    value under a generated name.  [Return None] stands for
    [return None]. *)
Definition insert_attempt (enum_id : nat) (member_name : string) (value : Z)
    (index : nat) : M world (flow (option nat)) :=
  result <- host (fun db =>
              IDA.add_enum_member db enum_id
                (attempt_name member_name index) value) ;;
  (* Successfully added to the list *)
  if result =? IDA.ENUM_MEMBER_ERROR_SUCCESS then ret Break
  (* Unhandled error *)
  else if negb (result =? IDA.ENUM_MEMBER_ERROR_NAME) then ret (Return None)
  else ret Continue.

(** The inner loop of [add_enums],
    [for index in range(MAXIMUM_ATTEMPTS)]. *)
Definition insert_member (enum_id : nat) (member_name : string) (value : Z)
  : M world (option (option nat)) :=
  for_each (seq 0 MAXIMUM_ATTEMPTS) (insert_attempt enum_id member_name value).

(** The outer loop of [add_enums]. *)
Definition insert_members (enum_id : nat) (hash_list : list (string * Z))
  : M world (option (option nat)) :=
  for_each hash_list (fun '(member_name, value) =>
    (* First, we have to check if this name and value already exist *)
    existing <- host_read (fun db => IDA.get_enum_member db enum_id value) ;;
    match existing with
    | Some _ => ret Continue    (* Skip if the value already exists *)
    | None =>
        r <- insert_member enum_id member_name value ;;
        match r with
        | Some x => ret (Return x)
        | None => ret Continue
        end
    end).

(** [add_enums(enum_name, hash_list, enum_size = 0)]: the id of the enum,
    or [None]. *)
Definition add_enums (enum_name : string) (hash_list : list (string * Z))
    (enum_size : Z) : M world (option nat) :=
  (* Resolve the enum size *)
  enum_size <- (if enum_size =? 0
                then size <- global HASHDB_ALGORITHM_SIZE ;;
                     ret (Z.quot size 8)
                else ret enum_size) ;;
  (* Create enum *)
  enum_id <- host (fun db => IDA.add_enum db enum_name) ;;
  enum_id <- match enum_id with
             | Some id => ret (Some id)
             | None =>
                 (* Enum already exists attempt to find it *)
                 host_read (fun db => IDA.get_enum db enum_name)
             end ;;
  match enum_id with
  | None => ret None             (* Can't create or find enum *)
  | Some enum_id =>
      width_set <- host (fun db => IDA.set_enum_width db enum_id enum_size) ;;
      if negb width_set then ret None
      else
        r <- insert_members enum_id hash_list ;;
        match r with
        | Some x => ret x
        | None => ret (Some enum_id)
        end
  end.

(** [generate_enum_name(prefix)]: [prefix + '_' + HASHDB_ALGORITHM], a
    [TypeError] while no algorithm is set. *)
Definition generate_enum_name (prefix : string) : M world string :=
  algorithm <- global HASHDB_ALGORITHM ;;
  match algorithm with
  | Some a => ret (prefix ++ "_" ++ a)
  | None => raise TypeError
  end.

Definition make_const_enum (E : env) (enum_id : nat) (hash_value : Z)
  : M world unit :=
  let ea := here E in
  let start := get_item_head E ea in
  if is_code E ea then
    if get_operand_value E ea 0 =? hash_value then
      host_do (fun db => IDA.op_enum db start 0 enum_id)
    else if get_operand_value E ea 1 =? hash_value then
      host_do (fun db => IDA.op_enum db start 1 enum_id)
    else ret tt
  else host_do (fun db => IDA.op_enum db start 0 enum_id).

(** Guess the highlighted type and return the size in bytes. *)
Definition determine_highlighted_type_size (E : env) (ea : Z) : Z :=
  let type := idc_guess_type E ea in
  if String.eqb type "__int64" then 8
  else if String.eqb type "int" then 4
  else if String.eqb type "__int16" then 2
  else if String.eqb type "char" then 1
  else 0.

(** [read_integer_from_db(ea, default_size)]: value, size and whether
    the type was valid. *)
Definition read_integer_from_db (E : env) (ea : Z) (default_size : Z)
  : result (Z * Z * bool) :=
  let type_size := determine_highlighted_type_size E ea in
  let typed := negb (type_size =? 0) in
  if (type_size =? 8) || (negb typed && (default_size =? 8))
  then Ret (get_64bit E ea, 8, typed)
  else if (type_size =? 4) || (negb typed && (default_size =? 4))
  then Ret (get_32bit E ea, 4, typed)
  else if (type_size =? 2) || (negb typed && (default_size =? 2))
  then Ret (get_16bit E ea, 2, typed)
  else if (type_size =? 1) || (negb typed && (default_size =? 0))
          || (negb typed && (default_size =? 1))
  then Ret (get_byte E ea, 1, typed)
  else Raise HashDBError.

(** Converts the data into a QWORD, DWORD, WORD, or BYTE based on the size
    provided. *)
Definition convert_data_to_integer (ea : Z) (size : Z) : M world Z :=
  size <- (if size =? 0
           then s <- global HASHDB_ALGORITHM_SIZE ;; ret (Z.quot s 8)
           else ret size) ;;
  (if existsb (Z.eqb size) [8; 4; 2; 1]
   then host_do (fun db => IDA.create_data db ea size)
   else ret tt) ;;
  ret size.

(* ====================================================================== *)
(** * Global settings *)
(* ====================================================================== *)

Definition global_settings (E : env) : M world unit :=
  settings_results <- hashdb_settings_t_show E ;;
  if settings_results then msg "HashDB configured successfully!"
  else msg "HashDB configuration cancelled!".

(** Unwrapping the result of [parse_highlighted_value]. *)
Definition parse_highlight (E : env) : M world (option Z) :=
  lift (parse_highlighted_value (get_highlight E)).

(* ====================================================================== *)
(** * Set xor key *)
(* ====================================================================== *)

Definition set_xor_key (E : env) : M world bool :=
  xor_value <- parse_highlight E ;;
  match xor_value with
  | None =>
      msg "HashDB ERROR: Invalid xor value selection." ;;
      ret false
  | Some xor_value =>
      msg "HashDB: Set xor value" ;;
      set_globals (fun c =>
        {| HASHDB_API_URL := HASHDB_API_URL c;
           HASHDB_USE_XOR := true;
           HASHDB_XOR_VALUE := xor_value;
           HASHDB_ALGORITHM := HASHDB_ALGORITHM c;
           HASHDB_ALGORITHM_SIZE := HASHDB_ALGORITHM_SIZE c;
           ENUM_PREFIX := ENUM_PREFIX c;
           HASHDB_REQUEST_TIMEOUT := HASHDB_REQUEST_TIMEOUT c |}) ;;
      msg "XOR key set" ;;
      ret true
  end.

(* ====================================================================== *)
(** * Reading the arguments of targets and callbacks *)
(* ====================================================================== *)

(** The truth value of an object. *)
Definition truthy (v : value) : bool :=
  match v with
  | VNone => false
  | VBool b => b
  | VInt z => negb (z =? 0)
  | VStr s => negb (String.eqb s "")
  | VHash _ => true
  | VEntry _ => true
  | VList l | VTuple l => negb (List.length l =? 0)%nat
  end.

Fixpoint hash_infos (l : list value) : option (list hash_info) :=
  match l with
  | [] => Some []
  | VHash h :: rest => option_map (cons h) (hash_infos rest)
  | _ => None
  end.

Fixpoint scan_entries (l : list value) : option (list scan_entry) :=
  match l with
  | [] => Some []
  | VEntry e :: rest => option_map (cons e) (scan_entries rest)
  | _ => None
  end.

(** The arguments are typed where the function first uses them as such; an
    object of another kind raises there. *)
Definition as_hash_list (v : value) : M world (list hash_info) :=
  match v with
  | VList l =>
      match hash_infos l with
      | Some hs => ret hs
      | None => raise AttributeError
      end
  | _ => raise TypeError
  end.

Definition as_scan_list (v : value) : M world (list scan_entry) :=
  match v with
  | VList l =>
      match scan_entries l with
      | Some es => ret es
      | None => raise TypeError
      end
  | _ => raise TypeError
  end.

Definition as_int (v : value) : M world Z :=
  match v with
  | VInt z => ret z
  | VBool b => ret (if b then 1 else 0)
  | _ => raise TypeError
  end.

Definition as_str (v : value) : M world string :=
  match v with
  | VStr s => ret s
  | _ => raise TypeError
  end.

Definition as_optional_str (v : value) : M world (option string) :=
  match v with
  | VStr s => ret (Some s)
  | VNone => ret None
  | _ => raise TypeError
  end.

Definition as_optional_int (v : value) : M world (option Z) :=
  match v with
  | VNone => ret None
  | _ => z <- as_int v ;; ret (Some z)
  end.

Definition optional_str (s : option string) : value :=
  match s with
  | Some s => VStr s
  | None => VNone
  end.

Definition optional_int (z : option Z) : value :=
  match z with
  | Some z => VInt z
  | None => VNone
  end.

(* ====================================================================== *)
(** * Hash lookup *)
(* ====================================================================== *)

(** [{}] read as the object under ["string"]. *)
Definition no_string_info : string_info :=
  {| si_string := None; si_is_api := None; si_api := None;
     si_modules := None; si_permutation := None |}.

(** [match.get("string", {})] *)
Definition string_object (h : hash_info) : string_info :=
  match hi_string h with
  | Some s => s
  | None => no_string_info
  end.

(** [.get("is_api", False)] *)
Definition is_api (s : string_info) : bool :=
  match si_is_api s with
  | Some b => b
  | None => false
  end.

(** The string of a match: [.get("api", "")] for an API symbol,
    [.get("string", "")] otherwise. *)
Definition string_of_match (s : string_info) : string :=
  if is_api s then match si_api s with Some a => a | None => "" end
  else match si_string s with Some a => a | None => "" end.

(** [d[k] = v] on a dictionary kept in insertion order. *)
Fixpoint dict_set {A} (d : list (string * A)) (k : string) (v : A)
  : list (string * A) :=
  match d with
  | [] => [(k, v)]
  | (k', v') :: rest =>
      if String.eqb k' k then (k', v) :: rest
      else (k', v') :: dict_set rest k v
  end.

(** [d[k]] *)
Definition dict_item {A} (d : list (string * A)) (k : string) : M world A :=
  match find (fun p => String.eqb (fst p) k) d with
  | Some p => ret (snd p)
  | None => raise KeyError
  end.

(** The dictionary [collisions], keyed by the strings of the matches. *)
Definition collisions_of (hashes : list hash_info)
  : list (string * string_info) :=
  fold_left
    (fun collisions string_match =>
       let string_value := string_object string_match in
       dict_set collisions (string_of_match string_value) string_value)
    hashes [].

(** [if not len(string_value): string_value = "empty_string"] *)
Definition or_empty_string (string_value : string) : string :=
  if String.eqb string_value "" then "empty_string" else string_value.

(** The closure [add_enums_wrapper], through [execute_sync]: the variable
    [enum_id] is [None] before the call. *)
Definition add_enums_sync (hash_list : list (string * Z))
  : M world (option nat) :=
  prefix <- global ENUM_PREFIX ;;
  enum_name <- generate_enum_name prefix ;;
  execute_sync (add_enums enum_name hash_list 0) None.

(** The list [enum_list] that the bulk import builds. *)
Definition enum_list_of (use_xor : bool) (xor_value : Z)
    (entries : list hash_info) : list (string * Z) :=
  map (fun function_entry =>
         let hash := match hi_hash function_entry with
                     | Some h => h
                     | None => 0
                     end in
         (match si_api (string_object function_entry) with
          | Some a => a
          | None => ""
          end,
          if use_xor then Z.lxor hash xor_value else hash))
      entries.

(** The block that [hash_lookup_done_handler] and [hash_scan_done] share:
    a single match is taken as it is; otherwise the matches are keyed by
    their strings in [collisions], the form [match_select_t] runs on the
    main thread, and the chosen key is looked up.  [None] when the user
    chose nothing. *)
Definition choose_match (E : env) (hashes : list hash_info)
  : M world (option string_info) :=
  match hashes with
  | [only] => ret (Some (string_object only))
  | _ =>
      (* Multiple hashes found, allow the user to select the best match *)
      let collisions := collisions_of hashes in
      selected_string <-
        execute_sync (match_select_t_show E (map fst collisions)) None ;;
      match selected_string with
      | None => ret None
      | Some selected_string =>
          hash_string <- dict_item collisions selected_string ;;
          ret (Some hash_string)
      end
  end.

Definition hash_lookup_done_handler (E : env) (hash_list hash_value : value)
  : M world unit :=
  match hash_list, hash_value with
  | VNone, _ | _, VNone => ret tt
  | _, _ =>
      hashes <- as_hash_list hash_list ;;
      hash_value <- as_int hash_value ;;
      (* Parse the hash list *)
      chosen_match <- choose_match E hashes ;;
      match chosen_match with
      | None => ret tt
      | Some hash_string =>
          (* Parse the string from the hash_string match *)
          let string_value := or_empty_string (string_of_match hash_string) in
          msg "HashDB: Hash match found" ;;
          (* Add the hash to the global enum, and exit if we can't create
             it *)
          enum_id <- add_enums_sync [(string_value, hash_value)] ;;
          match enum_id with
          | None => msg "ERROR: Unable to create or find enum"
          | Some enum_id =>
              (* make the constant an enum *)
              execute_sync
                (if viewer_at_idaplace E
                 then make_const_enum E enum_id hash_value
                 else ret tt) tt ;;
              (* Handle API hashes *)
              if negb (is_api hash_string) then ret tt
              else
                module_name <-
                  execute_sync
                    (api_import_select_t_show E string_value
                       (match si_modules hash_string with
                        | Some l => l
                        | None => []
                        end)) None ;;
                match module_name with
                | None => ret tt
                | Some module_name =>
                    (* Import all of the hashes from the module and
                       permutation *)
                    algorithm <- global HASHDB_ALGORITHM ;;
                    api_url <- global HASHDB_API_URL ;;
                    timeout <- global HASHDB_REQUEST_TIMEOUT ;;
                    module_hash_list <-
                      try_except
                        (r <- get_module_hashes E module_name algorithm
                                (match si_permutation hash_string with
                                 | Some p => p
                                 | None => ""
                                 end) api_url (Some timeout) ;;
                         ret (Some r))
                        (exn_eqb RequestsTimeout)
                        (fun _ =>
                           msg "ERROR: HashDB API module hashes request timed out." ;;
                           ret None) ;;
                    match module_hash_list with
                    | None => ret tt
                    | Some module_hash_list =>
                        (* Add the hash list to the global enum *)
                        use_xor <- global HASHDB_USE_XOR ;;
                        xor_value <- global HASHDB_XOR_VALUE ;;
                        let enum_list :=
                          enum_list_of use_xor xor_value
                            (match b_hashes module_hash_list with
                             | Some l => l
                             | None => []
                             end) in
                        enum_id <- add_enums_sync enum_list ;;
                        match enum_id with
                        | None => msg "ERROR: Unable to create or find enum"
                        | Some _ => msg "Added hashes for module"
                        end
                    end
                end
          end
      end
  end.

(** [hash_lookup_done(hash_list = None, hash_value = None)] *)
Definition hash_lookup_done (E : env) (args : list value) : M world unit :=
  match args with
  | [] => hash_lookup_done_handler E VNone VNone ;; lock_release
  | [hash_list] => hash_lookup_done_handler E hash_list VNone ;; lock_release
  | [hash_list; hash_value] =>
      hash_lookup_done_handler E hash_list hash_value ;;
      (* Release the lock *)
      lock_release
  | _ => raise TypeError
  end.

Definition hash_lookup_error (exception : exn) : M world unit :=
  msg "ERROR: HashDB hash scan failed" ;;
  lock_release.

(** [hash_lookup_request(api_url, algorithm, hash_value, xor_value,
    timeout)] *)
Definition hash_lookup_request (E : env) (args : list value) : M world value :=
  match args with
  | [api_url; algorithm; hash_value; xor_value; timeout] =>
      api_url <- as_str api_url ;;
      algorithm <- as_optional_str algorithm ;;
      hash_value <- as_int hash_value ;;
      xor_value <- as_optional_int xor_value ;;
      timeout <- as_optional_int timeout ;;
      (* Perform the request *)
      hash_results <-
        try_except
          (r <- get_strings_from_hash E algorithm hash_value
                  (match xor_value with Some x => x | None => 0 end)
                  api_url timeout ;;
           ret (Some r))
          (exn_eqb RequestsTimeout)
          (fun _ =>
             msg "ERROR: HashDB API lookup hash request timed out." ;;
             ret None) ;;
      match hash_results with
      | None => ret VNone
      | Some [] =>
          (* Did `hashes` exist, was the array empty? *)
          msg "HashDB: No hash found" ;;
          ret VNone
      | Some hash_list =>
          ret (VTuple [VList (map VHash hash_list); VInt hash_value])
      end
  | _ => raise TypeError
  end.

(* ====================================================================== *)
(** * Dynamic IAT hash scan *)
(* ====================================================================== *)

(** The loop of the closure [set_name]: the first suffix among [""],
    ["_1"], ["_2"], ... under which the name is free.  The loop of the
    source has no bound; [fuel] is the number of rounds allowed here. *)
Fixpoint free_suffix (fuel : nat) (db : IDA.idb) (name : string)
    (index : nat) (suffix : string) : option string :=
  match IDA.get_name_ea_simple db (name ++ suffix) with
  | None => Some suffix
  | Some _ =>
      match fuel with
      | O => None
      | S fuel' =>
          free_suffix fuel' db name (S index) ("_" ++ str_nat index)
      end
  end.

(** The closure [set_name(ea, name)] of [hash_scan_done]. *)
Definition set_name (ea : Z) (name : string) : M world unit :=
  if String.eqb name "" then ret tt
  else
    fun w =>
      match free_suffix (S (List.length (IDA.names (idb w)))) (idb w) name 1 ""
      with
      | Some suffix =>
          (Ret tt, with_idb w (IDA.set_name (idb w) ea (name ++ suffix)))
      | None => (Blocked, w)
      end.

(** The block under [if convert_values] of [hash_scan_done]: convert the
    location to an integer, then to the enum, and add a label; each step
    runs on the main thread. *)
Definition convert_entry (hash_entry : scan_entry) (enum_id : nat)
    (hash_string_value : string) : M world unit :=
  execute_sync
    (convert_data_to_integer (se_ea hash_entry) (se_size hash_entry)) (-1) ;;
  execute_sync
    (host_do (fun db => IDA.op_enum db (se_ea hash_entry) 0 enum_id)) tt ;;
  execute_sync
    (set_name (se_ea hash_entry) ("ptr_" ++ hash_string_value)) tt.

(** The body of the loop of [hash_scan_done]; [Return tt] is a [return]
    that released the lock. *)
Definition hash_scan_done_entry (E : env) (convert_values : bool)
    (hash_entry : scan_entry) : M world (flow unit) :=
  match se_hashes hash_entry with
  | None => raise KeyError
  | Some [] =>
      msg "HashDB: Couldn't find any matches for hash value" ;;
      ret Continue
  | Some hashes =>
      (* Resolve the hash string object from the response *)
      chosen_match <- choose_match E hashes ;;
      match chosen_match with
      | None =>
          lock_release ;;     (* Release the lock *)
          ret (Return tt)
      | Some hash_string_object =>
          let hash_string_value :=
            or_empty_string (string_of_match hash_string_object) in
          (* Add hash to enum *)
          enum_id <-
            add_enums_sync [(hash_string_value, se_hash_value hash_entry)] ;;
          match enum_id with
          | None =>
              msg "ERROR: Unable to create or find enum" ;;
              lock_release ;;     (* Release the lock *)
              ret (Return tt)
          | Some enum_id =>
              (* Should we convert the values in the database? *)
              if convert_values then
                convert_entry hash_entry enum_id hash_string_value ;;
                ret Continue
              else ret Continue
          end
      end
  end.

(** [hash_scan_done(convert_values = False, hash_list = None)] *)
Definition hash_scan_done (E : env) (args : list value) : M world unit :=
  params <- match args with
            | [] => ret (VBool false, VNone)
            | [convert_values] => ret (convert_values, VNone)
            | [convert_values; hash_list] => ret (convert_values, hash_list)
            | _ => raise TypeError
            end ;;
  let '(convert_values, hash_list) := params in
  (* Check if the `hash_scan_request` function failed *)
  match hash_list with
  | VNone => lock_release
  | _ =>
      entries <- as_scan_list hash_list ;;
      returned <-
        for_each entries (hash_scan_done_entry E (truthy convert_values)) ;;
      match returned with
      | Some _ => ret tt
      | None => lock_release      (* Release the lock *)
      end
  end.

Definition hash_scan_error (exception : exn) : M world unit :=
  msg "ERROR: HashDB hash scan failed" ;;
  lock_release.

(** The loop of [hash_scan_request]: [None] stands for [return None]. *)
Fixpoint hash_scan_queries (E : env) (hash_list : list scan_entry)
    (api_url : string) (algorithm : option string) (xor_value : option Z)
    (timeout : option Z) : M world (option (list scan_entry)) :=
  match hash_list with
  | [] => ret (Some [])
  | hash_entry :: rest =>
      hash_results <-
        try_except
          (r <- get_strings_from_hash E algorithm (se_hash_value hash_entry)
                  (match xor_value with Some x => x | None => 0 end)
                  api_url timeout ;;
           ret (Some r))
          (exn_eqb RequestsTimeout)
          (fun _ =>
             msg "ERROR: HashDB API lookup scan request timed out." ;;
             ret None) ;;
      match hash_results with
      | None => ret None
      | Some hashes =>
          let hash_entry :=
            {| se_ea := se_ea hash_entry;
               se_hash_value := se_hash_value hash_entry;
               se_size := se_size hash_entry;
               se_hashes := Some hashes |} in
          done <- hash_scan_queries E rest api_url algorithm xor_value
                    timeout ;;
          match done with
          | None => ret None
          | Some entries => ret (Some (hash_entry :: entries))
          end
      end
  end.

(** [hash_scan_request(convert_values, hash_list, api_url, algorithm,
    xor_value, timeout)] *)
Definition hash_scan_request (E : env) (args : list value) : M world value :=
  match args with
  | [convert_values; hash_list; api_url; algorithm; xor_value; timeout] =>
      hash_list <- as_scan_list hash_list ;;
      api_url <- as_str api_url ;;
      algorithm <- as_optional_str algorithm ;;
      xor_value <- as_optional_int xor_value ;;
      timeout <- as_optional_int timeout ;;
      done <- hash_scan_queries E hash_list api_url algorithm xor_value
                timeout ;;
      match done with
      | None => ret VNone
      | Some entries =>
          ret (VTuple [convert_values; VList (map VEntry entries)])
      end
  | _ => raise TypeError
  end.

(* ====================================================================== *)
(** * Algorithm search function *)
(* ====================================================================== *)

(** [hunt_algorithm_done(response = None)] *)
Definition hunt_algorithm_done (E : env) (args : list value) : M world unit :=
  response <- match args with
              | [] => ret VNone
              | [response] => ret response
              | _ => raise TypeError
              end ;;
  (* Display the result *)
  match response with
  | VNone =>
      msg "HashDB: Couldn't find any algorithms that match the provided hash."
  | _ =>
      execute_sync (hunt_result_form_t_show E [response]) false ;;
      ret tt
  end ;;
  (* Release the lock *)
  lock_release.

Definition hunt_algorithm_error (exception : exn) : M world unit :=
  msg "ERROR: HashDB hash scan failed" ;;
  lock_release.

(** [match == algorithm[0]] on a chooser row. *)
Definition row_has_name (name : string) (algorithm : value) : bool :=
  match algorithm with
  | VList (VStr n :: _) => String.eqb name n
  | _ => false
  end.

(** The nested loops that join the matches with the algorithm list: for
    each match, the first row of that name. *)
Definition join_results (match_results : list string)
    (algorithms : list value) : list value :=
  flat_map
    (fun match_ =>
       match find (row_has_name match_) algorithms with
       | Some algorithm => [algorithm]
       | None => []
       end)
    match_results.

(** [hunt_algorithm_request(hash_value, timeout = None)] *)
Definition hunt_algorithm_request (E : env) (args : list value)
  : M world value :=
  params <- match args with
            | [hash_value] => ret (hash_value, VNone)
            | [hash_value; timeout] => ret (hash_value, timeout)
            | _ => raise TypeError
            end ;;
  let '(hash_value, timeout) := params in
  hash_value <- as_int hash_value ;;
  timeout <- as_optional_int timeout ;;
  (* Attempt to find matches *)
  api_url <- global HASHDB_API_URL ;;
  match_results <-
    try_except
      (r <- hunt_hash E hash_value api_url timeout ;; ret (Some r))
      (exn_eqb RequestsTimeout)
      (fun _ =>
         msg "ERROR: HashDB API hunt hash request timed out." ;;
         ret None) ;;
  match match_results with
  | None => ret VNone
  | Some match_results =>
      (* Fix the results (algorithm sizes) *)
      algorithms <-
        try_except
          (r <- get_algorithms E "https://hashdb.openanalysis.net" timeout ;;
           ret (Some r))
          (exn_eqb RequestsTimeout)
          (fun _ =>
             msg "ERROR: HashDB API algorithms request timed out." ;;
             ret None) ;;
      match algorithms with
      | None => ret VNone
      | Some algorithms =>
          (* Return the results *)
          ret (VList (join_results match_results algorithms))
      end
  end.

(* ====================================================================== *)
(** * Starting and running workers *)
(* ====================================================================== *)

(** The targets are [async def] functions, the callbacks plain ones. *)
Definition target_callable (E : env) (f : target_function)
  : Worker.callable world (list value) value :=
  {| Worker.iscoroutinefunction := true;
     Worker.call :=
       match f with
       | hash_lookup_request_fn => hash_lookup_request E
       | hash_scan_request_fn => hash_scan_request E
       | hunt_algorithm_request_fn => hunt_algorithm_request E
       end |}.

Definition done_callable (E : env) (f : done_function)
  : Worker.callable world (list value) unit :=
  {| Worker.iscoroutinefunction := false;
     Worker.call :=
       match f with
       | hash_lookup_done_fn => hash_lookup_done E
       | hash_scan_done_fn => hash_scan_done E
       | hunt_algorithm_done_fn => hunt_algorithm_done E
       end |}.

Definition error_callable (f : error_function)
  : Worker.callable world exn unit :=
  {| Worker.iscoroutinefunction := false;
     Worker.call :=
       match f with
       | hash_lookup_error_fn => hash_lookup_error
       | hash_scan_error_fn => hash_scan_error
       | hunt_algorithm_error_fn => hunt_algorithm_error
       end |}.

(** [Worker(target=..., args=...)] followed by [worker.start(...)], up to
    the call of [Thread.start()]. *)
Definition worker_of (E : env) (th : thread) : result (Worker.t world) :=
  Worker.start
    (Worker.init (target_callable E (th_target th)) (th_args th))
    (th_timeout th)
    (option_map (done_callable E) (th_done_callback th))
    (option_map error_callable (th_error_callback th)).

(** [worker.start(...)]: the thread is started; it runs later. *)
Definition start_worker (E : env) (th : thread) : M world unit :=
  match worker_of E th with
  | Ret _ => modify (fun w => with_threads w (threads w ++ [th]))
  | Raise e => raise e
  | Blocked => lift Blocked
  end.

(** The body of a started thread, [Worker.run]. *)
Definition run_thread (E : env) (th : thread) (w : world)
  : Worker.report * world :=
  match worker_of E th with
  | Ret worker => Worker.run worker w
  | Raise e => ({| Worker.outcome := Raise e; Worker.invoked := [] |}, w)
  | Blocked => ({| Worker.outcome := Blocked; Worker.invoked := [] |}, w)
  end.

(** The oldest started thread runs to its end. *)
Definition run_pending (E : env) (w : world) : option (Worker.report * world) :=
  match threads w with
  | th :: rest => Some (run_thread E th (with_threads w rest))
  | [] => None
  end.

(* ====================================================================== *)
(** * The entry points of the three pipelines *)
(* ====================================================================== *)

(** The settings prompt shared by [hash_lookup_run] and [hash_scan_run]:
    [false] stands for the early [return True]. *)
Definition select_algorithm_first (E : env) : M world bool :=
  algorithm <- global HASHDB_ALGORITHM ;;
  match algorithm with
  | Some _ => ret true
  | None =>
      show (Warning "Please select a hash algorithm before using HashDB.") ;;
      settings_results <- hashdb_settings_t_show E ;;
      if settings_results then
        msg "HashDB configured successfully!" ;;
        ret true
      else
        msg "HashDB configuration cancelled!" ;;
        ret false
  end.

(** [HASHDB_XOR_VALUE if HASHDB_USE_XOR else None] *)
Definition xor_argument (c : config) : value :=
  if HASHDB_USE_XOR c then VInt (HASHDB_XOR_VALUE c) else VNone.

(** The worker of [hash_lookup_run]: target [hash_lookup_request] with
    the arguments read from the globals [c], and the two callbacks. *)
Definition lookup_thread (c : config) (hash_value timeout : Z) : thread :=
  {| th_target := hash_lookup_request_fn;
     th_args := [VStr (HASHDB_API_URL c); optional_str (HASHDB_ALGORITHM c);
                 VInt hash_value; xor_argument c; VInt timeout];
     th_timeout := timeout;
     th_done_callback := Some hash_lookup_done_fn;
     th_error_callback := Some hash_lookup_error_fn |}.

(** The worker of [hash_scan_run]. *)
Definition scan_thread (c : config) (convert_values : bool)
    (hash_list : list scan_entry) (timeout : Z) : thread :=
  {| th_target := hash_scan_request_fn;
     th_args := [VBool convert_values; VList (map VEntry hash_list);
                 VStr (HASHDB_API_URL c); optional_str (HASHDB_ALGORITHM c);
                 xor_argument c; VInt timeout];
     th_timeout := timeout;
     th_done_callback := Some hash_scan_done_fn;
     th_error_callback := Some hash_scan_error_fn |}.

(** The worker of [hunt_algorithm_run]. *)
Definition hunt_thread (hash_value timeout : Z) : thread :=
  {| th_target := hunt_algorithm_request_fn;
     th_args := [VInt hash_value; VInt timeout];
     th_timeout := timeout;
     th_done_callback := Some hunt_algorithm_done_fn;
     th_error_callback := Some hunt_algorithm_error_fn |}.

(** [hash_lookup_run(timeout)]: [true] asks the caller to release the
    lock. *)
Definition hash_lookup_run (E : env) (timeout : Z) : M world bool :=
  (* Check if an algorithm is selected *)
  configured <- select_algorithm_first E ;;
  if negb configured then ret true       (* Release the lock *)
  else
    (* Get the selected hash value *)
    hash_value <- parse_highlight E ;;
    match hash_value with
    | None =>
        msg "HashDB ERROR: Invalid hash value selection." ;;
        ret true                         (* Release the lock *)
    | Some hash_value =>
        msg "HashDB: Found hash value" ;;
        (* Lookup the hash and show a match select form *)
        c <- global (fun c => c) ;;
        start_worker E (lookup_thread c hash_value timeout) ;;
        ret false                        (* Do not release the lock *)
    end.

(** The guard that opens the three entry points. *)
Definition busy_notice : M world unit :=
  show (Info "Please wait until the previous request is finished.").

Definition hash_lookup (E : env) : M world unit :=
  (* Check if we're already running a request *)
  is_locked <- lock_locked ;;
  if is_locked then busy_notice
  else
    (* Acquire the lock and execute the request *)
    lock_acquire ;;
    msg "HashDB: Searching for a hash, please wait!" ;;
    timeout <- global HASHDB_REQUEST_TIMEOUT ;;
    release_lock <- hash_lookup_run E timeout ;;
    if release_lock then lock_release else ret tt.

(** The closure [scan_range(start, end)]: the loop [while ea < end] runs at
    most [fuel] rounds here. *)
Fixpoint scan_range (fuel : nat) (E : env) (convert_values : bool)
    (algorithm_size : Z) (ea end_ : Z) : result (list scan_entry) :=
  if ea <? end_ then
    match fuel with
    | O => Blocked
    | S fuel' =>
        (* Read the hash value and determine the step size *)
        match read_integer_from_db E ea 0 with
        | Ret (hash_value, step_size, was_type_valid) =>
            let reread :=
              if convert_values && negb was_type_valid
              then read_integer_from_db E ea (Z.quot algorithm_size 8)
              else Ret (hash_value, step_size, was_type_valid) in
            match reread with
            | Ret (hash_value, step_size, _) =>
                match scan_range fuel' E convert_values algorithm_size
                        (ea + step_size) end_ with
                | Ret hash_values =>
                    Ret ({| se_ea := ea; se_hash_value := hash_value;
                            se_size := step_size; se_hashes := None |}
                         :: hash_values)
                | Raise e => Raise e
                | Blocked => Blocked
                end
            | Raise e => Raise e
            | Blocked => Blocked
            end
        | Raise e => Raise e
        | Blocked => Blocked
        end
    end
  else Ret [].

(** [hash_scan_run(convert_values, timeout)] *)
Definition hash_scan_run (E : env) (convert_values : bool) (timeout : Z)
  : M world bool :=
  (* Only scan for data in the dissassembler *)
  if negb (viewer_at_idaplace E) then
    msg "ERROR: Scan only available in dissassembler." ;;
    ret true                             (* Release the lock *)
  else
    (* Get the highlighted range *)
    let '(start, end_) :=
      if (read_selection_start E =? IDA.BADADDR)
         || (read_selection_end E =? IDA.BADADDR)
      then (get_item_head E (here E), get_item_end E (here E))
      else (read_selection_start E, read_selection_end E) in
    (* If an algorithm isn't selected, give the user a chance to choose *)
    configured <- select_algorithm_first E ;;
    if negb configured then ret true     (* Release the lock *)
    else
      (* Check for a valid algorithm size *)
      size <- global HASHDB_ALGORITHM_SIZE ;;
      if negb (size =? 32) && negb (size =? 64) then
        msg "ERROR: Unexpected algorithm size provided" ;;
        ret true                         (* Release the lock *)
      else
        hash_list <-
          lift (scan_range (Z.to_nat (end_ - start)) E convert_values size
                  start end_) ;;
        for_each hash_list (fun _ =>
          msg "HashDB: Found hash value" ;; ret (@Continue unit)) ;;
        (* Hunt all hashes, and provide the `hash_scan_done` callback *)
        c <- global (fun c => c) ;;
        start_worker E (scan_thread c convert_values hash_list timeout) ;;
        ret false.                       (* Do not release the lock *)

(** [hash_scan(convert_values = True)] *)
Definition hash_scan (E : env) (convert_values : bool) : M world unit :=
  is_locked <- lock_locked ;;
  if is_locked then busy_notice
  else
    lock_acquire ;;
    msg "HashDB: Scanning for hashes, please wait!" ;;
    timeout <- global HASHDB_REQUEST_TIMEOUT ;;
    release_lock <- hash_scan_run E convert_values timeout ;;
    if release_lock then lock_release else ret tt.

(** [hunt_algorithm_run(timeout)] *)
Definition hunt_algorithm_run (E : env) (timeout : Z) : M world bool :=
  (* Get the selected hash value *)
  hash_value <- parse_highlight E ;;
  match hash_value with
  | None =>
      msg "HashDB ERROR: Invalid hash hash selection." ;;
      ret true                           (* Release the lock *)
  | Some hash_value =>
      (* Xor option *)
      c <- global (fun c => c) ;;
      let hash_value :=
        if HASHDB_USE_XOR c then Z.lxor hash_value (HASHDB_XOR_VALUE c)
        else hash_value in
      (* Hunt the algorithm and show the hunt result form *)
      start_worker E (hunt_thread hash_value timeout) ;;
      ret false                          (* Do not release the lock *)
  end.

Definition hunt_algorithm (E : env) : M world unit :=
  is_locked <- lock_locked ;;
  if is_locked then busy_notice
  else
    lock_acquire ;;
    msg "HashDB: Hunting for a hash algorithm, please wait!" ;;
    timeout <- global HASHDB_REQUEST_TIMEOUT ;;
    release_lock <- hunt_algorithm_run E timeout ;;
    if release_lock then lock_release else ret tt.

(* ====================================================================== *)
(** * Vocabulary of the properties *)
(* ====================================================================== *)

(** The exceptions that the wrapper picked by [Worker.run] hands to the
    error callback: cancellation and timeout. *)
Definition expected_by {S} (w : Worker.t S) (e : exn) : bool :=
  if Worker.iscoroutinefunction (Worker._target w)
  then Worker.expected_async e
  else Worker.expected_sync e.

(** A small task for the task runner, on a state that logs the calls: an
    [async] target that returns [1], and two callbacks. *)
Definition logging_target : Worker.callable (list string) (list value) value :=
  {| Worker.iscoroutinefunction := true;
     Worker.call := fun _ log => (Ret (VInt 1), (log ++ ["target"])%list) |}.

Definition logging_done : Worker.callable (list string) (list value) unit :=
  {| Worker.iscoroutinefunction := false;
     Worker.call := fun _ log => (Ret tt, (log ++ ["done"])%list) |}.

Definition logging_error : Worker.callable (list string) exn unit :=
  {| Worker.iscoroutinefunction := false;
     Worker.call := fun _ log => (Ret tt, (log ++ ["error"])%list) |}.

(** A done callback that fails with a [RuntimeError], as
    [Lock.release()] does on a free lock. *)
Definition failing_done : Worker.callable (list string) (list value) unit :=
  {| Worker.iscoroutinefunction := false;
     Worker.call := fun _ log => (Raise RuntimeError, (log ++ ["done"])%list) |}.

Definition logging_worker (done : Worker.callable (list string) (list value) unit)
  : Worker.t (list string) :=
  {| Worker._target := logging_target; Worker._args := [];
     Worker.__timeout := Some 15;
     Worker.__done_callback := Some done;
     Worker.__error_callback := Some logging_error |}.

(** The list under ["hashes"] of a response, [results.get('hashes', [])]. *)
Definition received_hashes (json : body) : list hash_info :=
  match b_hashes json with
  | Some l => l
  | None => []
  end.

(** The flag ["is_api"] of a record, when the record carries one. *)
Definition api_flag (info : hash_info) : option bool :=
  match hi_string info with
  | Some s => si_is_api s
  | None => None
  end.

(** The candidate string of a record, when the record carries one. *)
Definition candidate_string (info : hash_info) : option string :=
  match hi_string info with
  | Some s => si_string s
  | None => None
  end.



(** A received record is well formed when a record flagged "not an API
    symbol" has a candidate string. *)
Definition well_formed (info : hash_info) : Prop :=
  api_flag info = Some false -> candidate_string info <> None.

(** A service that answers every request with the same body. *)
Definition constant_service (status_code : Z) (json : body)
  : nat -> request -> response :=
  fun _ _ => Response status_code json.

(** An environment in which nothing is highlighted, the service times out
    and the user cancels every form; the scenarios below override the
    fields they need. *)
Definition quiet_env : env :=
  {| get_highlight := None;
     viewer_at_idaplace := true;
     read_selection_start := IDA.BADADDR;
     read_selection_end := IDA.BADADDR;
     here := 0x401000;
     get_item_head := fun ea => ea;
     get_item_end := fun ea => ea + 4;
     idc_guess_type := fun _ => "int";
     get_64bit := fun _ => 0;
     get_32bit := fun _ => 0;
     get_16bit := fun _ => 0;
     get_byte := fun _ => 0;
     is_code := fun _ => false;
     get_operand_value := fun _ _ => 0;
     service := fun _ _ => TimedOut;
     settings_form := fun _ => SettingsCancel;
     match_select_form := fun _ _ => None;
     api_import_select_form := fun _ _ _ => None;
     hunt_result_form := fun _ _ => HuntCancel |}.

Definition with_highlight (E : env) (text : string) : env :=
  {| get_highlight := Some (text, 1);
     viewer_at_idaplace := viewer_at_idaplace E;
     read_selection_start := read_selection_start E;
     read_selection_end := read_selection_end E;
     here := here E;
     get_item_head := get_item_head E;
     get_item_end := get_item_end E;
     idc_guess_type := idc_guess_type E;
     get_64bit := get_64bit E;
     get_32bit := get_32bit E;
     get_16bit := get_16bit E;
     get_byte := get_byte E;
     is_code := is_code E;
     get_operand_value := get_operand_value E;
     service := service E;
     settings_form := settings_form E;
     match_select_form := match_select_form E;
     api_import_select_form := api_import_select_form E;
     hunt_result_form := hunt_result_form E |}.

Definition with_service (E : env) (f : nat -> request -> response) : env :=
  {| get_highlight := get_highlight E;
     viewer_at_idaplace := viewer_at_idaplace E;
     read_selection_start := read_selection_start E;
     read_selection_end := read_selection_end E;
     here := here E;
     get_item_head := get_item_head E;
     get_item_end := get_item_end E;
     idc_guess_type := idc_guess_type E;
     get_64bit := get_64bit E;
     get_32bit := get_32bit E;
     get_16bit := get_16bit E;
     get_byte := get_byte E;
     is_code := is_code E;
     get_operand_value := get_operand_value E;
     service := f;
     settings_form := settings_form E;
     match_select_form := match_select_form E;
     api_import_select_form := api_import_select_form E;
     hunt_result_form := hunt_result_form E |}.

(** A plain string match and an API match, as the service sends them. *)
Definition string_match (text : string) : hash_info :=
  {| hi_hash := None;
     hi_string :=
       Some {| si_string := Some text; si_is_api := Some false;
               si_api := None; si_modules := None;
               si_permutation := None |} |}.

Definition api_match (api : string) (modules : list string) : hash_info :=
  {| hi_hash := None;
     hi_string :=
       Some {| si_string := Some api; si_is_api := Some true;
               si_api := Some api; si_modules := Some modules;
               si_permutation := Some "api" |} |}.

Definition hashes_body (hashes : list hash_info) : body :=
  {| b_hashes := Some hashes; b_algorithms := None; b_hits := None |}.

(** The globals after the user picked the algorithm [crc32], 32 bits. *)
Definition crc32_config : config :=
  {| HASHDB_API_URL := "https://hashdb.openanalysis.net";
     HASHDB_USE_XOR := false;
     HASHDB_XOR_VALUE := 0;
     HASHDB_ALGORITHM := Some "crc32";
     HASHDB_ALGORITHM_SIZE := 32;
     ENUM_PREFIX := "hashdb_strings";
     HASHDB_REQUEST_TIMEOUT := 15 |}.

Definition crc32_world : world := with_cfg initial_world crc32_config.

(** The request that [get_strings_from_hash] sends. *)
Definition lookup_query (c : config) (algorithm : option string)
    (hash_value xor_value : Z) (api_url : string) (timeout : option Z)
  : request :=
  GET (api_url ++ "/hash/" ++ format_s algorithm ++ "/"
       ++ str_int (Z.lxor hash_value xor_value))
      (match timeout with
       | Some t => t
       | None => HASHDB_REQUEST_TIMEOUT c
       end).

(** An attempt of [add_enums] that failed on a name in use. *)
Definition failed_attempt (enum_id : nat) (member_name : string) (value : Z)
    (index : nat) : IDA.host_call :=
  IDA.AddEnumMember enum_id (attempt_name member_name index) value
    IDA.ENUM_MEMBER_ERROR_NAME.

(** A database in which a name and its 255 suffixed variants are the names
    of addresses. *)
Definition crowded_idb (member_name : string) : IDA.idb :=
  {| IDA.enums :=
       [{| IDA.enum_name := "hashdb_strings_crc32"; IDA.enum_width := 4;
           IDA.enum_members := [] |}];
     IDA.names :=
       map (fun index => (attempt_name member_name index, 0x401000))
           (seq 0 MAXIMUM_ATTEMPTS);
     IDA.journal := [] |}.

(** The world once [("foo", 1)] is in the enum of the algorithm. *)
Definition foo_world : world :=
  snd (add_enums "hashdb_strings_crc32" [("foo", 1)] 0 crc32_world).

(** Two worlds agree on [proj]. *)
Definition same {S B} (proj : S -> B) (s s' : S) : Prop := proj s = proj s'.

(** A statement leaves the state in relation [R] with the state it
    started from, however it ends. *)
Definition stable {S A} (R : S -> S -> Prop) (m : M S A) : Prop :=
  forall s, R s (snd (m s)).

(** The state of the request lock with its two counters. *)
Definition lock_state (w : world) : bool * nat * nat :=
  (locked w, acquires w, releases w).

(** What a database keeps through the insertions into the enum [enum_id]:
    the names and widths of its enums, and the members of [enum_id] up to
    one member of value [value] added at the end. *)
Definition grown (enum_id : nat) (value : Z) (db db' : IDA.idb) : Prop :=
  IDA.shape db' = IDA.shape db /\
  (IDA.members_of db' enum_id = IDA.members_of db enum_id \/
   exists name,
     IDA.members_of db' enum_id
     = (IDA.members_of db enum_id ++ [(name, value)])%list).


(* ====================================================================== *)
(** * Scenarios *)
(* ====================================================================== *)

(** An environment given by what is highlighted, the service and the
    answers of the user; the host shows a disassembly view with nothing
    selected. *)
Definition make_env (highlight : option (string * Z))
    (service_ : nat -> request -> response)
    (settings : list event -> settings_answer)
    (match_select : list event -> list string -> option nat)
    (api_import_select : list event -> string -> list string -> option nat)
    (hunt_result : list event -> list value -> hunt_answer) : env :=
  {| get_highlight := highlight;
     viewer_at_idaplace := true;
     read_selection_start := IDA.BADADDR;
     read_selection_end := IDA.BADADDR;
     here := 0x401000;
     get_item_head := fun ea => ea;
     get_item_end := fun ea => ea + 4;
     idc_guess_type := fun _ => "int";
     get_64bit := fun ea => ea;
     get_32bit := fun ea => ea;
     get_16bit := fun ea => ea;
     get_byte := fun ea => ea;
     is_code := fun _ => false;
     get_operand_value := fun _ _ => 0;
     service := service_;
     settings_form := settings;
     match_select_form := match_select;
     api_import_select_form := api_import_select;
     hunt_result_form := hunt_result |}.

Definition no_body : body :=
  {| b_hashes := None; b_algorithms := None; b_hits := None |}.

(** Lookup of an API hash with bulk import: the hash query finds the API
    symbol [CreateFileW] of [kernel32], the user asks for the import of the
    module, and the module query is answered with status 500. *)
Definition import_fails_env : env :=
  make_env (Some ("0E40E9BDh", 1))
    (fun n _ =>
       match n with
       | O => Response 200 (hashes_body [api_match "CreateFileW" ["kernel32"]])
       | _ => Response 500 no_body
       end)
    (fun _ => SettingsCancel)
    (fun _ _ => None)
    (fun _ _ _ => Some 0%nat)
    (fun _ _ => HuntCancel).

(** The world after the lookup was launched and its worker ran. *)
Definition after_lookup (E : env) (w : world) : Worker.report * world :=
  match run_pending E (snd (hash_lookup E w)) with
  | Some r => r
  | None => ({| Worker.outcome := Ret tt; Worker.invoked := [] |},
             snd (hash_lookup E w))
  end.

(** A scan over five 32-bit values selected in the disassembly, in which
    the service answers the [n]-th query by [answer n]. *)
Definition scan_env (answer : nat -> response) : env :=
  {| get_highlight := None;
     viewer_at_idaplace := true;
     read_selection_start := 0x401000;
     read_selection_end := 0x401014;
     here := 0x401000;
     get_item_head := fun ea => ea;
     get_item_end := fun ea => ea + 4;
     idc_guess_type := fun _ => "int";
     get_64bit := fun ea => ea;
     get_32bit := fun ea => ea;
     get_16bit := fun ea => ea;
     get_byte := fun ea => ea;
     is_code := fun _ => false;
     get_operand_value := fun _ _ => 0;
     service := fun n _ => answer n;
     settings_form := fun _ => SettingsCancel;
     match_select_form := fun _ _ => None;
     api_import_select_form := fun _ _ _ => None;
     hunt_result_form := fun _ _ => HuntCancel |}.

(** Every query finds one string, named after the rank of the query. *)
Definition all_answered (n : nat) : response :=
  Response 200 (hashes_body [string_match (attempt_name "api" n)]).

(** The third query times out. *)
Definition third_times_out (n : nat) : response :=
  match n with
  | 2%nat => TimedOut
  | _ => all_answered n
  end.

(** The third query is answered with status 500. *)
Definition third_refused (n : nat) : response :=
  match n with
  | 2%nat => Response 500 no_body
  | _ => all_answered n
  end.

(** The five values of the scan. *)
Definition five_values : list scan_entry :=
  [ {| se_ea := 0x401000; se_hash_value := 0x401000;
       se_size := 4; se_hashes := None |};
    {| se_ea := 0x401004; se_hash_value := 0x401004;
       se_size := 4; se_hashes := None |};
    {| se_ea := 0x401008; se_hash_value := 0x401008;
       se_size := 4; se_hashes := None |};
    {| se_ea := 0x40100C; se_hash_value := 0x40100C;
       se_size := 4; se_hashes := None |};
    {| se_ea := 0x401010; se_hash_value := 0x401010;
       se_size := 4; se_hashes := None |} ].

Definition after_scan (E : env) (w : world) : Worker.report * world :=
  match run_pending E (snd (hash_scan E true w)) with
  | Some r => r
  | None => ({| Worker.outcome := Ret tt; Worker.invoked := [] |},
             snd (hash_scan E true w))
  end.

(** A hunt: the hunt query names the candidates, the catalog query gives
    the types of the algorithms. *)
Definition hits_body (names : list string) : body :=
  {| b_hashes := None; b_algorithms := None;
     b_hits := Some (map (fun n => {| hit_algorithm := Some n |}) names) |}.

Definition catalog_body : body :=
  {| b_hashes := None;
     b_algorithms :=
       Some [ {| ai_algorithm := Some "crc32"; ai_type := Some "unsigned_int" |};
              {| ai_algorithm := Some "fnv1a_64";
                 ai_type := Some "unsigned_long" |};
              {| ai_algorithm := Some "ror13_add";
                 ai_type := Some "unsigned_int" |} ];
     b_hits := None |}.

Definition hunt_env (candidates : list string) : env :=
  make_env (Some ("0E40E9BDh", 1))
    (fun n _ =>
       match n with
       | O => Response 200 (hits_body candidates)
       | _ => Response 200 catalog_body
       end)
    (fun _ => SettingsCancel)
    (fun _ _ => None)
    (fun _ _ _ => None)
    (fun _ _ => HuntOk (Some 0%nat)).

Definition after_hunt (E : env) (w : world) : Worker.report * world :=
  match run_pending E (snd (hunt_algorithm E w)) with
  | Some r => r
  | None => ({| Worker.outcome := Ret tt; Worker.invoked := [] |},
             snd (hunt_algorithm E w))
  end.

(** A lookup that finds one string; while it is in flight the user may
    confirm the settings form with another enum prefix. *)
Definition one_match_env : env :=
  make_env (Some ("0E40E9BDh", 1))
    (fun _ _ => Response 200 (hashes_body [string_match "LoadLibraryA"]))
    (fun _ =>
       SettingsOk false 0 "https://hashdb.openanalysis.net" "renamed"
         (Some (VStr "crc32", VStr "32")))
    (fun _ _ => None)
    (fun _ _ _ => None)
    (fun _ _ => HuntCancel).

(** The lookup is launched, then its worker runs. *)
Definition lookup_undisturbed : world :=
  snd (after_lookup one_match_env crc32_world).

(** The lookup is launched, the settings are edited, then its worker
    runs. *)
Definition lookup_with_edit : world :=
  let launched := snd (hash_lookup one_match_env crc32_world) in
  let edited := snd (global_settings one_match_env launched) in
  match run_pending one_match_env edited with
  | Some r => snd r
  | None => edited
  end.

(** Releasing a held lock frees it and counts one release. *)
Definition released_once (w w' : world) : Prop :=
  locked w' = false /\ releases w' = S (releases w) /\
  acquires w' = acquires w.


(** The world after an entry point found the lock held: the notice is
    shown and nothing else changes. *)
Definition rejected (w : world) : world :=
  with_output w
    (output w ++ [Info "Please wait until the previous request is finished."]).

(** The world after an entry point acquired the free lock and started the
    worker [th]: the lock is held, one more acquisition is counted and the
    thread is the newest of the started threads. *)
Definition launched (th : thread) (w w' : world) : Prop :=
  locked w' = true /\ acquires w' = S (acquires w) /\
  releases w' = releases w /\ threads w' = (threads w ++ [th])%list /\
  sent w' = sent w /\ idb w' = idb w /\ cfg w' = cfg w.

(** The service answers its [n]-th request, whatever the request, with a
    response that is ok and whose records are well formed. *)
Definition answered (E : env) (n : nat) : Prop :=
  exists status_code json,
    (forall rq, service E n rq = Response status_code json) /\
    ok status_code = true /\
    Forall well_formed (received_hashes json).

(** The service lets its [n]-th request time out. *)
Definition times_out (E : env) (n : nat) : Prop :=
  forall rq, service E n rq = TimedOut.

(** The service makes the query of a hash that is its [n]-th request fail
    with the exception [e], in another way than by a timeout: the
    connection fails, the status is not ok, or the body is not JSON. *)
Definition breaks (E : env) (n : nat) (e : exn) : Prop :=
  forall rq,
    match service E n rq with
    | TimedOut => False
    | Failed => e = RequestsError
    | Response status_code _ => ok status_code = false /\ e = HashDBError
    | Page status_code =>
        e = if ok status_code then JSONDecodeError else HashDBError
    end.

(** A statement that neither reads nor writes the globals: run after an
    edit of the globals, it does what it does without the edit. *)
Definition oblivious {A} (m : M world A) : Prop :=
  forall w c, m (with_cfg w c) = (fst (m w), with_cfg (snd (m w)) c).


(* ====================================================================== *)
(** * Vocabulary of the client functions *)
(* ====================================================================== *)

(** [timeout], or [HASHDB_REQUEST_TIMEOUT] when it is [None]. *)
Definition effective_timeout (c : config) (timeout : option Z) : Z :=
  match timeout with
  | Some t => t
  | None => HASHDB_REQUEST_TIMEOUT c
  end.

(** What a client function leaves alone: the globals, the lock, the
    database and the started threads. *)
Definition surroundings (w : world)
  : config * (bool * nat * nat) * IDA.idb * list thread :=
  (cfg w, lock_state w, idb w, threads w).

(** How a client function ends when the service does not answer with an
    ok status and a JSON body.  [reads_refusal] tells whether the function
    reads the body of a response that is not ok, as [hunt_hash] does to
    print it. *)
Definition fails_as {A} (reads_refusal : bool) (answer : response)
    (r : result A) : Prop :=
  match answer with
  | TimedOut => r = Raise RequestsTimeout
  | Failed => r = Raise RequestsError
  | Response status_code _ => ok status_code = false -> r = Raise HashDBError
  | Page status_code =>
      r = Raise (if ok status_code || reads_refusal then JSONDecodeError
                 else HashDBError)
  end.

(** The statement [m] sends the request [rq] and no other one, touches
    nothing of its surroundings, and fails as the service makes it fail. *)
Definition sends_once {A} (E : env) (reads_refusal : bool)
    (rq : config -> request) (m : M world A) : Prop :=
  forall w,
    sent (snd (m w)) = (sent w ++ [rq (cfg w)])%list /\
    surroundings (snd (m w)) = surroundings w /\
    fails_as reads_refusal (service E (List.length (sent w)) (rq (cfg w)))
      (fst (m w)).

(** The list under ["algorithms"] of a response. *)
Definition received_algorithms (json : body) : list algorithm_info :=
  match b_algorithms json with
  | Some l => l
  | None => []
  end.

(** The list under ["hits"] of a response. *)
Definition received_hits (json : body) : list hit_info :=
  match b_hits json with
  | Some l => l
  | None => []
  end.

(** The chooser row of a catalog entry. *)
Definition row_of (algorithm : algorithm_info) : value :=
  algorithm_row (ai_algorithm algorithm)
    (determine_algorithm_size (ai_type algorithm)).

(** A catalog entry whose type is neither [unsigned_int] nor
    [unsigned_long]. *)
Definition unknown_type (algorithm : algorithm_info) : bool :=
  String.eqb (determine_algorithm_size (ai_type algorithm)) "Unknown".

(* ====================================================================== *)
(** * Save and restore settings *)
(* ====================================================================== *)

(** [c.lower()] on a character below 256: the capital letters are "A" to
    "Z" and the codes 192 to 222 but 215, the multiplication sign. *)
Definition lower_char (c : ascii) : ascii :=
  let n := nat_of_ascii c in
  if ((65 <=? n) && (n <=? 90)
      || (192 <=? n) && (n <=? 222) && negb (n =? 215))%nat
  then ascii_of_nat (n + 32) else c.

(** [s.lower()] *)
Fixpoint lower (s : string) : string :=
  match s with
  | EmptyString => EmptyString
  | String c r => String (lower_char c) (lower r)
  end.

(** [str(b)] *)
Definition str_bool (b : bool) : string := if b then "True" else "False".

(** The number that a run of decimal digits denotes after [acc]. *)
Fixpoint digits_after (d : Decimal.uint) (acc : Z) : Z :=
  match d with
  | Decimal.Nil => acc
  | Decimal.D0 l => digits_after l (acc * 10 + 0)
  | Decimal.D1 l => digits_after l (acc * 10 + 1)
  | Decimal.D2 l => digits_after l (acc * 10 + 2)
  | Decimal.D3 l => digits_after l (acc * 10 + 3)
  | Decimal.D4 l => digits_after l (acc * 10 + 4)
  | Decimal.D5 l => digits_after l (acc * 10 + 5)
  | Decimal.D6 l => digits_after l (acc * 10 + 6)
  | Decimal.D7 l => digits_after l (acc * 10 + 7)
  | Decimal.D8 l => digits_after l (acc * 10 + 8)
  | Decimal.D9 l => digits_after l (acc * 10 + 9)
  end.

(** Modelled from the spec: the netnode [NETNODE_NAME] belongs to the host
    database.  Its hash values map a key to a string: [hashstr] reads one
    ([None] when the key is absent), [hashset_buf] writes one.
    [netnode.create(name)] creates the node and returns true when no node
    of that name exists, and returns false when one does.  The store of
    the database is [None] while the node does not exist. *)
Definition netnode : Type := list (string * string).

Definition hashstr (node : netnode) (idx : string) : option string :=
  option_map snd (find (fun p => String.eqb (fst p) idx) node).

Definition hashset_buf (node : netnode) (idx value : string) : netnode :=
  dict_set node idx value.

(** [node.hashstr(idx)] when [bool(node.hashstr(idx))] holds. *)
Definition stored (node : netnode) (idx : string) : option string :=
  match hashstr node idx with
  | Some text => if String.eqb text "" then None else Some text
  | None => None
  end.

(** Assignments to single globals. *)
Definition set_HASHDB_API_URL (api_url : string) (c : config) : config :=
  {| HASHDB_API_URL := api_url;
     HASHDB_USE_XOR := HASHDB_USE_XOR c;
     HASHDB_XOR_VALUE := HASHDB_XOR_VALUE c;
     HASHDB_ALGORITHM := HASHDB_ALGORITHM c;
     HASHDB_ALGORITHM_SIZE := HASHDB_ALGORITHM_SIZE c;
     ENUM_PREFIX := ENUM_PREFIX c;
     HASHDB_REQUEST_TIMEOUT := HASHDB_REQUEST_TIMEOUT c |}.

Definition set_HASHDB_USE_XOR (use_xor : bool) (c : config) : config :=
  {| HASHDB_API_URL := HASHDB_API_URL c;
     HASHDB_USE_XOR := use_xor;
     HASHDB_XOR_VALUE := HASHDB_XOR_VALUE c;
     HASHDB_ALGORITHM := HASHDB_ALGORITHM c;
     HASHDB_ALGORITHM_SIZE := HASHDB_ALGORITHM_SIZE c;
     ENUM_PREFIX := ENUM_PREFIX c;
     HASHDB_REQUEST_TIMEOUT := HASHDB_REQUEST_TIMEOUT c |}.

Definition set_HASHDB_XOR_VALUE (xor_value : Z) (c : config) : config :=
  {| HASHDB_API_URL := HASHDB_API_URL c;
     HASHDB_USE_XOR := HASHDB_USE_XOR c;
     HASHDB_XOR_VALUE := xor_value;
     HASHDB_ALGORITHM := HASHDB_ALGORITHM c;
     HASHDB_ALGORITHM_SIZE := HASHDB_ALGORITHM_SIZE c;
     ENUM_PREFIX := ENUM_PREFIX c;
     HASHDB_REQUEST_TIMEOUT := HASHDB_REQUEST_TIMEOUT c |}.

Definition set_ENUM_PREFIX (enum_prefix : string) (c : config) : config :=
  {| HASHDB_API_URL := HASHDB_API_URL c;
     HASHDB_USE_XOR := HASHDB_USE_XOR c;
     HASHDB_XOR_VALUE := HASHDB_XOR_VALUE c;
     HASHDB_ALGORITHM := HASHDB_ALGORITHM c;
     HASHDB_ALGORITHM_SIZE := HASHDB_ALGORITHM_SIZE c;
     ENUM_PREFIX := enum_prefix;
     HASHDB_REQUEST_TIMEOUT := HASHDB_REQUEST_TIMEOUT c |}.

(** [load_settings()], on the store of the database. *)
Definition load_settings (store : option netnode) : M world unit :=
  match store with
  | Some node =>
      match stored node "HASHDB_API_URL" with
      | Some api_url => set_globals (set_HASHDB_API_URL api_url)
      | None => ret tt
      end ;;
      match stored node "HASHDB_USE_XOR" with
      | Some text =>
          set_globals (set_HASHDB_USE_XOR (String.eqb (lower text) "true"))
      | None => ret tt
      end ;;
      match stored node "HASHDB_XOR_VALUE" with
      | Some text =>
          xor_value <- lift (int_str text) ;;
          set_globals (set_HASHDB_XOR_VALUE xor_value)
      | None => ret tt
      end ;;
      match stored node "HASHDB_ALGORITHM",
            stored node "HASHDB_ALGORITHM_SIZE" with
      | Some algorithm, Some size =>
          successful <- set_algorithm (VStr algorithm) (VStr size) ;;
          if negb successful then
            msg "HashDB failed to set the algorithm when parsing the saved config!"
          else ret tt
      | _, _ => ret tt
      end ;;
      match stored node "ENUM_PREFIX" with
      | Some enum_prefix => set_globals (set_ENUM_PREFIX enum_prefix)
      | None => ret tt
      end ;;
      msg "HashDB configuration loaded!"
  | None => msg "No saved HashDB configuration"
  end.

(** [save_settings()]: the store of the database afterwards. *)
Definition save_settings (store : option netnode)
  : M world (option netnode) :=
  match store with
  | None =>
      (* node.create(NETNODE_NAME) made the node *)
      c <- global (fun c => c) ;;
      let node := hashset_buf [] "HASHDB_API_URL" (HASHDB_API_URL c) in
      let node :=
        hashset_buf node "HASHDB_USE_XOR" (str_bool (HASHDB_USE_XOR c)) in
      let node :=
        hashset_buf node "HASHDB_XOR_VALUE" (str_int (HASHDB_XOR_VALUE c)) in
      let node :=
        match HASHDB_ALGORITHM c with
        | Some algorithm => hashset_buf node "HASHDB_ALGORITHM" algorithm
        | None => node
        end in
      let node :=
        match HASHDB_ALGORITHM c with
        | Some _ =>
            hashset_buf node "HASHDB_ALGORITHM_SIZE"
              (str_int (HASHDB_ALGORITHM_SIZE c))
        | None => node
        end in
      let node := hashset_buf node "ENUM_PREFIX" (ENUM_PREFIX c) in
      msg "HashDB settings saved" ;;
      ret (Some node)
  | Some node =>
      msg "ERROR: Unable to save HashDB settings" ;;
      ret (Some node)
  end.

(** The globals after [set_algorithm] accepted an algorithm. *)
Definition algorithm_set (algorithm : string) (size : Z) (c : config)
  : config :=
  {| HASHDB_API_URL := HASHDB_API_URL c;
     HASHDB_USE_XOR := HASHDB_USE_XOR c;
     HASHDB_XOR_VALUE := HASHDB_XOR_VALUE c;
     HASHDB_ALGORITHM := Some algorithm;
     HASHDB_ALGORITHM_SIZE := size;
     ENUM_PREFIX := ENUM_PREFIX c;
     HASHDB_REQUEST_TIMEOUT := HASHDB_REQUEST_TIMEOUT c |}.

(** While an algorithm is selected, its size is one of the two supported
    sizes. *)
Definition sized (c : config) : Prop :=
  HASHDB_ALGORITHM c = None \/
  HASHDB_ALGORITHM_SIZE c = 32 \/ HASHDB_ALGORITHM_SIZE c = 64.

(** The state reached keeps the invariant of the globals. *)
Definition keeps_sized (w w' : world) : Prop :=
  sized (cfg w) -> sized (cfg w').
(** What [save_settings] writes into a fresh node while the algorithm
    [algorithm] is selected. *)
Definition saved_node (c : config) (algorithm : string) : netnode :=
  [("HASHDB_API_URL", HASHDB_API_URL c);
   ("HASHDB_USE_XOR", str_bool (HASHDB_USE_XOR c));
   ("HASHDB_XOR_VALUE", str_int (HASHDB_XOR_VALUE c));
   ("HASHDB_ALGORITHM", algorithm);
   ("HASHDB_ALGORITHM_SIZE", str_int (HASHDB_ALGORITHM_SIZE c));
   ("ENUM_PREFIX", ENUM_PREFIX c)].

(** The globals [c'] are the globals [c], but for the request timeout,
    which is the one of [c0]. *)
Definition restored (c c0 c' : config) : Prop :=
  HASHDB_API_URL c' = HASHDB_API_URL c /\
  HASHDB_USE_XOR c' = HASHDB_USE_XOR c /\
  HASHDB_XOR_VALUE c' = HASHDB_XOR_VALUE c /\
  HASHDB_ALGORITHM c' = HASHDB_ALGORITHM c /\
  HASHDB_ALGORITHM_SIZE c' = HASHDB_ALGORITHM_SIZE c /\
  ENUM_PREFIX c' = ENUM_PREFIX c /\
  HASHDB_REQUEST_TIMEOUT c' = HASHDB_REQUEST_TIMEOUT c0.

(** The globals after the settings form was confirmed with these
    fields. *)
Definition fields_stored (use_xor : bool) (xor_value : Z)
    (api_url enum_prefix : string) (c : config) : config :=
  {| HASHDB_API_URL := api_url;
     HASHDB_USE_XOR := use_xor;
     HASHDB_XOR_VALUE := xor_value;
     HASHDB_ALGORITHM := HASHDB_ALGORITHM c;
     HASHDB_ALGORITHM_SIZE := HASHDB_ALGORITHM_SIZE c;
     ENUM_PREFIX := enum_prefix;
     HASHDB_REQUEST_TIMEOUT := HASHDB_REQUEST_TIMEOUT c |}.

(** The two entries of a chooser row, as the forms hand them to
    [set_algorithm]. *)
Definition row_entries (algorithm : algorithm_info) : value * value :=
  (match ai_algorithm algorithm with Some n => VStr n | None => VNone end,
   VStr (determine_algorithm_size (ai_type algorithm))).

(* ====================================================================== *)
(** * Vocabulary of the helper functions *)
(* ====================================================================== *)

(** The sizes of the data items of the host, in bytes. *)
Definition data_sizes : list Z := [1; 2; 4; 8].

(** The integer of [size] bytes at [ea]. *)
Definition read_sized (E : env) (size ea : Z) : Z :=
  if size =? 8 then get_64bit E ea
  else if size =? 4 then get_32bit E ea
  else if size =? 2 then get_16bit E ea
  else get_byte E ea.

(** The size of the entry that [scan_range] makes at [ea]: the size of the
    type of the location when the host knows one; otherwise the size of the
    algorithm when values are to be converted, and one byte when not. *)
Definition entry_size (E : env) (convert_values : bool) (algorithm_size : Z)
    (ea : Z) : Z :=
  let type_size := determine_highlighted_type_size E ea in
  if negb (type_size =? 0) then type_size
  else if convert_values then Z.quot algorithm_size 8
  else 1.

(** The entries cover the addresses from [ea] up to [end_] one after the
    other: each entry starts where the one before it ends, has the size of
    its location and the integer read there, and carries no hashes yet. *)
Fixpoint tiles (E : env) (convert_values : bool) (algorithm_size : Z)
    (ea end_ : Z) (l : list scan_entry) : Prop :=
  match l with
  | [] => end_ <= ea
  | e :: rest =>
      ea < end_ /\
      se_ea e = ea /\
      se_size e = entry_size E convert_values algorithm_size ea /\
      In (se_size e) data_sizes /\
      se_hash_value e = read_sized E (se_size e) ea /\
      se_hashes e = None /\
      tiles E convert_values algorithm_size (ea + se_size e) end_ rest
  end.

(** What a database keeps when enums and members are only added: the named
    addresses; every enum under its id and name, an enum created since
    coming after them; the members of every enum, new members coming after
    them; and the journal of the calls made. *)
Definition extended (db db' : IDA.idb) : Prop :=
  IDA.names db' = IDA.names db /\
  (exists added,
      map IDA.enum_name (IDA.enums db')
      = (map IDA.enum_name (IDA.enums db) ++ added)%list) /\
  (forall enum_id,
      exists more,
        IDA.members_of db' enum_id
        = (IDA.members_of db enum_id ++ more)%list) /\
  (exists calls, IDA.journal db' = (IDA.journal db ++ calls)%list).

(** What [add_enums] has no business with. *)
Definition beside_idb (w : world)
  : config * (bool * nat * nat) * list thread * list request * list event :=
  (cfg w, lock_state w, threads w, sent w, output w).

(* ====================================================================== *)
(** * Vocabulary of the worker threads *)
(* ====================================================================== *)

(** The XOR mask that a lookup or a scan applies under the globals [c]. *)
Definition xor_mask (c : config) : Z :=
  if HASHDB_USE_XOR c then HASHDB_XOR_VALUE c else 0.

(** The query of the lookup thread launched under the globals [c]. *)
Definition thread_query (c : config) (hash_value timeout : Z) : request :=
  GET (HASHDB_API_URL c ++ "/hash/" ++ format_s (HASHDB_ALGORITHM c) ++ "/"
       ++ str_int (Z.lxor hash_value (xor_mask c)))
      timeout.

(** The thread ended on its done callback, which released the lock; the
    requests [rqs] were sent and the lines [lines] shown; the database and
    the globals are as they were. *)
Definition ended_quietly (rqs : list request) (lines : list event)
    (w : world) (r : Worker.report * world) : Prop :=
  fst r = {| Worker.outcome := Ret tt; Worker.invoked := [Worker.onDone] |} /\
  released_once w (snd r) /\
  idb (snd r) = idb w /\ cfg (snd r) = cfg w /\
  sent (snd r) = (sent w ++ rqs)%list /\
  output (snd r) = (output w ++ lines)%list.

(** The exception [e] left the thread: no callback ran, the lock is as it
    was, so a held lock stays held; the requests [rqs] were sent; the
    database, the globals and the output are as they were. *)
Definition left_thread (e : exn) (rqs : list request) (w : world)
    (r : Worker.report * world) : Prop :=
  fst r = {| Worker.outcome := Raise e; Worker.invoked := [] |} /\
  lock_state (snd r) = lock_state w /\
  idb (snd r) = idb w /\ cfg (snd r) = cfg w /\
  sent (snd r) = (sent w ++ rqs)%list /\
  output (snd r) = output w.

(** The two requests of the hunt thread: the hunt goes to the API URL of
    the globals, the catalog is read from the default server. *)
Definition hunt_query (c : config) (hash_value timeout : Z) : request :=
  POST (HASHDB_API_URL c ++ "/hunt") [hash_value] timeout.

Definition catalog_query (timeout : Z) : request :=
  GET ("https://hashdb.openanalysis.net" ++ "/hash") timeout.

(** The row [row] is a row of the catalog [json] for an algorithm that a
    hit of [hits] names. *)
Definition matched_row (hits catalog : body) (row : value) : Prop :=
  In row (map row_of (received_algorithms catalog)) /\
  exists hit name,
    In hit (received_hits hits) /\ hit_algorithm hit = Some name /\
    row_has_name name row = true.

(** The row that the hunt returns for the algorithm [name]: the first row
    of that name in the list [algorithms]. *)
Definition first_row (algorithms : list value) (name : string) (row : value)
  : Prop :=
  find (row_has_name name) algorithms = Some row.

(** An optional callback is a coroutine function. *)
Definition is_coroutine {S Arg Res}
    (cb : option (Worker.callable S Arg Res)) : bool :=
  match cb with
  | Some c => Worker.iscoroutinefunction c
  | None => false
  end.

(** The enum that a lookup creates for its first match: it has the name
    that [generate_enum_name] builds, the width of the algorithm in bytes,
    and the match as its only member. *)
Definition first_enum (c : config) (algorithm member_name : string)
    (value : Z) : IDA.enum_t :=
  {| IDA.enum_name := ENUM_PREFIX c ++ "_" ++ algorithm;
     IDA.enum_width := Z.quot (HASHDB_ALGORITHM_SIZE c) 8;
     IDA.enum_members := [(member_name, value)] |}.

(** What the insertions leave alone in a world: everything but the
    members, the widths and the journal of the database. *)
Definition beside_enums (w : world)
  : list string * list (string * Z) * config * (bool * nat * nat)
    * list thread * list request * list event :=
  (map IDA.enum_name (IDA.enums (idb w)), IDA.names (idb w), cfg w,
   lock_state w, threads w, sent w, output w).

(** The enums and the named addresses of a world, and what surrounds the
    database. *)
Definition enums_and_names (w : world)
  : list IDA.enum_t * list (string * Z) * config * (bool * nat * nat)
    * list thread * list request * list event :=
  (IDA.enums (idb w), IDA.names (idb w), cfg w, lock_state w, threads w,
   sent w, output w).

(** The name under which a lookup enters a string that is no API symbol:
    the string without its NUL characters, or ["empty_string"]. *)
Definition member_name_of (text : string) : string :=
  or_empty_string (remove_char zero text).

(** The service answers its [n]-th request, whatever the request, with an
    ok status and no hashes. *)
Definition finds_nothing (E : env) (n : nat) : Prop :=
  forall rq,
    exists status_code json,
      service E n rq = Response status_code json /\
      ok status_code = true /\ received_hashes json = [].

(** A scan entry after its query was answered with no hashes. *)
Definition without_matches (hash_entry : scan_entry) : scan_entry :=
  {| se_ea := se_ea hash_entry;
     se_hash_value := se_hash_value hash_entry;
     se_size := se_size hash_entry;
     se_hashes := Some [] |}.

(** The row of the hunt result form for the algorithm [name] of [size]
    bits. *)
Definition hunt_row (name : string) (size : Z) : value :=
  VList [VStr name; VStr (str_int size)].

(** An environment in which the host guesses no type at any location. *)
Definition untyped_env : env :=
  {| get_highlight := None;
     viewer_at_idaplace := true;
     read_selection_start := 0x401000;
     read_selection_end := 0x401008;
     here := 0x401000;
     get_item_head := fun ea => ea;
     get_item_end := fun ea => ea + 1;
     idc_guess_type := fun _ => "";
     get_64bit := fun ea => ea;
     get_32bit := fun ea => ea;
     get_16bit := fun ea => ea;
     get_byte := fun ea => ea;
     is_code := fun _ => false;
     get_operand_value := fun _ _ => 0;
     service := fun _ _ => TimedOut;
     settings_form := fun _ => SettingsCancel;
     match_select_form := fun _ _ => None;
     api_import_select_form := fun _ _ _ => None;
     hunt_result_form := fun _ _ => HuntCancel |}.

(** The request that the bulk import sends under the globals [c]. *)
Definition module_query (c : config) (module_name permutation : string)
  : request :=
  GET (HASHDB_API_URL c ++ "/module/" ++ module_name ++ "/"
       ++ format_s (HASHDB_ALGORITHM c) ++ "/" ++ permutation)
      (HASHDB_REQUEST_TIMEOUT c).

(** The list that the bulk import hands to [add_enums] under the globals
    [c]. *)
Definition import_list (c : config) (entries : list hash_info)
  : list (string * Z) :=
  enum_list_of (HASHDB_USE_XOR c) (HASHDB_XOR_VALUE c) entries.

(** [.get("permutation", "")] *)
Definition permutation_of (s : string_info) : string :=
  match si_permutation s with
  | Some p => p
  | None => ""
  end.

(** [.get("modules", [])] *)
Definition modules_of (s : string_info) : list string :=
  match si_modules s with
  | Some l => l
  | None => []
  end.

(** [function_entry.get("hash", 0)] *)
Definition hash_of (entry : hash_info) : Z :=
  match hi_hash entry with
  | Some hash => hash
  | None => 0
  end.

(** [function_entry.get("string", {}).get("api", "")] *)
Definition api_of (entry : hash_info) : string :=
  match si_api (string_object entry) with
  | Some a => a
  | None => ""
  end.

(** The globals of a lookup under the XOR mask 0xFF. *)
Definition xor_config : config :=
  {| HASHDB_API_URL := "https://hashdb.openanalysis.net";
     HASHDB_USE_XOR := true;
     HASHDB_XOR_VALUE := 0xFF;
     HASHDB_ALGORITHM := Some "crc32";
     HASHDB_ALGORITHM_SIZE := 32;
     ENUM_PREFIX := "hashdb_strings";
     HASHDB_REQUEST_TIMEOUT := 15 |}.

(** The record of an API symbol in the listing of a module. *)
Definition listed (api : string) (hash : Z) : hash_info :=
  {| hi_hash := Some hash;
     hi_string :=
       Some {| si_string := Some api; si_is_api := Some true;
               si_api := Some api; si_modules := Some ["kernel32"];
               si_permutation := Some "api" |} |}.

(** Lookup of an API hash with bulk import under the mask 0xFF: the hash
    query finds [CreateFileW] of [kernel32], the user asks for the import
    of the module, and the module query lists [CreateFileW], under the
    hash that the lookup asked for, and [ReadFile]. *)
Definition import_env : env :=
  make_env (Some ("0E40E9BDh", 1))
    (fun n _ =>
       match n with
       | O => Response 200 (hashes_body [api_match "CreateFileW" ["kernel32"]])
       | _ =>
           Response 200
             (hashes_body [listed "CreateFileW" (Z.lxor 0xE40E9BD 0xFF);
                           listed "ReadFile" 0x1234])
       end)
    (fun _ => SettingsCancel)
    (fun _ _ => None)
    (fun _ _ _ => Some 0%nat)
    (fun _ _ => HuntCancel).

(* ====================================================================== *)
(** * Part II: properties *)
(* ====================================================================== *)

(* ---------------------------------------------------------------------- *)
(** ** Properties of the literal reader *)

Lemma first_invalid_shift set_ s k :
  first_invalid set_ s (S k) = option_map S (first_invalid set_ s k).
Proof.
  revert k; induction s as [|c r IH]; intros k; simpl; [reflexivity|].
  destruct (char_in c set_); simpl; [apply IH | reflexivity].
Qed.

Lemma trim_invalid_valid_prefix set_ s :
  trim_invalid set_ s = valid_prefix set_ s.
Proof.
  unfold trim_invalid, slice_to.
  induction s as [|c r IH]; simpl; [reflexivity|].
  destruct (char_in c set_) eqn:Hc; simpl; [|reflexivity].
  rewrite first_invalid_shift.
  destruct (first_invalid set_ r 0) as [i|]; simpl.
  - now rewrite IH.
  - now rewrite <- IH.
Qed.

Lemma valid_prefix_all set_ s c :
  In c (chars (valid_prefix set_ s)) -> char_in c set_ = true.
Proof.
  induction s as [|d r IH]; simpl; [tauto|].
  destruct (char_in d set_) eqn:Hd; simpl; [|tauto].
  intros [<-|H]; auto.
Qed.

Lemma char_in_In c s : char_in c s = true -> In c (chars s).
Proof.
  induction s as [|d r IH]; simpl; [discriminate|].
  rewrite orb_true_iff, Ascii.eqb_eq. intros [->|H]; auto.
Qed.

Definition digit_below (base : Z) (c : ascii) : bool :=
  match digit_value c with Some d => d <? base | None => false end.

Lemma character_set_digits t c :
  char_in c (character_set t) = true -> digit_below (types t) c = true.
Proof.
  intros H. apply char_in_In in H. revert c H.
  apply forallb_forall. destruct t; vm_compute; reflexivity.
Qed.

Lemma int_digits_number base acc s :
  (forall c, In c (chars s) -> digit_below base c = true) ->
  int_digits base acc s =
  Ret (fold_left (fun a c => a * base + digit_or_zero c) (chars s) acc).
Proof.
  revert acc; induction s as [|c r IH]; intros acc H; simpl; [reflexivity|].
  assert (Hc : digit_below base c = true) by (apply H; simpl; auto).
  unfold digit_below in Hc. unfold digit_or_zero at 2.
  destruct (digit_value c) as [d|]; [|discriminate].
  rewrite Hc. apply IH. intros c' Hc'. apply H. simpl; auto.
Qed.

Lemma parse_highlighted_value_spec thing :
  parse_highlighted_value thing = Ret (spec_parse thing).
Proof.
  unfold parse_highlighted_value, spec_parse.
  destruct thing as [[text flags]|]; [|reflexivity].
  destruct (flags =? 0); [reflexivity|].
  destruct (strip_marker text) as [body type].
  rewrite trim_invalid_valid_prefix.
  destruct (valid_prefix (character_set type) body) as [|c p] eqn:Hp;
    [reflexivity|].
  unfold int_of. rewrite int_digits_number; [reflexivity|].
  intros c' Hc'. apply character_set_digits.
  apply (valid_prefix_all _ body). now rewrite Hp.
Qed.

(** C4 (as amended).  [parse_highlighted_value] reads the highlighted text
    as a decimal, hex, octal or binary literal: it refines the reading of
    the specification, which keeps the longest prefix of valid characters
    of the base and gives no value when that prefix is empty.  The text
    "41414141h" gives 0x41414141 and "0x1A" gives 26; "123q" carries no
    octal marker, is read as a decimal literal cut at the "q" and gives
    123; "9o" and "q" give no value. *)
Theorem C4_parse_highlighted_value :
  (forall thing, parse_highlighted_value thing = Ret (spec_parse thing)) /\
  parse_highlighted_value (Some ("41414141h", 1)) = Ret (Some 0x41414141) /\
  parse_highlighted_value (Some ("0x1A", 1)) = Ret (Some 26) /\
  parse_highlighted_value (Some ("123q", 1)) = Ret (Some 123) /\
  parse_highlighted_value (Some ("9o", 1)) = Ret None /\
  parse_highlighted_value (Some ("q", 1)) = Ret None.
Proof.
  split; [exact parse_highlighted_value_spec|].
  repeat split; vm_compute; reflexivity.
Qed.

(** C4, the claim as stated fails: the text "123q" does not give "no
    value". *)
Lemma C4_123q_has_a_value :
  parse_highlighted_value (Some ("123q", 1)) <> Ret None.
Proof. vm_compute. discriminate. Qed.

(* ---------------------------------------------------------------------- *)
(** ** The lookup query and NUL characters *)




Lemma strip_null_bytes_total info :
  well_formed info -> exists info', strip_null_bytes info = Ret info'.
Proof.
  unfold well_formed, strip_null_bytes, api_flag, candidate_string.
  destruct (hi_string info) as [s|]; [|eauto].
  destruct (si_is_api s) as [[|]|]; eauto.
  destruct (si_string s); eauto. intros H. now destruct H.
Qed.


Lemma strip_all_total hashes :
  Forall well_formed hashes -> exists out, strip_all hashes = Ret out.
Proof.
  induction 1 as [|info rest Hi _ [out IH]]; simpl; [eauto|].
  destruct (strip_null_bytes_total info Hi) as [h ->]. rewrite IH. eauto.
Qed.

(** The query sends one request and, on a response that is ok, returns the
    received list run through [strip_all]. *)
Lemma get_strings_from_hash_run E algorithm hash_value xor_value api_url
    timeout w :
  let rq := lookup_query (cfg w) algorithm hash_value xor_value api_url
              timeout in
  let w1 := with_sent w (sent w ++ [rq]) in
  get_strings_from_hash E algorithm hash_value xor_value api_url timeout w
  = match service E (List.length (sent w)) rq with
    | TimedOut => (Raise RequestsTimeout, w1)
    | Failed => (Raise RequestsError, w1)
    | Response status_code json =>
        if ok status_code then (strip_all (received_hashes json), w1)
        else (Raise HashDBError, w1)
    | Page status_code =>
        (Raise (if ok status_code then JSONDecodeError else HashDBError), w1)
    end.
Proof.
  unfold get_strings_from_hash, lookup_query, default_timeout, requests_send,
    r_json, bind, global, ret, raise, lift, received_hashes.
  destruct timeout as [t|]; simpl;
    (destruct (service E _ _) as [| |sc js|sc]; [reflexivity|reflexivity| |]);
    simpl; destruct (ok sc); reflexivity.
Qed.



(* ---------------------------------------------------------------------- *)
(** ** The task runner *)

(** Replays in [Hrun], the equation of a run, what the hypotheses say
    about the target and the callbacks. *)
Ltac worker_steps Hrun :=
  repeat match goal with
         | H : Worker.call ?c ?a ?s = _ |- _ =>
             match type of Hrun with
             | context [Worker.call c a s] => rewrite H in Hrun
             end
         | H : Worker.__done_callback ?w = _ |- _ =>
             match type of Hrun with
             | context [Worker.__done_callback w] => rewrite H in Hrun
             end
         | H : Worker.__error_callback ?w = _ |- _ =>
             match type of Hrun with
             | context [Worker.__error_callback w] => rewrite H in Hrun
             end
         | H : Worker.expected_async ?e = _ |- _ =>
             match type of Hrun with
             | context [Worker.expected_async e] => rewrite H in Hrun
             end
         | H : Worker.expected_sync ?e = _ |- _ =>
             match type of Hrun with
             | context [Worker.expected_sync e] => rewrite H in Hrun
             end
         end.

(** C1 (as amended).  For every task that [Worker.run] executes:
    - on normal completion, when a done callback is set and returns, the
      done callback is the only callback invoked;
    - on cancellation or timeout of the work (an exception the wrapper
      treats as expected), when an error callback is set, the error
      callback is the only callback invoked;
    - a fault of the work that is not classified leaves the thread without
      any callback invoked;
    - an expected exception raised by the done callback itself makes the
      error callback run after the done callback;
    - a callback that was not set is skipped, so no callback runs. *)
Theorem C1_callbacks_of_a_task :
  forall (S : Type) (w : Worker.t S) (s : S) rep s',
    Worker.run w s = (rep, s') ->
    (forall done result s1 u s2,
        Worker.__done_callback w = Some done ->
        Worker.call (Worker._target w) (Worker._args w) s = (Ret result, s1) ->
        Worker.call done (Worker.normalize result) s1 = (Ret u, s2) ->
        Worker.invoked rep = [Worker.onDone] /\
        Worker.outcome rep = Ret tt /\ s' = s2) /\
    (forall error e s1,
        Worker.__error_callback w = Some error ->
        Worker.call (Worker._target w) (Worker._args w) s = (Raise e, s1) ->
        expected_by w e = true ->
        Worker.invoked rep = [Worker.onError] /\
        (Worker.outcome rep, s') = Worker.call error e s1) /\
    (forall e s1,
        Worker.call (Worker._target w) (Worker._args w) s = (Raise e, s1) ->
        expected_by w e = false ->
        Worker.invoked rep = [] /\ Worker.outcome rep = Raise e /\ s' = s1) /\
    (forall done error result s1 e s2,
        Worker.__done_callback w = Some done ->
        Worker.__error_callback w = Some error ->
        Worker.call (Worker._target w) (Worker._args w) s = (Ret result, s1) ->
        Worker.call done (Worker.normalize result) s1 = (Raise e, s2) ->
        expected_by w e = true ->
        Worker.invoked rep = [Worker.onDone; Worker.onError] /\
        (Worker.outcome rep, s') = Worker.call error e s2) /\
    (forall result s1,
        Worker.__done_callback w = None ->
        Worker.call (Worker._target w) (Worker._args w) s = (Ret result, s1) ->
        Worker.invoked rep = [] /\ Worker.outcome rep = Ret tt /\ s' = s1) /\
    (forall e s1,
        Worker.__error_callback w = None ->
        Worker.call (Worker._target w) (Worker._args w) s = (Raise e, s1) ->
        expected_by w e = true ->
        Worker.invoked rep = [] /\ Worker.outcome rep = Ret tt /\ s' = s1).
Proof.
  intros S w s rep s' Hrun.
  unfold Worker.run, expected_by in *.
  destruct (Worker.iscoroutinefunction (Worker._target w));
    unfold Worker.__async_wrapper, Worker.__wrapper, Worker.run_until_complete,
      Worker.on_exception in Hrun;
    repeat match goal with |- (forall _, _) /\ _ => split end;
    intros; worker_steps Hrun;
    try (destruct (Worker.call _ _ _) as [r0 s0] eqn:Hcall in Hrun;
         worker_steps Hrun);
    injection Hrun as <- <-; simpl; auto.
Qed.

(** C1 at work: the logging task completes and its done callback is the
    one callback invoked. *)
Lemma C1_callbacks_of_a_task_witness :
  Worker.invoked (fst (Worker.run (logging_worker logging_done) []))
  = [Worker.onDone].
Proof.
  destruct (C1_callbacks_of_a_task (list string)
              (logging_worker logging_done) []
              (fst (Worker.run (logging_worker logging_done) []))
              (snd (Worker.run (logging_worker logging_done) []))
              eq_refl) as [H _].
  apply (H logging_done (VInt 1) ["target"] tt ["target"; "done"]);
    reflexivity.
Defined.

(** C1, the claim as stated fails: a task whose work completes and whose
    done callback raises [RuntimeError] has both of its callbacks
    executed. *)
Lemma C1_both_callbacks_run :
  Worker.run (logging_worker failing_done) []
  = ({| Worker.outcome := Ret tt;
        Worker.invoked := [Worker.onDone; Worker.onError] |},
     ["target"; "done"; "error"]) /\
  List.length
    (Worker.invoked (fst (Worker.run (logging_worker failing_done) [])))
  <> 1%nat.
Proof. split; [reflexivity | vm_compute; discriminate]. Qed.

(** A task started without callbacks completes with no callback at all. *)
Lemma worker_without_callbacks :
  Worker.run (Worker.init logging_target []) []
  = ({| Worker.outcome := Ret tt; Worker.invoked := [] |}, ["target"]).
Proof. reflexivity. Qed.

(* ---------------------------------------------------------------------- *)
(** ** Statements that leave a part of the state alone *)

Section Stable.
Context {S B : Type} (proj : S -> B).

Lemma stable_ret {A} (a : A) : stable (same proj) (ret a).
Proof. intro s. reflexivity. Qed.

Lemma stable_raise {A} e : stable (same proj) (@raise S A e).
Proof. intro s. reflexivity. Qed.

Lemma stable_lift {A} (r : result A) : stable (same proj) (lift r).
Proof. intro s. reflexivity. Qed.

Lemma stable_get : stable (same proj) (@get S).
Proof. intro s. reflexivity. Qed.

Lemma stable_bind {A C} (m : M S A) (k : A -> M S C) :
  stable (same proj) m -> (forall a, stable (same proj) (k a)) ->
  stable (same proj) (bind m k).
Proof.
  intros Hm Hk s. unfold bind. specialize (Hm s).
  destruct (m s) as [[a|e|] s1]; simpl in *; auto.
  unfold same in *. rewrite Hm. apply Hk.
Qed.

Lemma stable_try_except {A} (m : M S A) handles handler :
  stable (same proj) m -> (forall e, stable (same proj) (handler e)) ->
  stable (same proj) (try_except m handles handler).
Proof.
  intros Hm Hh s. unfold try_except. specialize (Hm s).
  destruct (m s) as [[a|e|] s1]; simpl in *; auto.
  destruct (handles e); simpl; auto.
  unfold same in *. rewrite Hm. apply Hh.
Qed.

Lemma stable_for_each {X Q} (xs : list X) (body : X -> M S (flow Q)) :
  (forall x, stable (same proj) (body x)) ->
  stable (same proj) (for_each xs body).
Proof.
  intros Hb. induction xs as [|x rest IH]; simpl.
  - apply stable_ret.
  - apply stable_bind; [apply Hb|]. intros [| |r]; auto using stable_ret.
Qed.

End Stable.

Lemma stable_execute_sync {A B} (proj : world -> B) (m : M world A)
    (initial : A) :
  stable (same proj) m -> stable (same proj) (execute_sync m initial).
Proof.
  intros Hm w. unfold execute_sync. specialize (Hm w).
  destruct (m w) as [[a|e|] w1]; exact Hm.
Qed.

(* ---------------------------------------------------------------------- *)
(** ** The enum store *)

Lemma with_idb_same w : with_idb w (idb w) = w.
Proof. now destruct w. Qed.

Lemma map_update_enum {B} (g : IDA.enum_t -> B) db enum_id f :
  (forall e, g (f e) = g e) ->
  map g (IDA.enums (IDA.update_enum db enum_id f)) = map g (IDA.enums db).
Proof.
  intros Hf. unfold IDA.update_enum. simpl.
  generalize 0%nat. induction (IDA.enums db) as [|e es IH]; intros k; simpl.
  - reflexivity.
  - rewrite IH. destruct (Nat.eqb k enum_id); [now rewrite Hf | reflexivity].
Qed.

Lemma nth_error_update_enum db enum_id f i :
  nth_error (IDA.enums (IDA.update_enum db enum_id f)) i
  = option_map (fun e => if Nat.eqb i enum_id then f e else e)
      (nth_error (IDA.enums db) i).
Proof.
  unfold IDA.update_enum. simpl.
  assert (H : forall es k j,
             nth_error
               (map (fun p => if Nat.eqb (fst p) enum_id then f (snd p) else snd p)
                    (combine (seq k (List.length es)) es)) j
             = option_map
                 (fun e => if Nat.eqb (k + j) enum_id then f e else e)
                 (nth_error es j)).
  { induction es as [|e es IH]; intros k j; simpl.
    - now destruct j.
    - destruct j as [|j]; simpl.
      + now rewrite Nat.add_0_r.
      + rewrite IH. now rewrite Nat.add_succ_r. }
  apply (H _ 0%nat i).
Qed.


Lemma members_of_update_enum db enum_id f :
  IDA.members_of (IDA.update_enum db enum_id f) enum_id
  = match nth_error (IDA.enums db) enum_id with
    | Some e => IDA.enum_members (f e)
    | None => []
    end.
Proof.
  unfold IDA.members_of. rewrite nth_error_update_enum.
  destruct (nth_error (IDA.enums db) enum_id); simpl;
    [now rewrite Nat.eqb_refl | reflexivity].
Qed.

Lemma journal_extended_nil db : IDA.journal_extended db [] = db.
Proof. destruct db. unfold IDA.journal_extended. simpl. now rewrite app_nil_r. Qed.

Lemma journal_extended_app db a b :
  IDA.journal_extended (IDA.journal_extended db a) b
  = IDA.journal_extended db (a ++ b).
Proof. unfold IDA.journal_extended. simpl. now rewrite app_assoc. Qed.

Lemma add_enum_member_taken db enum_id name value :
  nth_error (IDA.enums db) enum_id <> None ->
  IDA.name_in_use db name = true ->
  IDA.add_enum_member db enum_id name value
  = (IDA.ENUM_MEMBER_ERROR_NAME,
     IDA.journal_extended db
       [IDA.AddEnumMember enum_id name value IDA.ENUM_MEMBER_ERROR_NAME]).
Proof.
  intros He Hn. unfold IDA.add_enum_member.
  destruct (nth_error (IDA.enums db) enum_id); [|congruence].
  rewrite Hn. reflexivity.
Qed.

Lemma add_enum_member_free db enum_id name value :
  nth_error (IDA.enums db) enum_id <> None ->
  IDA.name_in_use db name = false ->
  (IDA.same_value_count db enum_id value < 256)%nat ->
  IDA.add_enum_member db enum_id name value
  = (IDA.ENUM_MEMBER_ERROR_SUCCESS, IDA.member_added db enum_id name value).
Proof.
  intros He Hn Hc. unfold IDA.add_enum_member.
  destruct (nth_error (IDA.enums db) enum_id); [|congruence].
  rewrite Hn. apply Nat.leb_gt in Hc. rewrite Hc. reflexivity.
Qed.

(** Attempts on names that are all in use fail one after the other and
    leave the journal as their only trace. *)
Lemma attempts_all_taken m : forall a w enum_id member_name value,
  nth_error (IDA.enums (idb w)) enum_id <> None ->
  (forall i, (a <= i < a + m)%nat ->
             IDA.name_in_use (idb w) (attempt_name member_name i) = true) ->
  for_each (seq a m) (insert_attempt enum_id member_name value) w
  = (Ret None,
     with_idb w
       (IDA.journal_extended (idb w)
          (map (failed_attempt enum_id member_name value) (seq a m)))).
Proof.
  induction m as [|m IH]; intros a w enum_id member_name value He Hall; simpl.
  - now rewrite journal_extended_nil, with_idb_same.
  - unfold bind at 1. unfold insert_attempt at 1. unfold bind, host.
    rewrite add_enum_member_taken by (auto; apply Hall; lia). simpl.
    rewrite IH; simpl; auto.
    + now rewrite journal_extended_app.
    + intros i Hi. apply Hall. lia.
Qed.

(** The attempts stop at the first name that is free: the member is added
    under that name. *)
Lemma attempts_first_free m : forall a w enum_id member_name value k,
  nth_error (IDA.enums (idb w)) enum_id <> None ->
  (IDA.same_value_count (idb w) enum_id value < 256)%nat ->
  (a <= k < a + m)%nat ->
  (forall i, (a <= i < k)%nat ->
             IDA.name_in_use (idb w) (attempt_name member_name i) = true) ->
  IDA.name_in_use (idb w) (attempt_name member_name k) = false ->
  for_each (seq a m) (insert_attempt enum_id member_name value) w
  = (Ret None,
     with_idb w
       (IDA.member_added
          (IDA.journal_extended (idb w)
             (map (failed_attempt enum_id member_name value) (seq a (k - a))))
          enum_id (attempt_name member_name k) value)).
Proof.
  induction m as [|m IH]; intros a w enum_id member_name value k He Hc Hk
    Htaken Hfree; [lia|].
  simpl. unfold bind at 1. unfold insert_attempt at 1. unfold bind, host.
  destruct (Nat.eq_dec k a) as [->|Hne].
  - rewrite add_enum_member_free by auto. simpl.
    rewrite Nat.sub_diag. simpl. now rewrite journal_extended_nil.
  - rewrite add_enum_member_taken by (auto; apply Htaken; lia). simpl.
    rewrite (IH (S a) _ enum_id member_name value k); simpl; auto; try lia.
    + rewrite journal_extended_app.
      replace (k - a)%nat with (S (k - S a)) by lia. reflexivity.
    + intros i Hi. apply Htaken. lia.
Qed.

(** C6.  When the name of a new member is taken, [add_enums] retries with
    the name followed by "_1", "_2", ... and adds the member under the
    first name that is free; when all of [MAXIMUM_ATTEMPTS] = 256 names
    are taken it gives up after 256 attempts, adds nothing and goes on to
    the next pair.  Inserting ("foo", 1) and then ("foo", 2) into the enum
    of the algorithm yields the two members "foo" and "foo_1". *)
Theorem C6_name_collision_retries :
  (forall w enum_id member_name value k,
      nth_error (IDA.enums (idb w)) enum_id <> None ->
      (IDA.same_value_count (idb w) enum_id value < 256)%nat ->
      (k < MAXIMUM_ATTEMPTS)%nat ->
      (forall i, (i < k)%nat ->
         IDA.name_in_use (idb w) (attempt_name member_name i) = true) ->
      IDA.name_in_use (idb w) (attempt_name member_name k) = false ->
      insert_member enum_id member_name value w
      = (Ret None,
         with_idb w
           (IDA.member_added
              (IDA.journal_extended (idb w)
                 (map (failed_attempt enum_id member_name value) (seq 0 k)))
              enum_id (attempt_name member_name k) value))) /\
  (forall w enum_id member_name value,
      nth_error (IDA.enums (idb w)) enum_id <> None ->
      (forall i, (i < MAXIMUM_ATTEMPTS)%nat ->
         IDA.name_in_use (idb w) (attempt_name member_name i) = true) ->
      insert_member enum_id member_name value w
      = (Ret None,
         with_idb w
           (IDA.journal_extended (idb w)
              (map (failed_attempt enum_id member_name value)
                   (seq 0 MAXIMUM_ATTEMPTS))))) /\
  MAXIMUM_ATTEMPTS = 256%nat /\
  (forall member_name,
      attempt_name member_name 0 = member_name /\
      attempt_name member_name 1 = member_name ++ "_1" /\
      attempt_name member_name 255 = member_name ++ "_255") /\
  fst (add_enums "hashdb_strings_crc32" [("foo", 1); ("foo", 2)] 0 crc32_world)
  = Ret (Some 0%nat) /\
  IDA.members_of
    (idb (snd (add_enums "hashdb_strings_crc32" [("foo", 1); ("foo", 2)] 0
                 crc32_world))) 0
  = [("foo", 1); ("foo_1", 2)].
Proof.
  split; [|split; [|split; [|split; [|split]]]].
  - intros w enum_id member_name value k He Hc Hk Htaken Hfree.
    unfold insert_member.
    rewrite (attempts_first_free _ 0%nat w enum_id member_name value k);
      auto; try lia.
    + now rewrite Nat.sub_0_r.
    + intros i Hi. apply Htaken. lia.
  - intros w enum_id member_name value He Hall. unfold insert_member.
    apply attempts_all_taken; auto. intros i Hi. apply Hall. lia.
  - reflexivity.
  - intros member_name. repeat split.
  - vm_compute. reflexivity.
  - vm_compute. reflexivity.
Qed.

(** C6 at work: "foo" is taken in [foo_world], so ("foo", 2) goes in as
    "foo_1" at the second attempt; in a database where "foo" and its 255
    variants are taken, the 256 attempts all fail. *)
Lemma C6_name_collision_retries_witness :
  IDA.members_of (idb (snd (insert_member 0 "foo" 2 foo_world))) 0
  = [("foo", 1); ("foo_1", 2)] /\
  IDA.members_of
    (idb (snd (insert_member 0 "foo" 2
                 (with_idb crc32_world (crowded_idb "foo"))))) 0 = [].
Proof.
  destruct C6_name_collision_retries as [Hfree [Htaken _]]. split.
  - rewrite (Hfree foo_world 0%nat "foo" 2 1%nat).
    + vm_compute. reflexivity.
    + vm_compute. discriminate.
    + vm_compute. lia.
    + vm_compute. lia.
    + intros i Hi. assert (i = 0)%nat as -> by lia. vm_compute. reflexivity.
    + vm_compute. reflexivity.
  - rewrite (Htaken (with_idb crc32_world (crowded_idb "foo")) 0%nat "foo" 2).
    + reflexivity.
    + vm_compute. discriminate.
    + intros i Hi.
      assert (H : forallb
                    (fun i =>
                       IDA.name_in_use
                         (idb (with_idb crc32_world (crowded_idb "foo")))
                         (attempt_name "foo" i))
                    (seq 0 MAXIMUM_ATTEMPTS) = true)
        by (vm_compute; reflexivity).
      rewrite forallb_forall in H. apply H. apply in_seq. lia.
Defined.

(* ---------------------------------------------------------------------- *)
(** ** Inserting a pair twice *)

Lemma find_enum_shape es es' name k :
  map IDA.enum_name es = map IDA.enum_name es' ->
  IDA.find_enum es name k = IDA.find_enum es' name k.
Proof.
  revert es' k; induction es as [|e es IH]; intros [|e' es'] k H;
    try discriminate; simpl; [reflexivity|].
  injection H as -> H. destruct (String.eqb _ name); auto.
Qed.

Lemma find_enum_new es new name k :
  existsb (String.eqb name) (map IDA.enum_name es) = false ->
  IDA.enum_name new = name ->
  IDA.find_enum (es ++ [new]) name k = Some (k + List.length es)%nat.
Proof.
  revert k; induction es as [|e es IH]; intros k Hno Hnew; simpl in *.
  - subst. rewrite String.eqb_refl. f_equal. lia.
  - apply orb_false_iff in Hno as [He Hno].
    rewrite String.eqb_sym, He, IH by auto. f_equal. lia.
Qed.

Lemma find_enum_some es name k enum_id :
  IDA.find_enum es name k = Some enum_id ->
  exists e, nth_error es (enum_id - k) = Some e /\ (k <= enum_id)%nat.
Proof.
  revert k; induction es as [|e es IH]; intros k; simpl; [discriminate|].
  destruct (String.eqb _ name).
  - intros [= <-]. rewrite Nat.sub_diag. exists e. split; [reflexivity | lia].
  - intros H. destruct (IH _ H) as [e' [He' Hk]].
    exists e'. split; [|lia].
    replace (enum_id - k)%nat with (S (enum_id - S k)) by lia. exact He'.
Qed.

Lemma name_in_use_enum_name db name :
  existsb (String.eqb name) (map IDA.enum_name (IDA.enums db)) = true ->
  IDA.name_in_use db name = true.
Proof.
  intros H. unfold IDA.name_in_use. rewrite existsb_app, H. reflexivity.
Qed.

Lemma find_enum_in_names es name k enum_id :
  IDA.find_enum es name k = Some enum_id ->
  existsb (String.eqb name) (map IDA.enum_name es) = true.
Proof.
  revert k; induction es as [|e es IH]; intros k; simpl; [discriminate|].
  destruct (String.eqb (IDA.enum_name e) name) eqn:He.
  - intros _. now rewrite String.eqb_sym, He.
  - intros H. rewrite (IH _ H). apply orb_true_r.
Qed.

Lemma grown_journal enum_id value db cs :
  grown enum_id value db (IDA.journal_extended db cs).
Proof. split; [reflexivity | now left]. Qed.

Lemma enums_member_added db enum_id name value :
  IDA.enums (IDA.member_added db enum_id name value)
  = IDA.enums
      (IDA.update_enum db enum_id (fun e =>
         {| IDA.enum_name := IDA.enum_name e;
            IDA.enum_width := IDA.enum_width e;
            IDA.enum_members := IDA.enum_members e ++ [(name, value)] |})).
Proof. reflexivity. Qed.

Lemma grown_member_added enum_id value db name :
  nth_error (IDA.enums db) enum_id <> None ->
  grown enum_id value db (IDA.member_added db enum_id name value).
Proof.
  intros He. split.
  - unfold IDA.shape. rewrite enums_member_added.
    now apply map_update_enum.
  - right. exists name. unfold IDA.members_of at 1.
    rewrite enums_member_added.
    fold (IDA.members_of
            (IDA.update_enum db enum_id (fun e =>
               {| IDA.enum_name := IDA.enum_name e;
                  IDA.enum_width := IDA.enum_width e;
                  IDA.enum_members := IDA.enum_members e ++ [(name, value)] |}))
            enum_id).
    rewrite members_of_update_enum. unfold IDA.members_of.
    destruct (nth_error (IDA.enums db) enum_id); [reflexivity | congruence].
Qed.

Lemma add_enum_member_cases db enum_id name value :
  (fst (IDA.add_enum_member db enum_id name value)
   = IDA.ENUM_MEMBER_ERROR_SUCCESS /\
   snd (IDA.add_enum_member db enum_id name value)
   = IDA.member_added db enum_id name value /\
   nth_error (IDA.enums db) enum_id <> None) \/
  (fst (IDA.add_enum_member db enum_id name value)
   <> IDA.ENUM_MEMBER_ERROR_SUCCESS /\
   snd (IDA.add_enum_member db enum_id name value)
   = IDA.journal_extended db
       [IDA.AddEnumMember enum_id name value
          (fst (IDA.add_enum_member db enum_id name value))]).
Proof.
  unfold IDA.add_enum_member.
  destruct (nth_error (IDA.enums db) enum_id) as [e|] eqn:He;
    [|right; split; [discriminate | reflexivity]].
  destruct (IDA.name_in_use db name);
    [right; split; [discriminate | reflexivity]|].
  destruct (256 <=? IDA.same_value_count db enum_id value)%nat;
    [right; split; [discriminate | reflexivity]|].
  left. repeat split. discriminate.
Qed.

(** The inner loop changes the database only, and only by growing the
    enum; it adds a member or it does not. *)
Lemma insert_attempts_grown l : forall w enum_id member_name value r w',
  for_each l (insert_attempt enum_id member_name value) w = (r, w') ->
  exists db,
    w' = with_idb w db /\
    grown enum_id value (idb w) db /\
    (r = Ret None \/ r = Ret (Some None)).
Proof.
  induction l as [|i l IH]; intros w enum_id member_name value r w' H.
  - injection H as <- <-. exists (idb w). rewrite with_idb_same.
    split; [reflexivity|]. split; [|now left].
    split; [reflexivity | now left].
  - simpl in H. unfold bind at 1 in H. unfold insert_attempt at 1 in H.
    unfold bind, host in H.
    destruct (add_enum_member_cases (idb w) enum_id
                (attempt_name member_name i) value) as [[Hc [Hd He]]|[Hc Hd]];
      destruct (IDA.add_enum_member (idb w) enum_id
                  (attempt_name member_name i) value) as [code db1];
      simpl in Hc, Hd; subst.
    + simpl in H. injection H as <- <-. eexists. split; [reflexivity|].
      split; [now apply grown_member_added | now left].
    + apply Z.eqb_neq in Hc. rewrite Hc in H.
      destruct (negb (code =? IDA.ENUM_MEMBER_ERROR_NAME)); simpl in H.
      * injection H as <- <-. eexists. split; [reflexivity|].
        split; [apply grown_journal | now right].
      * destruct (IH _ _ _ _ _ _ H) as [db [Hs [Hg Hr]]].
        exists db. rewrite Hs. split; [reflexivity|]. split; [|exact Hr].
        exact Hg.
Qed.



(** Creating the enum or finding it, [idc.add_enum] then
    [ida_enum.get_enum]. *)
Lemma create_or_find db name enum_id db_a :
  IDA.add_enum db name = (Some enum_id, db_a) \/
  (IDA.add_enum db name = (None, db_a) /\
   IDA.get_enum db_a name = Some enum_id) ->
  IDA.find_enum (IDA.enums db_a) name 0 = Some enum_id /\
  nth_error (IDA.enums db_a) enum_id <> None /\
  IDA.members_of db_a enum_id = IDA.members_of db enum_id.
Proof.
  unfold IDA.add_enum, IDA.get_enum.
  destruct (IDA.name_in_use db name) eqn:Hu.
  - intros [H|[H Hf]]; [discriminate|]. injection H as <-.
    split; [exact Hf|]. split; [|reflexivity].
    destruct (find_enum_some _ _ _ _ Hf) as [e [He _]].
    rewrite Nat.sub_0_r in He. congruence.
  - intros [H|[H _]]; [|discriminate]. injection H as <- <-.
    unfold IDA.name_in_use in Hu. rewrite existsb_app in Hu.
    apply orb_false_iff in Hu as [Hu _].
    simpl. split; [|split].
    + now rewrite (find_enum_new _ _ name) by auto.
    + rewrite nth_error_app2, Nat.sub_diag by lia. discriminate.
    + unfold IDA.members_of. simpl.
      rewrite nth_error_app2, Nat.sub_diag by lia. simpl.
      now rewrite (proj2 (nth_error_None _ _)) by lia.
Qed.

(** Setting the width keeps the names and the members. *)
Lemma set_enum_width_true db_a enum_id size db_b :
  IDA.set_enum_width db_a enum_id size = (true, db_b) ->
  existsb (Z.eqb size) IDA.valid_widths = true /\
  map IDA.enum_name (IDA.enums db_b) = map IDA.enum_name (IDA.enums db_a) /\
  (exists e, nth_error (IDA.enums db_b) enum_id = Some e /\
             IDA.enum_width e = size) /\
  IDA.members_of db_b enum_id = IDA.members_of db_a enum_id.
Proof.
  unfold IDA.set_enum_width.
  destruct (nth_error (IDA.enums db_a) enum_id) as [e|] eqn:He;
    [|discriminate].
  destruct (existsb (Z.eqb size) IDA.valid_widths); [|discriminate].
  intros [= <-]. split; [reflexivity|]. split; [|split].
  - now apply map_update_enum.
  - rewrite nth_error_update_enum, He. simpl. rewrite Nat.eqb_refl. eauto.
  - rewrite members_of_update_enum, He. unfold IDA.members_of.
    now rewrite He.
Qed.




Lemma find_none_filter {A} (p : A -> bool) l :
  find p l = None -> filter p l = [].
Proof.
  induction l as [|a l IH]; simpl; [reflexivity|].
  destruct (p a); [discriminate | exact IH].
Qed.

(** A change of an enum that keeps its name and its members keeps the names
    in use. *)
Lemma name_in_use_update_enum db enum_id f name :
  (forall e, IDA.enum_name (f e) = IDA.enum_name e) ->
  (forall e, IDA.enum_members (f e) = IDA.enum_members e) ->
  IDA.name_in_use (IDA.update_enum db enum_id f) name
  = IDA.name_in_use db name.
Proof.
  intros Hn Hm. unfold IDA.name_in_use, IDA.member_names.
  rewrite !flat_map_concat_map.
  rewrite (map_update_enum IDA.enum_name db enum_id f Hn).
  rewrite (map_update_enum (fun e => map fst (IDA.enum_members e)) db enum_id f)
    by (intro e; now rewrite Hm).
  reflexivity.
Qed.

(** A new enum takes its name, and no other one. *)
Lemma name_in_use_add_enum db enum_name name :
  IDA.name_in_use
    (IDA.with_enums db
       (IDA.enums db ++ [{| IDA.enum_name := enum_name; IDA.enum_width := 0;
                            IDA.enum_members := [] |}])) name
  = IDA.name_in_use db name || String.eqb name enum_name.
Proof.
  unfold IDA.name_in_use, IDA.member_names. simpl.
  rewrite map_app, flat_map_app. simpl.
  rewrite app_nil_r, !existsb_app. simpl.
  destruct (existsb (String.eqb name) (map IDA.enum_name (IDA.enums db)));
    destruct (existsb (String.eqb name)
                (flat_map (fun e => map fst (IDA.enum_members e))
                   (IDA.enums db)));
    destruct (existsb (String.eqb name) (map fst (IDA.names db)));
    destruct (String.eqb name enum_name); reflexivity.
Qed.



Lemma add_enums_prepare w enum_name :
  existsb (Z.eqb (Z.quot (HASHDB_ALGORITHM_SIZE (cfg w)) 8)) IDA.valid_widths
  = true ->
  IDA.name_in_use (idb w) enum_name = false \/
  IDA.get_enum (idb w) enum_name <> None ->
  exists enum_id db_b,
    (forall hash_list,
        add_enums enum_name hash_list 0 w
        = bind (insert_members enum_id hash_list)
            (fun r => match r with
                      | Some x => ret x
                      | None => ret (Some enum_id)
                      end)
            (with_idb w db_b)) /\
    IDA.get_enum db_b enum_name = Some enum_id /\
    nth_error (IDA.enums db_b) enum_id <> None /\
    IDA.members_of db_b enum_id = IDA.members_of (idb w) enum_id /\
    (IDA.get_enum (idb w) enum_name = Some enum_id \/
     IDA.members_of (idb w) enum_id = []) /\
    (forall id, IDA.get_enum (idb w) enum_name = Some id -> id = enum_id) /\
    (forall name,
        IDA.name_in_use (idb w) name = true ->
        IDA.name_in_use db_b name = true) /\
    IDA.journal db_b = IDA.journal (idb w).
Proof.
  intros Hvalid Henum.
  set (width := Z.quot (HASHDB_ALGORITHM_SIZE (cfg w)) 8) in *.
  assert (Hcreate :
            exists enum_id db_a,
              (IDA.add_enum (idb w) enum_name = (Some enum_id, db_a) \/
               (IDA.add_enum (idb w) enum_name = (None, db_a) /\
                IDA.get_enum db_a enum_name = Some enum_id)) /\
              (forall name,
                  IDA.name_in_use (idb w) name = true ->
                  IDA.name_in_use db_a name = true) /\
              (IDA.get_enum (idb w) enum_name = Some enum_id \/
               IDA.members_of (idb w) enum_id = []) /\
              (forall id, IDA.get_enum (idb w) enum_name = Some id ->
                          id = enum_id) /\
              IDA.journal db_a = IDA.journal (idb w)).
  { unfold IDA.add_enum.
    destruct (IDA.name_in_use (idb w) enum_name) eqn:Hu.
    - destruct Henum as [Hc|Hfound]; [discriminate|].
      destruct (IDA.get_enum (idb w) enum_name) as [id|] eqn:Hg;
        [|congruence].
      exists id, (idb w). split; [right; split; [reflexivity | exact Hg]|].
      split; [auto|]. split; [now left|]. split; [congruence | reflexivity].
    - eexists. eexists. split; [left; reflexivity|]. split; [|split; [|split]].
      + intros name Hname. now rewrite name_in_use_add_enum, Hname.
      + right. unfold IDA.members_of.
        now rewrite (proj2 (nth_error_None _ _)) by lia.
      + intros id Hid. unfold IDA.get_enum in Hid.
        rewrite (name_in_use_enum_name _ _ (find_enum_in_names _ _ _ _ Hid))
          in Hu.
        discriminate.
      + reflexivity. }
  destruct Hcreate as [enum_id [db_a [Hadd [Huse_a [Hwas [Hid Hjournal]]]]]].
  destruct (create_or_find _ _ _ _ Hadd) as [Hfind [Hnth Hmem]].
  set (db_b := IDA.update_enum db_a enum_id (fun e =>
                 {| IDA.enum_name := IDA.enum_name e;
                    IDA.enum_width := width;
                    IDA.enum_members := IDA.enum_members e |})).
  assert (Hset : IDA.set_enum_width db_a enum_id width = (true, db_b)).
  { unfold IDA.set_enum_width.
    destruct (nth_error (IDA.enums db_a) enum_id); [|congruence].
    now rewrite Hvalid. }
  destruct (set_enum_width_true _ _ _ _ Hset)
    as [_ [Hnames [[e [He _]] Hmem_b]]].
  exists enum_id, db_b.
  split; [|split; [|split; [|split; [|split; [|split; [|split]]]]]].
  - intro hash_list. unfold add_enums.
    unfold bind at 1. cbn [Z.eqb]. unfold bind at 1, global at 1, ret at 1.
    unfold bind at 1, host at 1.
    destruct Hadd as [Hadd|[Hadd Hg]]; rewrite Hadd.
    + unfold bind at 1, ret at 1.
      unfold bind at 1, host at 1. cbn [idb with_idb]. fold width.
      rewrite Hset. reflexivity.
    + unfold bind at 1, host_read at 1. cbn [idb with_idb]. rewrite Hg.
      unfold bind at 1, host at 1. cbn [idb with_idb]. fold width.
      rewrite Hset. reflexivity.
  - unfold IDA.get_enum.
    now rewrite (find_enum_shape _ (IDA.enums db_a)) by exact Hnames.
  - rewrite He. discriminate.
  - congruence.
  - exact Hwas.
  - exact Hid.
  - intros name Hname.
    unfold db_b. rewrite name_in_use_update_enum by reflexivity. auto.
  - exact Hjournal.
Qed.







(* ---------------------------------------------------------------------- *)
(** ** Which statements touch the lock, and which the database *)

Lemma bind_ret_inv {S A B} (m : M S A) (k : A -> M S B) s b s' :
  bind m k s = (Ret b, s') ->
  exists a s1, m s = (Ret a, s1) /\ k a s1 = (Ret b, s').
Proof.
  unfold bind. destruct (m s) as [[a|e|] s1]; try discriminate. eauto.
Qed.

Lemma stable_at {S A} (R : S -> S -> Prop) (m : M S A) s r s' :
  stable R m -> m s = (r, s') -> R s s'.
Proof. intros H Hm. specialize (H s). now rewrite Hm in H. Qed.

(** A primitive statement, by computation. *)
Ltac stable_leaf :=
  let w := fresh "w" in
  intro w; unfold same, lock_state;
  unfold msg, show, host, host_do, host_read, global, set_globals, modify,
    requests_send, r_json, print, print_json, lock_locked, default_timeout,
    chosen, item, dict_item,
    as_hash_list, as_scan_list, as_int, as_str, as_optional_str,
    as_optional_int, bind, ret, raise, lift, get;
  simpl;
  repeat match goal with
         | |- context [match ?x with _ => _ end] => destruct x; simpl
         end;
  reflexivity.

(** A statement built from the combinators of [Exec]. *)
Ltac stable_step :=
  lazymatch goal with
  | |- stable _ (bind _ _) => apply stable_bind; [|intro]
  | |- stable _ (ret _) => apply stable_ret
  | |- stable _ (raise _) => apply stable_raise
  | |- stable _ (lift _) => apply stable_lift
  | |- stable _ get => apply stable_get
  | |- stable _ (try_except _ _ _) => apply stable_try_except; [|intro]
  | |- stable _ (for_each _ _) => apply stable_for_each; intro
  | |- stable _ (execute_sync _ _) => apply stable_execute_sync
  | |- stable _ (match ?x with _ => _ end) => destruct x
  | |- stable _ (let '(_, _) := ?x in _) => destruct x
  | |- stable _ _ =>
      first [ assumption
            | match goal with H : forall _, stable _ _ |- _ => apply H end
            | solve [auto with stable nocore]
            | solve [stable_leaf] ]
  end.

Ltac stable_tac := repeat stable_step.

Create HintDb stable.

(** *** The lock *)

Lemma algorithm_rows_lock l : stable (same lock_state) (algorithm_rows l).
Proof. induction l; simpl; stable_tac. Qed.
#[local] Hint Resolve algorithm_rows_lock : stable.

Lemma get_algorithms_lock E u t :
  stable (same lock_state) (get_algorithms E u t).
Proof. unfold get_algorithms. stable_tac. Qed.

Lemma get_strings_from_hash_lock E a h x u t :
  stable (same lock_state) (get_strings_from_hash E a h x u t).
Proof. unfold get_strings_from_hash. stable_tac. Qed.

Lemma get_module_hashes_lock E m a p u t :
  stable (same lock_state) (get_module_hashes E m a p u t).
Proof. unfold get_module_hashes. stable_tac. Qed.

Lemma hunt_hash_lock E h u t : stable (same lock_state) (hunt_hash E h u t).
Proof. unfold hunt_hash. stable_tac. Qed.

Lemma set_algorithm_lock a s : stable (same lock_state) (set_algorithm a s).
Proof. unfold set_algorithm. stable_tac. Qed.

#[local] Hint Resolve get_algorithms_lock get_strings_from_hash_lock
  get_module_hashes_lock hunt_hash_lock set_algorithm_lock : stable.

Lemma hashdb_settings_t_show_lock E :
  stable (same lock_state) (hashdb_settings_t_show E).
Proof. unfold hashdb_settings_t_show. stable_tac. Qed.

Lemma match_select_t_show_lock E l :
  stable (same lock_state) (match_select_t_show E l).
Proof. unfold match_select_t_show. stable_tac. Qed.

Lemma api_import_select_t_show_lock E s l :
  stable (same lock_state) (api_import_select_t_show E s l).
Proof. unfold api_import_select_t_show. stable_tac. Qed.

Lemma hunt_result_form_t_show_lock E l :
  stable (same lock_state) (hunt_result_form_t_show E l).
Proof. unfold hunt_result_form_t_show. stable_tac. Qed.

#[local] Hint Resolve hashdb_settings_t_show_lock match_select_t_show_lock
  api_import_select_t_show_lock hunt_result_form_t_show_lock : stable.

Lemma insert_attempt_lock i n v k :
  stable (same lock_state) (insert_attempt i n v k).
Proof. unfold insert_attempt. stable_tac. Qed.
#[local] Hint Resolve insert_attempt_lock : stable.

Lemma add_enums_lock n l s : stable (same lock_state) (add_enums n l s).
Proof.
  unfold add_enums, insert_members, insert_member. stable_tac.
Qed.
#[local] Hint Resolve add_enums_lock : stable.

Lemma add_enums_sync_lock l : stable (same lock_state) (add_enums_sync l).
Proof. unfold add_enums_sync, generate_enum_name. stable_tac. Qed.

Lemma choose_match_lock E l : stable (same lock_state) (choose_match E l).
Proof. unfold choose_match. stable_tac. Qed.

Lemma make_const_enum_lock E i h :
  stable (same lock_state) (make_const_enum E i h).
Proof. unfold make_const_enum. stable_tac. Qed.

Lemma set_name_lock ea n : stable (same lock_state) (set_name ea n).
Proof.
  unfold set_name. destruct (String.eqb n ""); [stable_tac|].
  intro w. unfold same. destruct (free_suffix _ _ _ _ _); reflexivity.
Qed.

Lemma convert_data_to_integer_lock ea s :
  stable (same lock_state) (convert_data_to_integer ea s).
Proof. unfold convert_data_to_integer. stable_tac. Qed.

#[local] Hint Resolve add_enums_sync_lock choose_match_lock
  make_const_enum_lock set_name_lock convert_data_to_integer_lock : stable.

Lemma convert_entry_lock e i n : stable (same lock_state) (convert_entry e i n).
Proof. unfold convert_entry. stable_tac. Qed.

Lemma hash_lookup_done_handler_lock E a b :
  stable (same lock_state) (hash_lookup_done_handler E a b).
Proof. unfold hash_lookup_done_handler. stable_tac. Qed.

#[local] Hint Resolve convert_entry_lock hash_lookup_done_handler_lock : stable.

Lemma hash_lookup_request_lock E args :
  stable (same lock_state) (hash_lookup_request E args).
Proof. unfold hash_lookup_request. stable_tac. Qed.

Lemma hash_scan_queries_lock E l u a x t :
  stable (same lock_state) (hash_scan_queries E l u a x t).
Proof. induction l; simpl; stable_tac. Qed.
#[local] Hint Resolve hash_scan_queries_lock : stable.

Lemma hash_scan_request_lock E args :
  stable (same lock_state) (hash_scan_request E args).
Proof. unfold hash_scan_request. stable_tac. Qed.

Lemma hunt_algorithm_request_lock E args :
  stable (same lock_state) (hunt_algorithm_request E args).
Proof. unfold hunt_algorithm_request. stable_tac. Qed.

#[local] Hint Resolve hash_lookup_request_lock hash_scan_request_lock
  hunt_algorithm_request_lock : stable.

(** *** The database *)

Lemma get_strings_from_hash_idb E a h x u t :
  stable (same idb) (get_strings_from_hash E a h x u t).
Proof. unfold get_strings_from_hash. stable_tac. Qed.
#[local] Hint Resolve get_strings_from_hash_idb : stable.

Lemma hash_scan_queries_idb E l u a x t :
  stable (same idb) (hash_scan_queries E l u a x t).
Proof. induction l; simpl; stable_tac. Qed.
#[local] Hint Resolve hash_scan_queries_idb : stable.

Lemma hash_scan_request_idb E args :
  stable (same idb) (hash_scan_request E args).
Proof. unfold hash_scan_request. stable_tac. Qed.

Lemma hash_lookup_request_idb E args :
  stable (same idb) (hash_lookup_request E args).
Proof. unfold hash_lookup_request. stable_tac. Qed.

Lemma lock_release_idb : stable (same idb) lock_release.
Proof. intro w. unfold same, lock_release. now destruct (locked w). Qed.
#[local] Hint Resolve lock_release_idb : stable.

Lemma hash_scan_error_idb e : stable (same idb) (hash_scan_error e).
Proof. unfold hash_scan_error. stable_tac. Qed.

(** *** The lock in the callbacks *)

Lemma lock_release_ret w r w' :
  lock_release w = (Ret r, w') -> locked w = true /\ released_once w w'.
Proof.
  unfold lock_release. destruct (locked w); [|discriminate].
  intros [= <- <-]. repeat split.
Qed.

Lemma released_once_after w w1 w' :
  same lock_state w w1 -> released_once w1 w' -> released_once w w'.
Proof.
  unfold same, lock_state, released_once. intros Hs [? [? ?]].
  injection Hs as ? ? ?. repeat split; congruence.
Qed.

Lemma released_once_before w w1 w' :
  released_once w w1 -> same lock_state w1 w' -> released_once w w'.
Proof.
  unfold same, lock_state, released_once. intros [? [? ?]] Hs.
  injection Hs as ? ? ?. repeat split; congruence.
Qed.

(** A statement with a prefix that leaves the lock alone, then a
    release. *)
Lemma then_release {A} (m : M world A) w r w' :
  stable (same lock_state) m ->
  bind m (fun _ => lock_release) w = (Ret r, w') ->
  released_once w w'.
Proof.
  intros Hm H. apply bind_ret_inv in H as [a [w1 [H1 H2]]].
  apply lock_release_ret in H2 as [_ H2].
  eapply released_once_after; [eapply stable_at; eauto | exact H2].
Qed.

Lemma hash_lookup_done_releases E args w r w' :
  hash_lookup_done E args w = (Ret r, w') -> released_once w w'.
Proof.
  unfold hash_lookup_done.
  destruct args as [|a [|b [|c l]]]; try discriminate;
    apply then_release; auto with stable.
Qed.

Lemma error_callbacks_release f e w r w' :
  Worker.call (error_callable f) e w = (Ret r, w') -> released_once w w'.
Proof.
  destruct f; simpl;
    unfold hash_lookup_error, hash_scan_error, hunt_algorithm_error;
    apply then_release; stable_tac.
Qed.

Lemma hunt_algorithm_done_releases E args w r w' :
  hunt_algorithm_done E args w = (Ret r, w') -> released_once w w'.
Proof.
  unfold hunt_algorithm_done. intros H.
  apply bind_ret_inv in H as [response [w1 [H1 H2]]].
  assert (w1 = w) as ->.
  { destruct args as [|a [|b l]]; try discriminate; now injection H1. }
  revert H2. apply then_release. stable_tac.
Qed.

(** One round of the loop of [hash_scan_done]: it goes on with the lock
    untouched, or it has released the lock and returns. *)
Lemma hash_scan_done_entry_lock E convert_values hash_entry w f w' :
  hash_scan_done_entry E convert_values hash_entry w = (Ret f, w') ->
  match f with
  | Return _ => released_once w w'
  | _ => same lock_state w w'
  end.
Proof.
  unfold hash_scan_done_entry.
  destruct (se_hashes hash_entry) as [[|h hs]|]; [| |discriminate].
  - intros H. apply bind_ret_inv in H as [a [w1 [H1 H2]]].
    injection H2 as <- <-.
    eapply stable_at; [|exact H1]. stable_tac.
  - intros H. apply bind_ret_inv in H as [chosen_match [w1 [H1 H2]]].
    pose proof (stable_at _ _ _ _ _ (choose_match_lock E (h :: hs)) H1) as S1.
    destruct chosen_match as [hash_string_object|].
    + apply bind_ret_inv in H2 as [enum_id [w2 [H2 H3]]].
      pose proof (stable_at _ _ _ _ _ (add_enums_sync_lock _) H2) as S2.
      destruct enum_id as [enum_id|].
      * destruct convert_values.
        -- apply bind_ret_inv in H3 as [u [w3 [H3 H4]]].
           injection H4 as <- <-.
           pose proof (stable_at _ _ _ _ _ (convert_entry_lock _ _ _) H3) as S3.
           unfold same in *. congruence.
        -- injection H3 as <- <-. unfold same in *. congruence.
      * apply bind_ret_inv in H3 as [u [w3 [H3 H4]]].
        apply bind_ret_inv in H4 as [u' [w4 [H4 H5]]].
        injection H5 as <- <-.
        apply lock_release_ret in H4 as [_ H4].
        eapply released_once_after; [|exact H4].
        assert (S3 : same lock_state w2 w3)
          by (eapply stable_at; [|exact H3]; stable_tac).
        unfold same in *. congruence.
    + apply bind_ret_inv in H2 as [u [w2 [H2 H3]]].
      injection H3 as <- <-.
      apply lock_release_ret in H2 as [_ H2].
      eapply released_once_after; eauto.
Qed.

Lemma hash_scan_done_loop_lock E convert_values entries : forall w f w',
  for_each entries (hash_scan_done_entry E convert_values) w = (Ret f, w') ->
  match f with
  | Some _ => released_once w w'
  | None => same lock_state w w'
  end.
Proof.
  induction entries as [|e entries IH]; intros w f w' H; simpl in H.
  - injection H as <- <-. reflexivity.
  - apply bind_ret_inv in H as [fl [w1 [H1 H2]]].
    apply hash_scan_done_entry_lock in H1.
    destruct fl as [| |u].
    + apply IH in H2. destruct f.
      * eapply released_once_after; eauto.
      * unfold same in *. congruence.
    + injection H2 as <- <-. exact H1.
    + injection H2 as <- <-. exact H1.
Qed.

Lemma hash_scan_done_releases E args w r w' :
  hash_scan_done E args w = (Ret r, w') -> released_once w w'.
Proof.
  unfold hash_scan_done. intros H.
  apply bind_ret_inv in H as [[convert_values hash_list] [w1 [H1 H2]]].
  assert (w1 = w) as ->.
  { destruct args as [|a [|b [|c l]]]; try discriminate; now injection H1. }
  assert (Hloop : forall entries,
             bind (for_each entries
                     (hash_scan_done_entry E (truthy convert_values)))
               (fun returned =>
                  match returned with
                  | Some _ => ret tt
                  | None => lock_release
                  end) w = (Ret r, w') -> released_once w w').
  { intros entries H. apply bind_ret_inv in H as [f [w2 [H3 H4]]].
    apply hash_scan_done_loop_lock in H3. destruct f.
    - injection H4 as <- <-. exact H3.
    - apply lock_release_ret in H4 as [_ H4].
      eapply released_once_after; eauto. }
  destruct hash_list as [|b|z|s|h|e|l|l]; try discriminate.
  - apply lock_release_ret in H2 as [_ H2]. exact H2.
  - apply bind_ret_inv in H2 as [entries [w2 [H2 H3]]].
    unfold as_scan_list in H2.
    destruct (scan_entries l); [|discriminate].
    injection H2 as <- <-. now apply (Hloop _ H3).
Qed.

Lemma done_callbacks_release E f args w r w' :
  Worker.call (done_callable E f) args w = (Ret r, w') -> released_once w w'.
Proof.
  destruct f; simpl;
    eauto using hash_lookup_done_releases, hash_scan_done_releases,
      hunt_algorithm_done_releases.
Qed.

(* ---------------------------------------------------------------------- *)
(** ** The single-flight gate *)

Lemma worker_of_ret E th :
  exists worker,
    worker_of E th = Ret worker /\
    Worker._target worker = target_callable E (th_target th) /\
    Worker._args worker = th_args th /\
    Worker.__done_callback worker
    = option_map (done_callable E) (th_done_callback th) /\
    Worker.__error_callback worker
    = option_map error_callable (th_error_callback th).
Proof.
  unfold worker_of, Worker.start, Worker.init. simpl.
  destruct (th_done_callback th), (th_error_callback th); simpl;
    eexists; repeat split.
Qed.

(** A thread with both callbacks that ends normally has run a callback to
    its end, and leaves the lock free. *)
Lemma run_thread_frees_lock E th w rep w' :
  run_thread E th w = (rep, w') ->
  th_done_callback th <> None ->
  th_error_callback th <> None ->
  Worker.outcome rep = Ret tt ->
  locked w' = false /\ Worker.invoked rep <> [].
Proof.
  unfold run_thread.
  destruct (worker_of_ret E th) as [worker [-> [Ht [Ha [Hd He]]]]].
  unfold Worker.run. rewrite Ht.
  cbn [Worker.iscoroutinefunction target_callable].
  unfold Worker.__async_wrapper, Worker.run_until_complete,
    Worker.on_exception.
  rewrite Ht, Ha, Hd, He.
  destruct (th_done_callback th) as [f|]; [|now intros _ H].
  destruct (th_error_callback th) as [g|]; [|now intros _ _ H].
  cbn [option_map]. intros H _ _. revert H.
  destruct (Worker.call (target_callable E (th_target th)) (th_args th) w)
    as [[result|e|] w1].
  - destruct (Worker.call (done_callable E f) (Worker.normalize result) w1)
      as [[u|e|] w2] eqn:Hdone.
    + intros [= <- <-] _.
      apply done_callbacks_release in Hdone. split; [apply Hdone|discriminate].
    + destruct (Worker.expected_async e);
        [|intros [= <- <-]; discriminate].
      destruct (Worker.call (error_callable g) e w2) as [[u|e'|] w3] eqn:Herr;
        intros [= <- <-]; try discriminate.
      intros _. apply error_callbacks_release in Herr.
      split; [apply Herr|discriminate].
    + intros [= <- <-]; discriminate.
  - destruct (Worker.expected_async e); [|intros [= <- <-]; discriminate].
    destruct (Worker.call (error_callable g) e w1) as [[u|e'|] w2] eqn:Herr;
      intros [= <- <-]; try discriminate.
    intros _. apply error_callbacks_release in Herr.
    split; [apply Herr|discriminate].
  - intros [= <- <-]; discriminate.
Qed.

Lemma start_worker_run E th w :
  start_worker E th w = (Ret tt, with_threads w (threads w ++ [th])).
Proof.
  unfold start_worker.
  destruct (worker_of_ret E th) as [worker [-> _]]. reflexivity.
Qed.

(** An entry point that finds the lock held shows the notice and
    returns. *)
Lemma entry_points_rejected E convert_values w :
  locked w = true ->
  hash_lookup E w = (Ret tt, rejected w) /\
  hash_scan E convert_values w = (Ret tt, rejected w) /\
  hunt_algorithm E w = (Ret tt, rejected w).
Proof.
  intros H.
  unfold hash_lookup, hash_scan, hunt_algorithm, bind, lock_locked.
  rewrite H. repeat split.
Qed.

Lemma hash_lookup_launches E w algorithm hash_value :
  locked w = false ->
  HASHDB_ALGORITHM (cfg w) = Some algorithm ->
  parse_highlighted_value (get_highlight E) = Ret (Some hash_value) ->
  exists w',
    hash_lookup E w = (Ret tt, w') /\
    launched
      (lookup_thread (cfg w) hash_value (HASHDB_REQUEST_TIMEOUT (cfg w))) w w'.
Proof.
  intros Hl Ha Hp.
  unfold hash_lookup, hash_lookup_run, select_algorithm_first,
    parse_highlight, lock_locked, lock_acquire, bind, msg, modify, global,
    lift, ret.
  repeat (first [rewrite Hl | rewrite Ha | rewrite Hp]; simpl).
  eexists. split; [reflexivity|].
  repeat split.
Qed.

Lemma hunt_algorithm_launches E w hash_value :
  locked w = false ->
  parse_highlighted_value (get_highlight E) = Ret (Some hash_value) ->
  exists w',
    hunt_algorithm E w = (Ret tt, w') /\
    launched
      (hunt_thread
         (if HASHDB_USE_XOR (cfg w)
          then Z.lxor hash_value (HASHDB_XOR_VALUE (cfg w))
          else hash_value)
         (HASHDB_REQUEST_TIMEOUT (cfg w))) w w'.
Proof.
  intros Hl Hp.
  unfold hunt_algorithm, hunt_algorithm_run, parse_highlight, lock_locked,
    lock_acquire, bind, msg, modify, global, lift, ret.
  repeat (first [rewrite Hl | rewrite Hp]; simpl).
  eexists. split; [reflexivity|].
  repeat split.
Qed.

(** Reading a location gives a size of at least one byte, with the default
    sizes that the scan uses. *)
Lemma read_integer_from_db_ok E ea default_size :
  default_size = 0 \/ default_size = 4 \/ default_size = 8 ->
  exists hash_value step_size typed,
    read_integer_from_db E ea default_size
    = Ret (hash_value, step_size, typed) /\ 1 <= step_size.
Proof.
  intros Hd. unfold read_integer_from_db, determine_highlighted_type_size.
  destruct (String.eqb (idc_guess_type E ea) "__int64");
    [simpl; eexists _, _, _; split; [reflexivity|lia]|].
  destruct (String.eqb (idc_guess_type E ea) "int");
    [simpl; eexists _, _, _; split; [reflexivity|lia]|].
  destruct (String.eqb (idc_guess_type E ea) "__int16");
    [simpl; eexists _, _, _; split; [reflexivity|lia]|].
  destruct (String.eqb (idc_guess_type E ea) "char");
    [simpl; eexists _, _, _; split; [reflexivity|lia]|].
  destruct Hd as [->|[->| ->]]; simpl;
    eexists _, _, _; (split; [reflexivity|lia]).
Qed.

(** The loop of [scan_range] ends within the rounds it is given. *)
Lemma scan_range_total fuel : forall E convert_values size ea end_,
  size = 32 \/ size = 64 ->
  end_ - ea <= Z.of_nat fuel ->
  exists hash_values,
    scan_range fuel E convert_values size ea end_ = Ret hash_values.
Proof.
  induction fuel as [|fuel IH]; intros E convert_values size ea end_ Hs Hf;
    simpl; destruct (Z.ltb_spec ea end_) as [Hlt|Hge]; eauto; [lia|].
  destruct (read_integer_from_db_ok E ea 0) as [v [s [typed [-> Hs1]]]];
    [auto|].
  assert (Hd : Z.quot size 8 = 0 \/ Z.quot size 8 = 4 \/ Z.quot size 8 = 8)
    by (destruct Hs as [-> | ->]; vm_compute; auto).
  destruct (read_integer_from_db_ok E ea (Z.quot size 8) Hd)
    as [v2 [s2 [typed2 [Hr2 Hs2]]]].
  destruct (convert_values && negb typed).
  - rewrite Hr2.
    destruct (IH E convert_values size (ea + s2) end_ Hs) as [l ->];
      [lia | eauto].
  - destruct (IH E convert_values size (ea + s) end_ Hs) as [l ->];
      [lia | eauto].
Qed.

Lemma found_messages {X} (l : list X) text w :
  for_each l
    (fun (_ : X) (s : world) =>
       (Ret (@Continue unit), with_output s (output s ++ [Msg text]))) w
  = (Ret None,
     with_output w (output w ++ map (fun _ => Msg text) l)).
Proof.
  revert w; induction l as [|x l IH]; intros w; simpl.
  - rewrite app_nil_r. now destruct w.
  - unfold bind. rewrite IH. simpl. now rewrite <- app_assoc.
Qed.

Lemma hash_scan_launches E convert_values w algorithm :
  locked w = false ->
  viewer_at_idaplace E = true ->
  HASHDB_ALGORITHM (cfg w) = Some algorithm ->
  HASHDB_ALGORITHM_SIZE (cfg w) = 32 \/ HASHDB_ALGORITHM_SIZE (cfg w) = 64 ->
  exists hash_list w',
    hash_scan E convert_values w = (Ret tt, w') /\
    launched
      (scan_thread (cfg w) convert_values hash_list
         (HASHDB_REQUEST_TIMEOUT (cfg w))) w w'.
Proof.
  intros Hl Hv Ha Hs.
  assert (Hsz : negb (HASHDB_ALGORITHM_SIZE (cfg w) =? 32)
                && negb (HASHDB_ALGORITHM_SIZE (cfg w) =? 64) = false)
    by (destruct Hs as [-> | ->]; reflexivity).
  unfold hash_scan, hash_scan_run, select_algorithm_first, lock_locked,
    lock_acquire, bind, msg, modify, global, lift, ret.
  rewrite Hl, Hv. simpl. rewrite Hl. simpl.
  destruct ((read_selection_start E =? IDA.BADADDR)
            || (read_selection_end E =? IDA.BADADDR));
    repeat (simpl; first [rewrite Ha | rewrite Hsz]); simpl.
  all: match goal with
       | |- context [scan_range ?f ?E' ?c ?s ?a ?b] =>
           destruct (scan_range_total f E' c s a b Hs) as [l Hr];
             [lia | rewrite Hr; simpl]
       end.
  all: rewrite found_messages; simpl; exists l; eexists;
    (split; [reflexivity | repeat split]).
Qed.

(** A conjunction of closed equations, each checked by evaluation. *)
Ltac by_computation :=
  repeat match goal with |- _ /\ _ => split end; vm_compute; reflexivity.

(** C3.  While the request lock is held, each of the three entry points
    shows the notice and returns: the world it leaves differs from the one
    it found by that notice only, so no thread is started, no request is
    sent, no callback runs and the lock and its counters stay as they
    were.  A thread with both callbacks that ends normally leaves the lock
    free; and on a free lock each entry point acquires the lock and starts
    its worker (given a configured algorithm and a readable selection). *)
Theorem C3_single_flight :
  (forall E convert_values w,
      locked w = true ->
      hash_lookup E w = (Ret tt, rejected w) /\
      hash_scan E convert_values w = (Ret tt, rejected w) /\
      hunt_algorithm E w = (Ret tt, rejected w)) /\
  (forall w,
      threads (rejected w) = threads w /\ sent (rejected w) = sent w /\
      idb (rejected w) = idb w /\ cfg (rejected w) = cfg w /\
      lock_state (rejected w) = lock_state w) /\
  (forall E th w rep w',
      run_thread E th w = (rep, w') ->
      th_done_callback th <> None ->
      th_error_callback th <> None ->
      Worker.outcome rep = Ret tt ->
      locked w' = false /\ Worker.invoked rep <> []) /\
  (forall E w algorithm hash_value,
      locked w = false ->
      HASHDB_ALGORITHM (cfg w) = Some algorithm ->
      parse_highlighted_value (get_highlight E) = Ret (Some hash_value) ->
      exists w',
        hash_lookup E w = (Ret tt, w') /\
        launched
          (lookup_thread (cfg w) hash_value (HASHDB_REQUEST_TIMEOUT (cfg w)))
          w w') /\
  (forall E convert_values w algorithm,
      locked w = false ->
      viewer_at_idaplace E = true ->
      HASHDB_ALGORITHM (cfg w) = Some algorithm ->
      HASHDB_ALGORITHM_SIZE (cfg w) = 32 \/
      HASHDB_ALGORITHM_SIZE (cfg w) = 64 ->
      exists hash_list w',
        hash_scan E convert_values w = (Ret tt, w') /\
        launched
          (scan_thread (cfg w) convert_values hash_list
             (HASHDB_REQUEST_TIMEOUT (cfg w))) w w') /\
  (forall E w hash_value,
      locked w = false ->
      parse_highlighted_value (get_highlight E) = Ret (Some hash_value) ->
      exists w',
        hunt_algorithm E w = (Ret tt, w') /\
        launched
          (hunt_thread
             (if HASHDB_USE_XOR (cfg w)
              then Z.lxor hash_value (HASHDB_XOR_VALUE (cfg w))
              else hash_value)
             (HASHDB_REQUEST_TIMEOUT (cfg w))) w w').
Proof.
  split; [exact entry_points_rejected|].
  split; [intros w; repeat split|].
  split; [exact run_thread_frees_lock|].
  split; [exact hash_lookup_launches|].
  split; [exact hash_scan_launches | exact hunt_algorithm_launches].
Qed.

(** C3 at work: a lookup is in flight, a second lookup is rejected; the
    worker of the first runs to the end of its done callback; a third
    lookup is launched. *)
Lemma C3_single_flight_witness :
  hash_lookup one_match_env (snd (hash_lookup one_match_env crc32_world))
  = (Ret tt, rejected (snd (hash_lookup one_match_env crc32_world))) /\
  locked lookup_undisturbed = false /\
  exists w',
    hash_lookup one_match_env lookup_undisturbed = (Ret tt, w') /\
    launched (lookup_thread crc32_config 0xE40E9BD 15) lookup_undisturbed w'.
Proof.
  destruct C3_single_flight as [Hrej [_ [Hfree [Hlaunch _]]]].
  split; [|split].
  - apply (Hrej one_match_env true
             (snd (hash_lookup one_match_env crc32_world))).
    vm_compute; reflexivity.
  - apply (Hfree one_match_env
             (lookup_thread crc32_config 0xE40E9BD 15)
             (with_threads (snd (hash_lookup one_match_env crc32_world)) [])
             (fst (after_lookup one_match_env crc32_world))
             lookup_undisturbed).
    + vm_compute; reflexivity.
    + discriminate.
    + discriminate.
    + vm_compute; reflexivity.
  - apply (Hlaunch one_match_env lookup_undisturbed "crc32" 0xE40E9BD).
    + vm_compute; reflexivity.
    + vm_compute; reflexivity.
    + vm_compute; reflexivity.
Defined.

(** C2, the failing input: the lookup of an API hash whose bulk import is
    answered with status 500.  The entry point acquires the lock, the done
    callback runs, [get_module_hashes] raises [HashDBError] inside it, the
    exception leaves the thread, and the lock stays held with no release
    counted: the next lookup is rejected. *)
Theorem C2_lock_leaks_when_import_fails :
  Worker.outcome (fst (after_lookup import_fails_env crc32_world))
  = Raise HashDBError /\
  Worker.invoked (fst (after_lookup import_fails_env crc32_world))
  = [Worker.onDone] /\
  lock_state (snd (after_lookup import_fails_env crc32_world))
  = (true, 1%nat, 0%nat) /\
  threads (snd (after_lookup import_fails_env crc32_world)) = [] /\
  hash_lookup import_fails_env (snd (after_lookup import_fails_env crc32_world))
  = (Ret tt, rejected (snd (after_lookup import_fails_env crc32_world))).
Proof. by_computation. Qed.

(** C8, the failing input: a hunt with two candidates that are both in the
    catalog.  The request returns the list of the two rows, the wrapper
    unpacks it into two arguments, the call of [hunt_algorithm_done] raises
    [TypeError]: no form is shown, and the lock stays held. *)
Theorem C8_two_candidates_are_not_presented :
  hunt_algorithm_request (hunt_env ["crc32"; "ror13_add"])
    [VInt 0xE40E9BD; VInt 15]
    (with_threads
       (snd (hunt_algorithm (hunt_env ["crc32"; "ror13_add"]) initial_world))
       [])
  = (Ret (VList [VList [VStr "crc32"; VStr "32"];
                 VList [VStr "ror13_add"; VStr "32"]]),
     with_sent
       (with_threads
          (snd (hunt_algorithm (hunt_env ["crc32"; "ror13_add"])
                  initial_world)) [])
       [POST "https://hashdb.openanalysis.net/hunt" [0xE40E9BD] 15;
        GET "https://hashdb.openanalysis.net/hash" 15]) /\
  Worker.outcome
    (fst (after_hunt (hunt_env ["crc32"; "ror13_add"]) initial_world))
  = Raise TypeError /\
  output (snd (after_hunt (hunt_env ["crc32"; "ror13_add"]) initial_world))
  = [Msg "HashDB: Hunting for a hash algorithm, please wait!"] /\
  lock_state (snd (after_hunt (hunt_env ["crc32"; "ror13_add"]) initial_world))
  = (true, 1%nat, 0%nat).
Proof. by_computation. Qed.

(** The parts of C8 that hold: one candidate is presented with its width;
    no candidate is reported by a message, and the active algorithm and
    its size stay as they were. *)
Lemma hunt_with_one_or_no_candidate :
  output (snd (after_hunt (hunt_env ["crc32"]) initial_world))
  = [Msg "HashDB: Hunting for a hash algorithm, please wait!";
     HuntResultForm [VList [VStr "crc32"; VStr "32"]]
       "The following algorithms contain a matching hash."] /\
  fst (after_hunt (hunt_env []) initial_world)
  = {| Worker.outcome := Ret tt; Worker.invoked := [Worker.onDone] |} /\
  output (snd (after_hunt (hunt_env []) initial_world))
  = [Msg "HashDB: Hunting for a hash algorithm, please wait!";
     Msg "HashDB: Couldn't find any algorithms that match the provided hash."]
  /\
  cfg (snd (after_hunt (hunt_env []) initial_world)) = cfg initial_world.
Proof. by_computation. Qed.

(* ---------------------------------------------------------------------- *)
(** ** A scan in which a query fails *)

Lemma run_thread_done E th w f result w1 u w2 :
  th_done_callback th = Some f ->
  Worker.call (target_callable E (th_target th)) (th_args th) w
  = (Ret result, w1) ->
  Worker.call (done_callable E f) (Worker.normalize result) w1 = (Ret u, w2) ->
  run_thread E th w
  = ({| Worker.outcome := Ret tt; Worker.invoked := [Worker.onDone] |}, w2).
Proof.
  intros Hf Htarget Hdone. unfold run_thread.
  destruct (worker_of_ret E th) as [worker [-> [Ht [Ha [Hd He]]]]].
  unfold Worker.run. rewrite Ht.
  cbn [Worker.iscoroutinefunction target_callable].
  unfold Worker.__async_wrapper, Worker.run_until_complete.
  rewrite Ht, Ha, Hd, Htarget, Hf. cbn [option_map]. now rewrite Hdone.
Qed.

Lemma run_thread_raises E th w e w1 :
  Worker.call (target_callable E (th_target th)) (th_args th) w
  = (Raise e, w1) ->
  Worker.expected_async e = false ->
  run_thread E th w
  = ({| Worker.outcome := Raise e; Worker.invoked := [] |}, w1).
Proof.
  intros Htarget Hexp. unfold run_thread.
  destruct (worker_of_ret E th) as [worker [-> [Ht [Ha [Hd He]]]]].
  unfold Worker.run. rewrite Ht.
  cbn [Worker.iscoroutinefunction target_callable].
  unfold Worker.__async_wrapper, Worker.run_until_complete,
    Worker.on_exception.
  now rewrite Ht, Ha, Htarget, Hexp.
Qed.

Lemma try_query_answered E algorithm hash_value xor_value api_url timeout w :
  answered E (List.length (sent w)) ->
  exists hashes w1,
    try_except
      (bind (get_strings_from_hash E algorithm hash_value xor_value api_url
               timeout) (fun r => ret (Some r)))
      (exn_eqb RequestsTimeout)
      (fun _ =>
         bind (msg "ERROR: HashDB API lookup scan request timed out.")
           (fun _ => ret None)) w
    = (Ret (Some hashes), w1) /\
    List.length (sent w1) = S (List.length (sent w)).
Proof.
  intros [sc [js [Hs [Hok Hwf]]]].
  unfold try_except, bind at 1.
  rewrite get_strings_from_hash_run. cbv zeta. rewrite Hs, Hok.
  destruct (strip_all_total _ Hwf) as [out ->].
  eexists _, _. split; [reflexivity|].
  simpl. rewrite length_app. simpl. lia.
Qed.

Lemma try_query_times_out E algorithm hash_value xor_value api_url timeout w :
  times_out E (List.length (sent w)) ->
  exists w1,
    try_except
      (bind (get_strings_from_hash E algorithm hash_value xor_value api_url
               timeout) (fun r => ret (Some r)))
      (exn_eqb RequestsTimeout)
      (fun _ =>
         bind (msg "ERROR: HashDB API lookup scan request timed out.")
           (fun _ => ret None)) w
    = (Ret None, w1) /\
    List.length (sent w1) = S (List.length (sent w)).
Proof.
  intros Ht. unfold try_except, bind at 1.
  rewrite get_strings_from_hash_run. cbv zeta. rewrite Ht.
  eexists. split; [reflexivity|].
  simpl. rewrite length_app. simpl. lia.
Qed.

(** When the query of rank [k] of a scan times out after [k] queries that
    were answered, the loop of [hash_scan_request] stops there: it sends
    [k + 1] requests and returns [None]. *)
Lemma hash_scan_queries_time_out E api_url algorithm xor_value timeout :
  forall hash_list w k,
    (k < List.length hash_list)%nat ->
    (forall i, (i < k)%nat -> answered E (List.length (sent w) + i)) ->
    times_out E (List.length (sent w) + k) ->
    exists w1,
      hash_scan_queries E hash_list api_url algorithm xor_value timeout w
      = (Ret None, w1) /\
      List.length (sent w1) = (List.length (sent w) + S k)%nat.
Proof.
  induction hash_list as [|hash_entry rest IH]; intros w k Hk Hans Hout;
    simpl in Hk; [lia|].
  simpl. unfold bind at 1.
  destruct k as [|k].
  - rewrite Nat.add_0_r in Hout.
    destruct (try_query_times_out E algorithm (se_hash_value hash_entry)
                (match xor_value with Some x => x | None => 0 end)
                api_url timeout w Hout) as [w1 [-> Hlen]].
    exists w1. split; [reflexivity | lia].
  - assert (H0 : answered E (List.length (sent w)))
      by (rewrite <- (Nat.add_0_r (List.length (sent w))); apply Hans; lia).
    destruct (try_query_answered E algorithm (se_hash_value hash_entry)
                (match xor_value with Some x => x | None => 0 end)
                api_url timeout w H0) as [hashes [w1 [-> Hlen]]].
    destruct (IH w1 k) as [w2 [Hrest Hlen2]].
    + lia.
    + intros i Hi. rewrite Hlen.
      replace (S (List.length (sent w)) + i)%nat
        with (List.length (sent w) + S i)%nat by lia.
      apply Hans. lia.
    + rewrite Hlen.
      replace (S (List.length (sent w)) + k)%nat
        with (List.length (sent w) + S k)%nat by lia.
      exact Hout.
    + unfold bind at 1. rewrite Hrest. exists w2.
      split; [reflexivity | lia].
Qed.

Lemma scan_entries_map l : scan_entries (map VEntry l) = Some l.
Proof. induction l as [|e l IH]; simpl; [reflexivity | now rewrite IH]. Qed.

Lemma hash_scan_request_time_out E c convert_values hash_list timeout w k :
  (k < List.length hash_list)%nat ->
  (forall i, (i < k)%nat -> answered E (List.length (sent w) + i)) ->
  times_out E (List.length (sent w) + k) ->
  exists w1,
    hash_scan_request E
      (th_args (scan_thread c convert_values hash_list timeout)) w
    = (Ret VNone, w1) /\
    List.length (sent w1) = (List.length (sent w) + S k)%nat.
Proof.
  intros Hk Hans Hout.
  destruct (hash_scan_queries_time_out E (HASHDB_API_URL c)
              (HASHDB_ALGORITHM c)
              (if HASHDB_USE_XOR c then Some (HASHDB_XOR_VALUE c) else None)
              (Some timeout) hash_list w k Hk Hans Hout) as [w1 [Hq Hlen]].
  exists w1. split; [|exact Hlen].
  unfold hash_scan_request, scan_thread, th_args, as_scan_list.
  rewrite scan_entries_map.
  unfold xor_argument, optional_str.
  destruct (HASHDB_ALGORITHM c), (HASHDB_USE_XOR c);
    unfold bind, ret, as_str, as_optional_str, as_optional_int, as_int in *;
    simpl; rewrite Hq; reflexivity.
Qed.

Lemma breaks_unexpected E n e :
  breaks E n e -> Worker.expected_async e = false /\ exn_eqb RequestsTimeout e = false.
Proof.
  intro H. specialize (H (GET "" 0)).
  destruct (service E n (GET "" 0)) as [| |sc js|sc].
  - destruct H.
  - subst. split; reflexivity.
  - destruct H as [_ ->]. split; reflexivity.
  - subst. destruct (ok sc); split; reflexivity.
Qed.

Lemma try_query_breaks E algorithm hash_value xor_value api_url timeout w e :
  breaks E (List.length (sent w)) e ->
  exists w1,
    try_except
      (bind (get_strings_from_hash E algorithm hash_value xor_value api_url
               timeout) (fun r => ret (Some r)))
      (exn_eqb RequestsTimeout)
      (fun _ =>
         bind (msg "ERROR: HashDB API lookup scan request timed out.")
           (fun _ => ret None)) w
    = (Raise e, w1) /\
    List.length (sent w1) = S (List.length (sent w)).
Proof.
  intros Hb. destruct (breaks_unexpected _ _ _ Hb) as [_ Hcaught].
  unfold try_except, bind at 1.
  rewrite get_strings_from_hash_run. cbv zeta.
  specialize (Hb (lookup_query (cfg w) algorithm hash_value xor_value api_url
                    timeout)).
  destruct (service E _ _) as [| |sc js|sc].
  - destruct Hb.
  - subst. eexists. split; [reflexivity|].
    simpl. rewrite length_app. simpl. lia.
  - destruct Hb as [-> ->]. eexists. split; [reflexivity|].
    simpl. rewrite length_app. simpl. lia.
  - rewrite <- Hb, Hcaught. eexists. split; [reflexivity|].
    simpl. rewrite length_app. simpl. lia.
Qed.

(** When the query of rank [k] of a scan fails in another way than by a
    timeout, after [k] queries that were answered, the loop of
    [hash_scan_request] stops there: it has sent [k + 1] requests, and the
    exception leaves it. *)
Lemma hash_scan_queries_break E api_url algorithm xor_value timeout e :
  forall hash_list w k,
    (k < List.length hash_list)%nat ->
    (forall i, (i < k)%nat -> answered E (List.length (sent w) + i)) ->
    breaks E (List.length (sent w) + k) e ->
    exists w1,
      hash_scan_queries E hash_list api_url algorithm xor_value timeout w
      = (Raise e, w1) /\
      List.length (sent w1) = (List.length (sent w) + S k)%nat.
Proof.
  induction hash_list as [|hash_entry rest IH]; intros w k Hk Hans Hout;
    simpl in Hk; [lia|].
  simpl. unfold bind at 1.
  destruct k as [|k].
  - rewrite Nat.add_0_r in Hout.
    destruct (try_query_breaks E algorithm (se_hash_value hash_entry)
                (match xor_value with Some x => x | None => 0 end)
                api_url timeout w e Hout) as [w1 [-> Hlen]].
    exists w1. split; [reflexivity | lia].
  - assert (H0 : answered E (List.length (sent w)))
      by (rewrite <- (Nat.add_0_r (List.length (sent w))); apply Hans; lia).
    destruct (try_query_answered E algorithm (se_hash_value hash_entry)
                (match xor_value with Some x => x | None => 0 end)
                api_url timeout w H0) as [hashes [w1 [-> Hlen]]].
    destruct (IH w1 k) as [w2 [Hrest Hlen2]].
    + lia.
    + intros i Hi. rewrite Hlen.
      replace (S (List.length (sent w)) + i)%nat
        with (List.length (sent w) + S i)%nat by lia.
      apply Hans. lia.
    + rewrite Hlen.
      replace (S (List.length (sent w)) + k)%nat
        with (List.length (sent w) + S k)%nat by lia.
      exact Hout.
    + unfold bind at 1. rewrite Hrest. exists w2.
      split; [reflexivity | lia].
Qed.

Lemma hash_scan_request_break E c convert_values hash_list timeout w k e :
  (k < List.length hash_list)%nat ->
  (forall i, (i < k)%nat -> answered E (List.length (sent w) + i)) ->
  breaks E (List.length (sent w) + k) e ->
  exists w1,
    hash_scan_request E
      (th_args (scan_thread c convert_values hash_list timeout)) w
    = (Raise e, w1) /\
    List.length (sent w1) = (List.length (sent w) + S k)%nat.
Proof.
  intros Hk Hans Hout.
  destruct (hash_scan_queries_break E (HASHDB_API_URL c)
              (HASHDB_ALGORITHM c)
              (if HASHDB_USE_XOR c then Some (HASHDB_XOR_VALUE c) else None)
              (Some timeout) e hash_list w k Hk Hans Hout) as [w1 [Hq Hlen]].
  exists w1. split; [|exact Hlen].
  unfold hash_scan_request, scan_thread, th_args, as_scan_list.
  rewrite scan_entries_map.
  unfold xor_argument, optional_str.
  destruct (HASHDB_ALGORITHM c), (HASHDB_USE_XOR c);
    unfold bind, ret, as_str, as_optional_str, as_optional_int, as_int in *;
    simpl; rewrite Hq; reflexivity.
Qed.

(** The worker of a scan whose request did not deliver the list of results
    leaves the database as it was. *)
Lemma failed_scan_writes_nothing E th w :
  th_target th = hash_scan_request_fn ->
  th_done_callback th = Some hash_scan_done_fn ->
  th_error_callback th = Some hash_scan_error_fn ->
  fst (hash_scan_request E (th_args th) w) = Ret VNone \/
  (exists e, fst (hash_scan_request E (th_args th) w) = Raise e) ->
  idb (snd (run_thread E th w)) = idb w.
Proof.
  intros Htarget Hdone Herror Hfail.
  unfold run_thread.
  destruct (worker_of_ret E th) as [worker [-> [Ht [Ha [Hd He]]]]].
  unfold Worker.run. rewrite Ht.
  cbn [Worker.iscoroutinefunction target_callable].
  unfold Worker.__async_wrapper, Worker.run_until_complete,
    Worker.on_exception.
  rewrite Ht, Ha, Hd, He, Htarget, Hdone, Herror.
  cbn [option_map Worker.call target_callable done_callable error_callable].
  pose proof (hash_scan_request_idb E (th_args th) w) as Hreq.
  destruct (hash_scan_request E (th_args th) w) as [[v|e|] w1];
    unfold same in Hreq; simpl in Hreq, Hfail.
  - destruct Hfail as [[= ->]|[e [=]]].
    change (hash_scan_done E (Worker.normalize VNone) w1)
      with (lock_release w1).
    pose proof (lock_release_idb w1) as Hrel. unfold same in Hrel.
    destruct (lock_release w1) as [[u|e|] w2]; simpl in *; try congruence.
    destruct (Worker.expected_async e); simpl; [|congruence].
    pose proof (hash_scan_error_idb e w2) as Herr. unfold same in Herr.
    destruct (hash_scan_error e w2) as [r w3]. simpl in *. congruence.
  - destruct (Worker.expected_async e); simpl; [|congruence].
    pose proof (hash_scan_error_idb e w1) as Herr. unfold same in Herr.
    destruct (hash_scan_error e w1) as [r w3]. simpl in *. congruence.
  - simpl. congruence.
Qed.

(** C7 (as amended).  A range scan sends all of its queries before it
    writes anything.  If the query of rank [k] fails after [k] queries that
    were answered, the scan is aborted: [k + 1] requests were sent and no
    more, and the database is as it was before the scan: no entry at all is
    written, the entries ahead of the failed query included.  When the
    query times out, the done callback runs with no result and releases
    the lock.  When it fails in another way (no connection, a status that
    is not ok, a body that is not JSON), the exception leaves the thread:
    no callback runs and the lock stays held.  Whenever the request does
    not deliver its list of results, the database stays as it was. *)
Theorem C7_failed_query_writes_nothing :
  (forall E c convert_values hash_list timeout w k,
      locked w = true ->
      (k < List.length hash_list)%nat ->
      (forall i, (i < k)%nat -> answered E (List.length (sent w) + i)) ->
      times_out E (List.length (sent w) + k) ->
      idb (snd (run_thread E
                  (scan_thread c convert_values hash_list timeout) w))
      = idb w /\
      List.length
        (sent (snd (run_thread E
                      (scan_thread c convert_values hash_list timeout) w)))
      = (List.length (sent w) + S k)%nat /\
      fst (run_thread E (scan_thread c convert_values hash_list timeout) w)
      = {| Worker.outcome := Ret tt; Worker.invoked := [Worker.onDone] |} /\
      released_once w
        (snd (run_thread E
                (scan_thread c convert_values hash_list timeout) w))) /\
  (forall E c convert_values hash_list timeout w k e,
      (k < List.length hash_list)%nat ->
      (forall i, (i < k)%nat -> answered E (List.length (sent w) + i)) ->
      breaks E (List.length (sent w) + k) e ->
      idb (snd (run_thread E
                  (scan_thread c convert_values hash_list timeout) w))
      = idb w /\
      List.length
        (sent (snd (run_thread E
                      (scan_thread c convert_values hash_list timeout) w)))
      = (List.length (sent w) + S k)%nat /\
      fst (run_thread E (scan_thread c convert_values hash_list timeout) w)
      = {| Worker.outcome := Raise e; Worker.invoked := [] |} /\
      lock_state
        (snd (run_thread E
                (scan_thread c convert_values hash_list timeout) w))
      = lock_state w) /\
  (forall E th w,
      th_target th = hash_scan_request_fn ->
      th_done_callback th = Some hash_scan_done_fn ->
      th_error_callback th = Some hash_scan_error_fn ->
      fst (hash_scan_request E (th_args th) w) = Ret VNone \/
      (exists e, fst (hash_scan_request E (th_args th) w) = Raise e) ->
      idb (snd (run_thread E th w)) = idb w).
Proof.
  split; [|split; [|exact failed_scan_writes_nothing]].
  2: {
    intros E c convert_values hash_list timeout w k e Hk Hans Hout.
    destruct (hash_scan_request_break E c convert_values hash_list timeout
                w k e Hk Hans Hout) as [w1 [Hreq Hlen]].
    pose proof (hash_scan_request_idb E
                  (th_args (scan_thread c convert_values hash_list timeout))
                  w) as Hidb.
    pose proof (hash_scan_request_lock E
                  (th_args (scan_thread c convert_values hash_list timeout))
                  w) as Hlock.
    rewrite Hreq in Hidb, Hlock. unfold same in Hidb, Hlock.
    simpl in Hidb, Hlock.
    rewrite (run_thread_raises E
               (scan_thread c convert_values hash_list timeout) w e w1 Hreq
               (proj1 (breaks_unexpected _ _ _ Hout))).
    simpl. repeat split; congruence. }
  intros E c convert_values hash_list timeout w k Hlocked Hk Hans Hout.
  destruct (hash_scan_request_time_out E c convert_values hash_list timeout
              w k Hk Hans Hout) as [w1 [Hreq Hlen]].
  pose proof (hash_scan_request_idb E
                (th_args (scan_thread c convert_values hash_list timeout)) w)
    as Hidb.
  pose proof (hash_scan_request_lock E
                (th_args (scan_thread c convert_values hash_list timeout)) w)
    as Hlock.
  rewrite Hreq in Hidb, Hlock. unfold same in Hidb, Hlock. simpl in Hidb, Hlock.
  injection Hlock as Hlocked1 Hacq Hrel.
  assert (Hrun :
            run_thread E (scan_thread c convert_values hash_list timeout) w
            = ({| Worker.outcome := Ret tt;
                  Worker.invoked := [Worker.onDone] |},
               snd (lock_release w1))).
  { unfold run_thread.
    destruct (worker_of_ret E
                (scan_thread c convert_values hash_list timeout))
      as [worker [-> [Ht [Ha [Hd He]]]]].
    unfold Worker.run. rewrite Ht.
    cbn [Worker.iscoroutinefunction target_callable].
    unfold Worker.__async_wrapper, Worker.run_until_complete.
    rewrite Ht, Ha, Hd.
    change (Worker.call
              (target_callable E
                 (th_target (scan_thread c convert_values hash_list timeout)))
              (th_args (scan_thread c convert_values hash_list timeout)) w)
      with (hash_scan_request E
              (th_args (scan_thread c convert_values hash_list timeout)) w).
    rewrite Hreq. cbv beta iota.
    cbn [option_map th_done_callback scan_thread].
    change (Worker.call (done_callable E hash_scan_done_fn)
              (Worker.normalize VNone) w1)
      with (lock_release w1).
    unfold lock_release. rewrite <- Hlocked1, Hlocked. reflexivity. }
  rewrite Hrun. unfold lock_release. rewrite <- Hlocked1, Hlocked. simpl.
  repeat split; simpl; congruence.
Qed.

(** C7, the claim as stated fails: in a scan over five values whose third
    query times out, the first two values are not written.  The database
    is left empty, although the same scan with all five queries answered
    writes the five members, the first two as "api" and "api_1". *)
Lemma C7_first_entries_are_not_written :
  idb (snd (after_scan (scan_env third_times_out) crc32_world)) = IDA.empty /\
  List.length (sent (snd (after_scan (scan_env third_times_out) crc32_world)))
  = 3%nat /\
  IDA.members_of
    (idb (snd (after_scan (scan_env all_answered) crc32_world))) 0
  = [("api", 0x401000); ("api_1", 0x401004); ("api_2", 0x401008);
     ("api_3", 0x40100C); ("api_4", 0x401010)] /\
  ~ In ("api", 0x401000)
      (IDA.members_of
         (idb (snd (after_scan (scan_env third_times_out) crc32_world))) 0).
Proof.
  split; [vm_compute; reflexivity|].
  split; [vm_compute; reflexivity|].
  split; [vm_compute; reflexivity|].
  vm_compute. tauto.
Qed.

(** C7 at work: the scan over five values whose third query times out,
    and the same scan when the third query is answered with status 500. *)
Lemma C7_failed_query_writes_nothing_witness :
  idb (snd (run_thread (scan_env third_times_out)
              (scan_thread crc32_config true five_values 15)
              (with_threads
                 (snd (hash_scan (scan_env third_times_out) true crc32_world))
                 [])))
  = idb crc32_world /\
  (fst (run_thread (scan_env third_refused)
          (scan_thread crc32_config true five_values 15)
          (with_threads
             (snd (hash_scan (scan_env third_refused) true crc32_world)) []))
   = {| Worker.outcome := Raise HashDBError; Worker.invoked := [] |} /\
   lock_state
     (snd (run_thread (scan_env third_refused)
             (scan_thread crc32_config true five_values 15)
             (with_threads
                (snd (hash_scan (scan_env third_refused) true crc32_world))
                [])))
   = (true, 1%nat, 0%nat)).
Proof.
  destruct C7_failed_query_writes_nothing as [Htimeout [Hbreak _]]. split.
  - apply (Htimeout (scan_env third_times_out) crc32_config true five_values
             15
             (with_threads
                (snd (hash_scan (scan_env third_times_out) true crc32_world))
                []) 2%nat).
    + vm_compute; reflexivity.
    + simpl; lia.
    + intros i Hi.
      exists 200, (hashes_body [string_match (attempt_name "api" i)]).
      split; [|split].
      * intros rq.
        assert (i = 0 \/ i = 1)%nat as [-> | ->] by lia; reflexivity.
      * reflexivity.
      * repeat constructor. unfold well_formed. simpl. discriminate.
    + intros rq. reflexivity.
  - destruct (Hbreak (scan_env third_refused) crc32_config true five_values
                15
                (with_threads
                   (snd (hash_scan (scan_env third_refused) true crc32_world))
                   []) 2%nat HashDBError) as [_ [_ [Hout Hlock]]].
    + simpl; lia.
    + intros i Hi.
      exists 200, (hashes_body [string_match (attempt_name "api" i)]).
      split; [|split].
      * intros rq.
        assert (i = 0 \/ i = 1)%nat as [-> | ->] by lia; reflexivity.
      * reflexivity.
      * repeat constructor. unfold well_formed. simpl. discriminate.
    + intros rq. simpl. split; reflexivity.
    + split; [exact Hout|]. rewrite Hlock. reflexivity.
Defined.

(* ---------------------------------------------------------------------- *)
(** ** What an edit of the settings after the launch can change *)

Lemma oblivious_ret {A} (a : A) : oblivious (ret a).
Proof. intros w c. reflexivity. Qed.

Lemma oblivious_raise {A} e : oblivious (@raise world A e).
Proof. intros w c. reflexivity. Qed.

Lemma oblivious_lift {A} (r : result A) : oblivious (lift r).
Proof. intros w c. reflexivity. Qed.

Lemma oblivious_msg text : oblivious (msg text).
Proof. intros w c. reflexivity. Qed.

Lemma oblivious_bind {A B} (m : M world A) (k : A -> M world B) :
  oblivious m -> (forall a, oblivious (k a)) -> oblivious (bind m k).
Proof.
  intros Hm Hk w c. unfold bind. rewrite Hm.
  destruct (m w) as [[a|e|] w1]; simpl; [apply Hk | reflexivity..].
Qed.

Lemma oblivious_bind_ret {A B} (a : A) (k : A -> M world B) :
  oblivious (k a) -> oblivious (bind (ret a) k).
Proof. intros H w c. apply H. Qed.

Lemma oblivious_try_except {A} (m : M world A) handles handler :
  oblivious m -> (forall e, oblivious (handler e)) ->
  oblivious (try_except m handles handler).
Proof.
  intros Hm Hh w c. unfold try_except. rewrite Hm.
  destruct (m w) as [[a|e|] w1]; simpl; try reflexivity.
  destruct (handles e); [apply Hh | reflexivity].
Qed.

Lemma oblivious_requests_send E rq : oblivious (requests_send E rq).
Proof.
  intros w c. unfold requests_send. simpl.
  destruct (service E _ rq); reflexivity.
Qed.

(** With a timeout of its own, the lookup query does not look at the
    globals. *)
Lemma get_strings_from_hash_oblivious E algorithm hash_value xor_value
    api_url timeout :
  oblivious
    (get_strings_from_hash E algorithm hash_value xor_value api_url
       (Some timeout)).
Proof.
  unfold get_strings_from_hash, default_timeout.
  apply oblivious_bind; [apply oblivious_ret|]. intros t.
  apply oblivious_bind; [apply oblivious_requests_send|]. intros [sc js].
  destruct (negb (ok sc)); [apply oblivious_raise|].
  apply oblivious_bind; [|intro results; apply oblivious_lift].
  destruct js; [apply oblivious_ret | apply oblivious_raise].
Qed.

Lemma guarded_query_oblivious E algorithm hash_value xor_value api_url
    timeout text :
  oblivious
    (try_except
       (bind (get_strings_from_hash E algorithm hash_value xor_value api_url
                (Some timeout)) (fun r => ret (Some r)))
       (exn_eqb RequestsTimeout)
       (fun _ => bind (msg text) (fun _ => ret None))).
Proof.
  apply oblivious_try_except.
  - apply oblivious_bind; [apply get_strings_from_hash_oblivious|].
    intros r. apply oblivious_ret.
  - intros e. apply oblivious_bind; [apply oblivious_msg|].
    intros u. apply oblivious_ret.
Qed.

Lemma hash_scan_queries_oblivious E api_url algorithm xor_value timeout
    hash_list :
  oblivious
    (hash_scan_queries E hash_list api_url algorithm xor_value (Some timeout)).
Proof.
  induction hash_list as [|hash_entry rest IH]; simpl.
  - apply oblivious_ret.
  - apply oblivious_bind; [apply guarded_query_oblivious|].
    intros [hashes|]; [|apply oblivious_ret].
    apply oblivious_bind; [exact IH|].
    intros [entries|]; apply oblivious_ret.
Qed.

Lemma hash_lookup_request_oblivious E c hash_value timeout :
  oblivious
    (hash_lookup_request E (th_args (lookup_thread c hash_value timeout))).
Proof.
  unfold hash_lookup_request, lookup_thread, th_args, xor_argument,
    optional_str.
  destruct (HASHDB_ALGORITHM c), (HASHDB_USE_XOR c);
    repeat apply oblivious_bind_ret;
    (apply oblivious_bind; [apply guarded_query_oblivious|]);
    intros [[|h l]|];
    repeat first [ apply oblivious_ret
                 | apply oblivious_bind; [apply oblivious_msg|]; intros ? ].
Qed.

Lemma hash_scan_request_oblivious E c convert_values hash_list timeout :
  oblivious
    (hash_scan_request E
       (th_args (scan_thread c convert_values hash_list timeout))).
Proof.
  unfold hash_scan_request, scan_thread, th_args, xor_argument,
    optional_str, as_scan_list.
  rewrite scan_entries_map.
  destruct (HASHDB_ALGORITHM c), (HASHDB_USE_XOR c);
    repeat apply oblivious_bind_ret;
    (apply oblivious_bind; [apply hash_scan_queries_oblivious|]);
    intros [entries|]; apply oblivious_ret.
Qed.

(** C9 (as amended).  The queries of a lookup and of a scan use the
    endpoint, the algorithm, the XOR mask and the timeout that were read
    from the globals at launch and handed to the worker as arguments: the
    request function run after any edit of the globals sends the same
    requests and returns the same result as without the edit, and leaves
    the edit in place.  (The done handlers read the globals when they run:
    see the lemma that follows.) *)
Theorem C9_queries_use_the_launch_snapshot :
  forall E launch hash_value convert_values hash_list timeout w edited,
    hash_lookup_request E
      (th_args (lookup_thread launch hash_value timeout)) (with_cfg w edited)
    = (fst (hash_lookup_request E
              (th_args (lookup_thread launch hash_value timeout)) w),
       with_cfg
         (snd (hash_lookup_request E
                 (th_args (lookup_thread launch hash_value timeout)) w))
         edited) /\
    hash_scan_request E
      (th_args (scan_thread launch convert_values hash_list timeout))
      (with_cfg w edited)
    = (fst (hash_scan_request E
              (th_args (scan_thread launch convert_values hash_list timeout))
              w),
       with_cfg
         (snd (hash_scan_request E
                 (th_args
                    (scan_thread launch convert_values hash_list timeout)) w))
         edited).
Proof.
  intros. split.
  - apply hash_lookup_request_oblivious.
  - apply hash_scan_request_oblivious.
Qed.

(** C9, the claim as stated fails: two runs of one lookup, launched from
    the same state, that differ in an edit of the enum prefix made after
    the launch send the same query and write into enums of different
    names. *)
Lemma C9_edit_after_launch_renames_the_enum :
  sent lookup_with_edit = sent lookup_undisturbed /\
  map IDA.enum_name (IDA.enums (idb lookup_undisturbed))
  = ["hashdb_strings_crc32"] /\
  map IDA.enum_name (IDA.enums (idb lookup_with_edit)) = ["renamed_crc32"] /\
  idb lookup_with_edit <> idb lookup_undisturbed.
Proof.
  split; [vm_compute; reflexivity|].
  split; [vm_compute; reflexivity|].
  split; [vm_compute; reflexivity|].
  vm_compute. discriminate.
Qed.

(* ---------------------------------------------------------------------- *)
(** ** Acquisitions and releases of the entry points *)

Lemma start_worker_lock E th : stable (same lock_state) (start_worker E th).
Proof. intro w. now rewrite start_worker_run. Qed.
#[local] Hint Resolve start_worker_lock : stable.

Lemma select_algorithm_first_lock E :
  stable (same lock_state) (select_algorithm_first E).
Proof. unfold select_algorithm_first. stable_tac. Qed.
#[local] Hint Resolve select_algorithm_first_lock : stable.

Lemma hash_lookup_run_lock E t : stable (same lock_state) (hash_lookup_run E t).
Proof. unfold hash_lookup_run, parse_highlight. stable_tac. Qed.

Lemma hash_scan_run_lock E c t :
  stable (same lock_state) (hash_scan_run E c t).
Proof. unfold hash_scan_run. stable_tac. Qed.

Lemma hunt_algorithm_run_lock E t :
  stable (same lock_state) (hunt_algorithm_run E t).
Proof. unfold hunt_algorithm_run, parse_highlight. stable_tac. Qed.

(** The shape the three entry points share, on a free lock: one
    acquisition; then either the pre-flight asked for the release, and the
    lock is released once, or the worker was started and the lock is
    held for its callbacks. *)
Lemma gate_balance (run : Z -> M world bool) text w w' :
  (forall t, stable (same lock_state) (run t)) ->
  locked w = false ->
  bind lock_locked (fun is_locked =>
    if is_locked then busy_notice
    else
      bind lock_acquire (fun _ =>
      bind (msg text) (fun _ =>
      bind (global HASHDB_REQUEST_TIMEOUT) (fun timeout =>
      bind (run timeout) (fun release_lock =>
      if release_lock then lock_release else ret tt))))) w = (Ret tt, w') ->
  acquires w' = S (acquires w) /\
  ((locked w' = false /\ releases w' = S (releases w)) \/
   (locked w' = true /\ releases w' = releases w)).
Proof.
  intros Hrun Hfree H.
  apply bind_ret_inv in H as [is_locked [w0 [H0 H]]].
  unfold lock_locked in H0. injection H0 as <- <-. rewrite Hfree in H.
  apply bind_ret_inv in H as [u1 [w1 [H1 H]]].
  unfold lock_acquire in H1. rewrite Hfree in H1. injection H1 as _ <-.
  apply bind_ret_inv in H as [u2 [w2 [H2 H]]].
  unfold msg, modify in H2. injection H2 as _ <-.
  apply bind_ret_inv in H as [timeout [w3 [H3 H]]].
  unfold global in H3. injection H3 as <- <-.
  apply bind_ret_inv in H as [release_lock [w4 [H4 H]]].
  pose proof (stable_at _ _ _ _ _ (Hrun _) H4) as Hs.
  unfold same, lock_state in Hs. simpl in Hs. injection Hs as Hl Ha Hr.
  destruct release_lock.
  - apply lock_release_ret in H as [_ [Hl' [Hr' Ha']]].
    split; [congruence|]. left. split; congruence.
  - injection H as <-. split; [congruence|]. right. split; congruence.
Qed.

(** X17.  On a free lock, each entry point that returns has acquired the lock
    once, and has released it once unless it started its worker. *)
Lemma entry_points_balance E convert_values w w' :
  locked w = false ->
  hash_lookup E w = (Ret tt, w') \/
  hash_scan E convert_values w = (Ret tt, w') \/
  hunt_algorithm E w = (Ret tt, w') ->
  acquires w' = S (acquires w) /\
  ((locked w' = false /\ releases w' = S (releases w)) \/
   (locked w' = true /\ releases w' = releases w)).
Proof.
  intros Hfree [H|[H|H]].
  - apply (gate_balance (hash_lookup_run E) _ w w'
             (hash_lookup_run_lock E) Hfree H).
  - apply (gate_balance (hash_scan_run E convert_values) _ w w'
             (hash_scan_run_lock E convert_values) Hfree H).
  - apply (gate_balance (hunt_algorithm_run E) _ w w'
             (hunt_algorithm_run_lock E) Hfree H).
Qed.

(* ---------------------------------------------------------------------- *)
(** ** The client of the lookup service *)

Lemma algorithm_rows_run l : forall w,
  algorithm_rows l w
  = (Ret (map row_of l),
     with_output w
       (output w
        ++ map (fun _ => Msg "ERROR: Unknown algorithm type encountered when fetching algorithms")
             (filter unknown_type l))).
Proof.
  induction l as [|a l IH]; intro w; simpl.
  - destruct w; unfold ret, with_output; simpl. now rewrite app_nil_r.
  - unfold bind at 1. unfold unknown_type at 1.
    destruct (String.eqb (determine_algorithm_size (ai_type a)) "Unknown") eqn:Hu.
    + unfold msg, modify. unfold bind. rewrite IH. unfold ret, row_of. simpl.
      unfold with_output; simpl. now rewrite <- app_assoc.
    + unfold ret at 1. unfold bind. rewrite IH. reflexivity.
Qed.

(** X2.  Each function of the client sends exactly one request: the catalog
    is read from [api_url + '/hash'], the strings of a hash from [api_url +
    '/hash/<algorithm>/<hash ^ xor>'], the hashes of a module from [api_url +
    '/module/<module>/<algorithm>/<permutation>'], and the hunt is posted to
    [api_url + '/hunt'] with the one hash; the timeout is the one given, or
    [HASHDB_REQUEST_TIMEOUT] when none is given.  A timed-out or failed
    request raises the exception of [requests]; a status that is not ok
    raises [HashDBError], but for [hunt_hash] on a body that is not JSON:
    [hunt_hash] prints the URL, the hashes and the body of a refused
    response before it raises, and reading that body raises
    [JSONDecodeError], as reading a body that is not JSON does in each
    function when the status is ok.  The globals, the lock, the database
    and the threads are left alone. *)
Theorem client_sends_one_request :
  forall E api_url timeout,
    sends_once E false
      (fun c => GET (api_url ++ "/hash") (effective_timeout c timeout))
      (get_algorithms E api_url timeout) /\
    (forall algorithm hash_value xor_value,
        sends_once E false
          (fun c =>
             lookup_query c algorithm hash_value xor_value api_url timeout)
          (get_strings_from_hash E algorithm hash_value xor_value api_url
             timeout)) /\
    (forall module_name algorithm permutation,
        sends_once E false
          (fun c =>
             GET (api_url ++ "/module/" ++ module_name ++ "/"
                  ++ format_s algorithm ++ "/" ++ permutation)
                 (effective_timeout c timeout))
          (get_module_hashes E module_name algorithm permutation api_url
             timeout)) /\
    (forall hash_value,
        sends_once E true
          (fun c =>
             POST (api_url ++ "/hunt") [hash_value]
                  (effective_timeout c timeout))
          (hunt_hash E hash_value api_url timeout)) /\
    (forall hash_value w status_code,
        ok status_code = false ->
        (forall json,
            service E (List.length (sent w))
              (POST (api_url ++ "/hunt") [hash_value]
                 (effective_timeout (cfg w) timeout))
            = Response status_code json ->
            output (snd (hunt_hash E hash_value api_url timeout w))
            = (output w
               ++ [Print (VStr (api_url ++ "/hunt"));
                   Print (VList [VInt hash_value]); PrintJson json])%list) /\
        (service E (List.length (sent w))
           (POST (api_url ++ "/hunt") [hash_value]
              (effective_timeout (cfg w) timeout))
         = Page status_code ->
         output (snd (hunt_hash E hash_value api_url timeout w))
         = (output w
            ++ [Print (VStr (api_url ++ "/hunt"));
                Print (VList [VInt hash_value])])%list)).
Proof.
  intros E api_url timeout.
  split; [|split; [|split; [|split]]]; intros; try intro w.
  - unfold get_algorithms, default_timeout, effective_timeout.
    destruct timeout as [t|];
      unfold bind, global, ret, requests_send, r_json, raise; simpl;
      match goal with
      | |- context [service E ?n ?rq] =>
          destruct (service E n rq) as [| |sc json|sc]
      end; simpl; auto;
      destruct (ok sc) eqn:Hok; simpl;
      try rewrite algorithm_rows_run; simpl; repeat split; congruence.
  - unfold get_strings_from_hash, lookup_query, default_timeout.
    destruct timeout as [t|];
      unfold bind, global, ret, requests_send, r_json, raise, lift; simpl;
      match goal with
      | |- context [service E ?n ?rq] =>
          destruct (service E n rq) as [| |sc json|sc]
      end; simpl; auto;
      destruct (ok sc) eqn:Hok; simpl; repeat split; congruence.
  - unfold get_module_hashes, default_timeout, effective_timeout.
    destruct timeout as [t|];
      unfold bind, global, ret, requests_send, r_json, raise; simpl;
      match goal with
      | |- context [service E ?n ?rq] =>
          destruct (service E n rq) as [| |sc json|sc]
      end; simpl; auto;
      destruct (ok sc) eqn:Hok; simpl; repeat split; congruence.
  - unfold hunt_hash, default_timeout, effective_timeout.
    destruct timeout as [t|];
      unfold bind, global, ret, requests_send, r_json, print, print_json,
        modify, raise; simpl;
      match goal with
      | |- context [service E ?n ?rq] =>
          destruct (service E n rq) as [| |sc json|sc]
      end; simpl; auto;
      destruct (ok sc) eqn:Hok; simpl; repeat split; congruence.
  - unfold hunt_hash, default_timeout, effective_timeout in *.
    split; [intros json Hs | intros Hs];
      destruct timeout as [t|];
      unfold bind, global, ret, requests_send, r_json, print, print_json,
        modify, raise; simpl; simpl in Hs; rewrite Hs; simpl;
      rewrite H; simpl; now rewrite <- ?app_assoc.
Qed.

(** X3.  When the catalog query is answered with an ok status,
    [get_algorithms] returns one row [[name, size]] per entry of the catalog,
    in the order of the catalog, the size being "32", "64" or "Unknown" by the
    type of the entry; an entry without a name gives a row whose name is
    [None], and each entry of unknown type adds one error line to the output. *)
Theorem get_algorithms_rows :
  forall E api_url timeout w status_code json,
    service E (List.length (sent w))
      (GET (api_url ++ "/hash") (effective_timeout (cfg w) timeout))
    = Response status_code json ->
    ok status_code = true ->
    fst (get_algorithms E api_url timeout w)
    = Ret (map row_of (received_algorithms json)) /\
    output (snd (get_algorithms E api_url timeout w))
    = (output w
       ++ map (fun _ => Msg "ERROR: Unknown algorithm type encountered when fetching algorithms")
            (filter unknown_type (received_algorithms json)))%list.
Proof.
  intros E api_url timeout w sc json Hs Hok.
  unfold get_algorithms, default_timeout, effective_timeout in *.
  destruct timeout as [t|]; unfold bind, global, ret, requests_send, r_json;
    simpl; simpl in Hs; rewrite Hs, Hok; simpl; rewrite algorithm_rows_run;
    split; reflexivity.
Qed.

Lemma get_algorithms_rows_witness :
  fst (get_algorithms (hunt_env []) "https://hashdb.openanalysis.net" None
         (with_sent initial_world [GET "" 0]))
  = Ret [VList [VStr "crc32"; VStr "32"]; VList [VStr "fnv1a_64"; VStr "64"];
         VList [VStr "ror13_add"; VStr "32"]] /\
  output (snd (get_algorithms (hunt_env []) "https://hashdb.openanalysis.net"
                 None (with_sent initial_world [GET "" 0])))
  = [].
Proof.
  apply (get_algorithms_rows (hunt_env []) "https://hashdb.openanalysis.net"
           None (with_sent initial_world [GET "" 0]) 200 catalog_body);
    reflexivity.
Defined.

Lemma collect_matches_spec hits : forall matches,
  NoDup matches ->
  NoDup (collect_matches hits matches) /\
  (forall a,
      In a (collect_matches hits matches) <->
      In a matches \/ exists hit, In hit hits /\ hit_algorithm hit = Some a) /\
  exists more, collect_matches hits matches = (matches ++ more)%list.
Proof.
  induction hits as [|hit hits IH]; intros matches Hnd; simpl.
  - split; [assumption|]. split.
    + intro a. split; [auto|]. intros [H|[hit [[] _]]]. assumption.
    + exists []. now rewrite app_nil_r.
  - destruct (hit_algorithm hit) as [algo|] eqn:Ha.
    + destruct (existsb (String.eqb algo) matches) eqn:Hex.
      * destruct (IH matches Hnd) as [H1 [H2 H3]].
        split; [assumption|]. split; [|assumption].
        intro a. rewrite H2. split.
        -- intros [H|[h [Hin Hh]]]; [auto|]. right. exists h. auto.
        -- intros [H|[h [[->|Hin] Hh]]]; [auto| |].
           ++ left. apply existsb_exists in Hex as [x [Hx Hxe]].
              apply String.eqb_eq in Hxe. congruence.
           ++ right. exists h. auto.
      * assert (Hnd' : NoDup (matches ++ [algo])).
        { apply NoDup_app; [assumption | repeat constructor; auto |].
          intros x Hx [<-|[]].
          assert (existsb (String.eqb algo) matches = true) as Ht.
          { apply existsb_exists. exists algo. split; [assumption|].
            apply String.eqb_refl. }
          congruence. }
        destruct (IH _ Hnd') as [H1 [H2 [more H3]]].
        split; [assumption|]. split.
        -- intro a. rewrite H2, in_app_iff. simpl. split.
           ++ intros [[H|[<-|[]]]|[h [Hin Hh]]]; [auto| |].
              ** right. exists hit. auto.
              ** right. exists h. auto.
           ++ intros [H|[h [[->|Hin] Hh]]]; [auto| |].
              ** left. right. left. congruence.
              ** right. exists h. auto.
        -- exists ([algo] ++ more)%list. now rewrite H3, <- app_assoc.
    + destruct (IH matches Hnd) as [H1 [H2 H3]].
      split; [assumption|]. split; [|assumption].
      intro a. rewrite H2. split.
      * intros [H|[h [Hin Hh]]]; [auto|]. right. exists h. auto.
      * intros [H|[h [[->|Hin] Hh]]]; [auto| congruence |].
        right. exists h. auto.
Qed.

(** X4.  When the hunt query is answered with an ok status, [hunt_hash]
    returns the algorithms named by the hits without repetition: an algorithm
    is in the result exactly when some hit names it, and hits without an
    algorithm are skipped. *)
Theorem hunt_hash_matches :
  forall E hash_value api_url timeout w status_code json,
    service E (List.length (sent w))
      (POST (api_url ++ "/hunt") [hash_value]
         (effective_timeout (cfg w) timeout))
    = Response status_code json ->
    ok status_code = true ->
    exists matches,
      fst (hunt_hash E hash_value api_url timeout w) = Ret matches /\
      NoDup matches /\
      (forall a,
          In a matches <->
          exists hit,
            In hit (received_hits json) /\ hit_algorithm hit = Some a).
Proof.
  intros E hash_value api_url timeout w sc json Hs Hok.
  exists (collect_matches (received_hits json) []).
  destruct (collect_matches_spec (received_hits json) [] (NoDup_nil _))
    as [H1 [H2 _]].
  split; [|split; [assumption|]].
  - unfold hunt_hash, default_timeout, effective_timeout in *.
    destruct timeout as [t|]; unfold bind, global, ret, requests_send, r_json;
      simpl; simpl in Hs; rewrite Hs, Hok; reflexivity.
  - intro a. rewrite H2. split; [|auto]. intros [[]|H]. assumption.
Qed.

Lemma hunt_hash_matches_witness :
  exists matches,
    fst (hunt_hash (hunt_env ["crc32"; "ror13_add"; "crc32"]) 5
           "https://hashdb.openanalysis.net" (Some 15) initial_world)
    = Ret matches /\
    NoDup matches /\
    (forall a,
        In a matches <->
        exists hit,
          In hit (received_hits (hits_body ["crc32"; "ror13_add"; "crc32"])) /\
          hit_algorithm hit = Some a).
Proof.
  apply (hunt_hash_matches (hunt_env ["crc32"; "ror13_add"; "crc32"]) 5
           "https://hashdb.openanalysis.net" (Some 15) initial_world 200
           (hits_body ["crc32"; "ror13_add"; "crc32"]));
    reflexivity.
Defined.

(* ---------------------------------------------------------------------- *)
(** ** Numerals *)

Lemma digits_after_pos d : forall acc,
  digits_after d (Z.pos acc) = Z.pos (Pos.of_uint_acc d acc).
Proof.
  induction d; intro acc; cbn [digits_after Pos.of_uint_acc]; auto;
    match goal with
    | |- digits_after _ ?z = Z.pos (Pos.of_uint_acc _ ?p) =>
        replace z with (Z.pos p)
          by (rewrite ?Pos2Z.inj_add, ?Pos2Z.inj_mul; lia);
        auto
    end.
Qed.

Lemma digits_after_zero d : digits_after d 0 = Z.of_N (Pos.of_uint d).
Proof.
  induction d; simpl; auto;
    match goal with
    | |- digits_after _ ?z = Z.pos (Pos.of_uint_acc _ ?p) =>
        change z with (Z.pos p); apply digits_after_pos
    end.
Qed.

Lemma string_of_uint_nonnil d :
  d <> Decimal.Nil ->
  NilZero.string_of_uint d = NilEmpty.string_of_uint d.
Proof. destruct d; [congruence | reflexivity..]. Qed.

Lemma first_digit d :
  d <> Decimal.Nil ->
  exists c r,
    NilEmpty.string_of_uint d = String c r /\ c <> "-"%char /\ c <> "+"%char.
Proof.
  intro Hd. destruct d; [congruence|..]; simpl; eexists; eexists;
    (split; [reflexivity | split; discriminate]).
Qed.

Lemma numeral_rest_string_of_uint d : forall acc,
  numeral_rest acc (NilEmpty.string_of_uint d) = Ret (digits_after d acc).
Proof. induction d; intro acc; simpl; auto. Qed.

Lemma numeral_string_of_uint d :
  d <> Decimal.Nil ->
  numeral (NilEmpty.string_of_uint d) = Ret (Z.of_N (Pos.of_uint d)).
Proof.
  intro Hd. rewrite <- digits_after_zero.
  destruct d; [congruence|..];
    cbn [NilEmpty.string_of_uint numeral];
    match goal with
    | |- context [decimal_digit ?c] =>
        let v := eval vm_compute in (decimal_digit c) in
        change (decimal_digit c) with v
    end;
    cbn iota; now rewrite numeral_rest_string_of_uint.
Qed.

Lemma lstrip_string_of_uint d :
  lstrip (NilEmpty.string_of_uint d) = NilEmpty.string_of_uint d.
Proof. destruct d; reflexivity. Qed.

Lemma rstrip_string_of_uint d :
  rstrip (NilEmpty.string_of_uint d) = NilEmpty.string_of_uint d.
Proof.
  induction d; cbn [NilEmpty.string_of_uint rstrip]; [reflexivity|..];
    rewrite IHd; destruct (NilEmpty.string_of_uint d); reflexivity.
Qed.

Lemma numeral_str_pos p :
  numeral (NilEmpty.string_of_uint (Pos.to_uint p)) = Ret (Z.pos p).
Proof.
  rewrite numeral_string_of_uint by apply DecimalPos.Unsigned.to_uint_nonnil.
  now rewrite DecimalPos.Unsigned.of_to.
Qed.

(** [int(str(z))] is [z]. *)
Lemma int_str_str_int z : int_str (str_int z) = Ret z.
Proof.
  destruct z as [|p|p]; [reflexivity | |].
  - unfold str_int. simpl Z.to_int. cbn [NilZero.string_of_int].
    rewrite string_of_uint_nonnil
      by apply DecimalPos.Unsigned.to_uint_nonnil.
    unfold int_str. rewrite lstrip_string_of_uint, rstrip_string_of_uint.
    pose proof (numeral_str_pos p) as H.
    destruct (first_digit (Pos.to_uint p)
                (DecimalPos.Unsigned.to_uint_nonnil p)) as [c [r [Hs [Hm Hp]]]].
    rewrite Hs in *.
    apply Ascii.eqb_neq in Hm, Hp. now rewrite Hm, Hp.
  - unfold str_int. simpl Z.to_int. cbn [NilZero.string_of_int].
    rewrite string_of_uint_nonnil
      by apply DecimalPos.Unsigned.to_uint_nonnil.
    unfold int_str. cbn [lstrip].
    change (int_space "-") with false. cbn iota.
    cbn [rstrip]. rewrite rstrip_string_of_uint.
    destruct (first_digit (Pos.to_uint p)
                (DecimalPos.Unsigned.to_uint_nonnil p)) as [c [r [Hs _]]].
    pose proof (numeral_str_pos p) as H. rewrite Hs in *.
    rewrite Ascii.eqb_refl, H. reflexivity.
Qed.
(* ---------------------------------------------------------------------- *)
(** ** Statements that keep a preorder on the state *)

Section Preorder.
Context {S : Type} (R : S -> S -> Prop).
Hypothesis R_refl : forall s, R s s.
Hypothesis R_trans : forall a b c, R a b -> R b c -> R a c.

Lemma keeps_ret {A} (a : A) : stable R (ret a).
Proof. intro s. apply R_refl. Qed.

Lemma keeps_raise {A} e : stable R (@raise S A e).
Proof. intro s. apply R_refl. Qed.

Lemma keeps_lift {A} (r : result A) : stable R (lift r).
Proof. intro s. apply R_refl. Qed.

Lemma keeps_get : stable R (@get S).
Proof. intro s. apply R_refl. Qed.

Lemma keeps_bind {A C} (m : M S A) (k : A -> M S C) :
  stable R m -> (forall a, stable R (k a)) -> stable R (bind m k).
Proof.
  intros Hm Hk s. unfold bind. specialize (Hm s).
  destruct (m s) as [[a|e|] s1]; simpl in *; auto.
  eapply R_trans; [exact Hm | apply Hk].
Qed.

Lemma keeps_try_except {A} (m : M S A) handles handler :
  stable R m -> (forall e, stable R (handler e)) ->
  stable R (try_except m handles handler).
Proof.
  intros Hm Hh s. unfold try_except. specialize (Hm s).
  destruct (m s) as [[a|e|] s1]; simpl in *; auto.
  destruct (handles e); simpl; auto.
  eapply R_trans; [exact Hm | apply Hh].
Qed.

Lemma keeps_for_each {X Q} (xs : list X) (body : X -> M S (flow Q)) :
  (forall x, stable R (body x)) -> stable R (for_each xs body).
Proof.
  intros Hb. induction xs as [|x rest IH]; simpl.
  - apply keeps_ret.
  - apply keeps_bind; [apply Hb|]. intros [| |r]; auto using keeps_ret.
Qed.

(** A worker whose target and callbacks keep the preorder keeps it through
    its run, however the run ends. *)
Lemma worker_run_keeps (w : Worker.t S) :
  (forall args, stable R (Worker.call (Worker._target w) args)) ->
  (forall cb args,
      Worker.__done_callback w = Some cb -> stable R (Worker.call cb args)) ->
  (forall cb e,
      Worker.__error_callback w = Some cb -> stable R (Worker.call cb e)) ->
  forall s, R s (snd (Worker.run w s)).
Proof.
  intros Ht Hd He s.
  assert (Hex : forall expected called e s1,
             R s s1 ->
             R s (snd (Worker.on_exception expected w called e s1))).
  { intros expected called e s1 H1. unfold Worker.on_exception.
    destruct (expected e); [|exact H1].
    destruct (Worker.__error_callback w) as [cb|] eqn:Hcb; [|exact H1].
    specialize (He cb e eq_refl s1).
    destruct (Worker.call cb e s1) as [r s2]. simpl in *.
    eapply R_trans; eassumption. }
  unfold Worker.run, Worker.__async_wrapper, Worker.__wrapper,
    Worker.run_until_complete.
  specialize (Ht (Worker._args w) s).
  destruct (Worker.iscoroutinefunction (Worker._target w));
    destruct (Worker.call (Worker._target w) (Worker._args w) s)
      as [[result|e|] s1]; simpl in Ht; auto;
    destruct (Worker.__done_callback w) as [cb|] eqn:Hcb; auto;
    specialize (Hd cb (Worker.normalize result) eq_refl s1);
    destruct (Worker.call cb (Worker.normalize result) s1) as [[u|e|] s2];
    simpl in *; try apply Hex; eapply R_trans; eassumption.
Qed.

End Preorder.

Lemma keeps_execute_sync {A} (R : world -> world -> Prop) (m : M world A)
    (initial : A) :
  stable R m -> stable R (execute_sync m initial).
Proof.
  intros Hm w. unfold execute_sync. specialize (Hm w).
  destruct (m w) as [[a|e|] w1]; exact Hm.
Qed.

Lemma same_refl {S B} (proj : S -> B) s : same proj s s.
Proof. reflexivity. Qed.

Lemma same_trans {S B} (proj : S -> B) a b c :
  same proj a b -> same proj b c -> same proj a c.
Proof. unfold same. congruence. Qed.

(* ---------------------------------------------------------------------- *)
(** ** Which statements assign the globals *)

Lemma algorithm_rows_cfg l : stable (same cfg) (algorithm_rows l).
Proof. induction l; simpl; stable_tac. Qed.
#[local] Hint Resolve algorithm_rows_cfg : stable.

Lemma get_algorithms_cfg E u t : stable (same cfg) (get_algorithms E u t).
Proof. unfold get_algorithms. stable_tac. Qed.

Lemma get_strings_from_hash_cfg E a h x u t :
  stable (same cfg) (get_strings_from_hash E a h x u t).
Proof. unfold get_strings_from_hash. stable_tac. Qed.

Lemma get_module_hashes_cfg E m a p u t :
  stable (same cfg) (get_module_hashes E m a p u t).
Proof. unfold get_module_hashes. stable_tac. Qed.

Lemma hunt_hash_cfg E h u t : stable (same cfg) (hunt_hash E h u t).
Proof. unfold hunt_hash. stable_tac. Qed.

#[local] Hint Resolve get_algorithms_cfg get_strings_from_hash_cfg
  get_module_hashes_cfg hunt_hash_cfg : stable.

Lemma match_select_t_show_cfg E l :
  stable (same cfg) (match_select_t_show E l).
Proof. unfold match_select_t_show. stable_tac. Qed.

Lemma api_import_select_t_show_cfg E s l :
  stable (same cfg) (api_import_select_t_show E s l).
Proof. unfold api_import_select_t_show. stable_tac. Qed.

#[local] Hint Resolve match_select_t_show_cfg api_import_select_t_show_cfg
  : stable.

Lemma insert_attempt_cfg i n v k : stable (same cfg) (insert_attempt i n v k).
Proof. unfold insert_attempt. stable_tac. Qed.
#[local] Hint Resolve insert_attempt_cfg : stable.

Lemma add_enums_cfg n l s : stable (same cfg) (add_enums n l s).
Proof. unfold add_enums, insert_members, insert_member. stable_tac. Qed.
#[local] Hint Resolve add_enums_cfg : stable.

Lemma add_enums_sync_cfg l : stable (same cfg) (add_enums_sync l).
Proof. unfold add_enums_sync, generate_enum_name. stable_tac. Qed.

Lemma choose_match_cfg E l : stable (same cfg) (choose_match E l).
Proof. unfold choose_match. stable_tac. Qed.

Lemma make_const_enum_cfg E i h : stable (same cfg) (make_const_enum E i h).
Proof. unfold make_const_enum. stable_tac. Qed.

Lemma set_name_cfg ea n : stable (same cfg) (set_name ea n).
Proof.
  unfold set_name. destruct (String.eqb n ""); [stable_tac|].
  intro w. unfold same. destruct (free_suffix _ _ _ _ _); reflexivity.
Qed.

Lemma convert_data_to_integer_cfg ea s :
  stable (same cfg) (convert_data_to_integer ea s).
Proof. unfold convert_data_to_integer. stable_tac. Qed.

Lemma lock_release_cfg : stable (same cfg) lock_release.
Proof. intro w. unfold same, lock_release. now destruct (locked w). Qed.

Lemma lock_acquire_cfg : stable (same cfg) lock_acquire.
Proof. intro w. unfold same, lock_acquire. now destruct (locked w). Qed.

#[local] Hint Resolve add_enums_sync_cfg choose_match_cfg
  make_const_enum_cfg set_name_cfg convert_data_to_integer_cfg
  lock_release_cfg lock_acquire_cfg : stable.

Lemma convert_entry_cfg e i n : stable (same cfg) (convert_entry e i n).
Proof. unfold convert_entry. stable_tac. Qed.

Lemma hash_lookup_done_handler_cfg E a b :
  stable (same cfg) (hash_lookup_done_handler E a b).
Proof. unfold hash_lookup_done_handler. stable_tac. Qed.

#[local] Hint Resolve convert_entry_cfg hash_lookup_done_handler_cfg : stable.

Lemma hash_lookup_done_cfg E args : stable (same cfg) (hash_lookup_done E args).
Proof. unfold hash_lookup_done. stable_tac. Qed.

Lemma hash_lookup_request_cfg E args :
  stable (same cfg) (hash_lookup_request E args).
Proof. unfold hash_lookup_request. stable_tac. Qed.

Lemma hash_scan_queries_cfg E l u a x t :
  stable (same cfg) (hash_scan_queries E l u a x t).
Proof. induction l; simpl; stable_tac. Qed.
#[local] Hint Resolve hash_scan_queries_cfg : stable.

Lemma hash_scan_request_cfg E args :
  stable (same cfg) (hash_scan_request E args).
Proof. unfold hash_scan_request. stable_tac. Qed.

Lemma hash_scan_done_entry_cfg E c e :
  stable (same cfg) (hash_scan_done_entry E c e).
Proof. unfold hash_scan_done_entry. stable_tac. Qed.
#[local] Hint Resolve hash_scan_done_entry_cfg : stable.

Lemma hash_scan_done_cfg E args : stable (same cfg) (hash_scan_done E args).
Proof. unfold hash_scan_done. stable_tac. Qed.

Lemma hunt_algorithm_request_cfg E args :
  stable (same cfg) (hunt_algorithm_request E args).
Proof. unfold hunt_algorithm_request. stable_tac. Qed.

Lemma error_callbacks_cfg f e :
  stable (same cfg) (Worker.call (error_callable f) e).
Proof.
  destruct f; simpl;
    unfold hash_lookup_error, hash_scan_error, hunt_algorithm_error;
    stable_tac.
Qed.

#[local] Hint Resolve hash_lookup_done_cfg hash_lookup_request_cfg
  hash_scan_request_cfg hash_scan_done_cfg hunt_algorithm_request_cfg
  error_callbacks_cfg : stable.

Lemma start_worker_cfg E th : stable (same cfg) (start_worker E th).
Proof. intro w. now rewrite start_worker_run. Qed.
#[local] Hint Resolve start_worker_cfg : stable.

Lemma targets_cfg E f args :
  stable (same cfg) (Worker.call (target_callable E f) args).
Proof. destruct f; simpl; auto with stable nocore. Qed.
(* ---------------------------------------------------------------------- *)
(** ** The size of the selected algorithm *)

Lemma keeps_sized_refl w : keeps_sized w w.
Proof. intro H. exact H. Qed.

Lemma keeps_sized_trans a b c :
  keeps_sized a b -> keeps_sized b c -> keeps_sized a c.
Proof. unfold keeps_sized. auto. Qed.

Lemma same_cfg_sized {A} (m : M world A) :
  stable (same cfg) m -> stable keeps_sized m.
Proof. intros H w Hw. specialize (H w). unfold same in H. now rewrite <- H. Qed.

Create HintDb sized.

Ltac sized_step :=
  lazymatch goal with
  | |- stable _ (bind _ _) =>
      apply (keeps_bind _ keeps_sized_trans); [|intro]
  | |- stable _ (ret _) => apply (keeps_ret _ keeps_sized_refl)
  | |- stable _ (raise _) => apply (keeps_raise _ keeps_sized_refl)
  | |- stable _ (lift _) => apply (keeps_lift _ keeps_sized_refl)
  | |- stable _ get => apply (keeps_get _ keeps_sized_refl)
  | |- stable _ (try_except _ _ _) =>
      apply (keeps_try_except _ keeps_sized_trans); [|intro]
  | |- stable _ (for_each _ _) =>
      apply (keeps_for_each _ keeps_sized_refl keeps_sized_trans); intro
  | |- stable _ (execute_sync _ _) => apply keeps_execute_sync
  | |- stable _ (match ?x with _ => _ end) => destruct x
  | |- stable _ (let '(_, _) := ?x in _) => destruct x
  | |- stable _ _ =>
      first [ assumption
            | solve [auto with sized nocore]
            | solve [apply same_cfg_sized; auto with stable nocore]
            | solve [apply same_cfg_sized; stable_leaf] ]
  end.

Ltac sized_tac := repeat sized_step.

Lemma set_algorithm_sized a s : stable keeps_sized (set_algorithm a s).
Proof.
  unfold set_algorithm. destruct a; try solve [sized_tac].
  apply (keeps_bind _ keeps_sized_trans); [sized_tac|]. intros [size|].
  - destruct (negb (existsb (Z.eqb size) [32; 64]) || negb (size mod 8 =? 0))
      eqn:Hsize; [sized_tac|].
    apply (keeps_bind _ keeps_sized_trans); [|intro; sized_tac].
    intros w _. unfold set_globals, modify, sized. simpl.
    apply orb_false_iff in Hsize as [Hsize _].
    apply negb_false_iff in Hsize. simpl in Hsize.
    rewrite orb_false_r in Hsize. apply orb_true_iff in Hsize.
    right. destruct Hsize as [H|H]; apply Z.eqb_eq in H; auto.
  - sized_tac.
Qed.
#[local] Hint Resolve set_algorithm_sized : sized.

Lemma set_globals_sized f :
  (forall c, HASHDB_ALGORITHM (f c) = HASHDB_ALGORITHM c) ->
  (forall c, HASHDB_ALGORITHM_SIZE (f c) = HASHDB_ALGORITHM_SIZE c) ->
  stable keeps_sized (set_globals f).
Proof.
  intros Ha Hs w. unfold keeps_sized, sized, set_globals, modify. simpl.
  now rewrite Ha, Hs.
Qed.

Lemma hashdb_settings_t_show_sized E :
  stable keeps_sized (hashdb_settings_t_show E).
Proof.
  unfold hashdb_settings_t_show.
  apply (keeps_bind _ keeps_sized_trans); [sized_tac|]. intro w.
  apply (keeps_bind _ keeps_sized_trans); [sized_tac|]. intros _.
  destruct (settings_form E (output w)); [sized_tac|].
  apply (keeps_bind _ keeps_sized_trans);
    [apply set_globals_sized; reflexivity|].
  intros _. sized_tac.
Qed.

Lemma hunt_result_form_t_show_sized E l :
  stable keeps_sized (hunt_result_form_t_show E l).
Proof. unfold hunt_result_form_t_show. sized_tac. Qed.

Lemma set_xor_key_sized E : stable keeps_sized (set_xor_key E).
Proof.
  unfold set_xor_key, parse_highlight.
  apply (keeps_bind _ keeps_sized_trans); [sized_tac|]. intros [xor_value|].
  - apply (keeps_bind _ keeps_sized_trans); [sized_tac|]. intros _.
    apply (keeps_bind _ keeps_sized_trans);
      [apply set_globals_sized; reflexivity|].
    intros _. sized_tac.
  - sized_tac.
Qed.

#[local] Hint Resolve hashdb_settings_t_show_sized
  hunt_result_form_t_show_sized set_xor_key_sized : sized.

Lemma global_settings_sized E : stable keeps_sized (global_settings E).
Proof. unfold global_settings. sized_tac. Qed.

Lemma load_settings_sized store : stable keeps_sized (load_settings store).
Proof.
  unfold load_settings. destruct store as [node|]; [|sized_tac].
  repeat (apply (keeps_bind _ keeps_sized_trans); [|intros _]);
    try solve [sized_tac].
  - destruct (stored node "HASHDB_API_URL");
      [apply set_globals_sized; reflexivity | sized_tac].
  - destruct (stored node "HASHDB_USE_XOR");
      [apply set_globals_sized; reflexivity | sized_tac].
  - destruct (stored node "HASHDB_XOR_VALUE"); [|sized_tac].
    apply (keeps_bind _ keeps_sized_trans); [sized_tac|]. intro.
    apply set_globals_sized; reflexivity.
  - destruct (stored node "ENUM_PREFIX");
      [apply set_globals_sized; reflexivity | sized_tac].
Qed.

Lemma select_algorithm_first_sized E :
  stable keeps_sized (select_algorithm_first E).
Proof. unfold select_algorithm_first. sized_tac. Qed.
#[local] Hint Resolve select_algorithm_first_sized : sized.

Lemma hash_lookup_sized E : stable keeps_sized (hash_lookup E).
Proof. unfold hash_lookup, hash_lookup_run, parse_highlight, busy_notice. sized_tac. Qed.

Lemma hash_scan_sized E c : stable keeps_sized (hash_scan E c).
Proof. unfold hash_scan, hash_scan_run, busy_notice. sized_tac. Qed.

Lemma hunt_algorithm_sized E : stable keeps_sized (hunt_algorithm E).
Proof.
  unfold hunt_algorithm, hunt_algorithm_run, parse_highlight, busy_notice.
  sized_tac.
Qed.

Lemma done_callbacks_sized E f args :
  stable keeps_sized (Worker.call (done_callable E f) args).
Proof.
  destruct f; simpl.
  - apply same_cfg_sized. auto with stable nocore.
  - apply same_cfg_sized. auto with stable nocore.
  - unfold hunt_algorithm_done. sized_tac.
Qed.

Lemma run_thread_sized E th w : keeps_sized w (snd (run_thread E th w)).
Proof.
  unfold run_thread.
  destruct (worker_of_ret E th) as [worker [-> [Ht [Ha [Hd He]]]]].
  apply (worker_run_keeps _ keeps_sized_trans).
  - intro args. rewrite Ht. apply same_cfg_sized, targets_cfg.
  - intros cb args Hcb. rewrite Hd in Hcb.
    destruct (th_done_callback th); [|discriminate].
    injection Hcb as <-. apply done_callbacks_sized.
  - intros cb e Hcb. rewrite He in Hcb.
    destruct (th_error_callback th); [|discriminate].
    injection Hcb as <-. apply same_cfg_sized, error_callbacks_cfg.
Qed.
(** X21.  Only the hunt assigns the globals from a worker thread: a worker
    whose done callback is not [hunt_algorithm_done] (the workers of the
    lookup and of the scan) leaves every global as it was, however its run
    ends. *)
Theorem workers_leave_the_globals :
  forall E th w,
    th_done_callback th <> Some hunt_algorithm_done_fn ->
    cfg (snd (run_thread E th w)) = cfg w.
Proof.
  intros E th w Hdone. symmetry. unfold run_thread.
  destruct (worker_of_ret E th) as [worker [-> [Ht [Ha [Hd He]]]]].
  apply (worker_run_keeps (same cfg) (same_trans cfg)).
  - intro args. rewrite Ht. apply targets_cfg.
  - intros cb args Hcb. rewrite Hd in Hcb.
    destruct (th_done_callback th) as [[| |]|]; try discriminate;
      injection Hcb as <-; simpl; auto with stable nocore.
    congruence.
  - intros cb e Hcb. rewrite He in Hcb.
    destruct (th_error_callback th); [|discriminate].
    injection Hcb as <-. apply error_callbacks_cfg.
Qed.

Lemma workers_leave_the_globals_witness :
  cfg (snd (run_thread one_match_env
              (lookup_thread crc32_config 0xE40E9BD 15)
              (snd (hash_lookup one_match_env crc32_world))))
  = cfg (snd (hash_lookup one_match_env crc32_world)).
Proof.
  apply (workers_leave_the_globals one_match_env
           (lookup_thread crc32_config 0xE40E9BD 15)
           (snd (hash_lookup one_match_env crc32_world))).
  simpl. discriminate.
Defined.

(** X10.  Whenever an algorithm is selected its size is 32 or 64: every
    operation of the plugin that can assign the globals ([set_algorithm],
    [set_xor_key], the settings form, [load_settings], the three entry points
    and the run of any worker) keeps this, however it ends. *)
Theorem selected_algorithm_stays_sized :
  forall E w,
    sized (cfg w) ->
    (forall algorithm size,
        sized (cfg (snd (set_algorithm algorithm size w)))) /\
    sized (cfg (snd (set_xor_key E w))) /\
    sized (cfg (snd (global_settings E w))) /\
    (forall store, sized (cfg (snd (load_settings store w)))) /\
    sized (cfg (snd (hash_lookup E w))) /\
    (forall convert_values,
        sized (cfg (snd (hash_scan E convert_values w)))) /\
    sized (cfg (snd (hunt_algorithm E w))) /\
    (forall th, sized (cfg (snd (run_thread E th w)))).
Proof.
  intros E w Hw. repeat split; intros.
  - now apply set_algorithm_sized.
  - now apply set_xor_key_sized.
  - now apply global_settings_sized.
  - now apply load_settings_sized.
  - now apply hash_lookup_sized.
  - now apply hash_scan_sized.
  - now apply hunt_algorithm_sized.
  - now apply run_thread_sized.
Qed.

Lemma selected_algorithm_stays_sized_witness :
  sized initial_config /\
  sized (cfg (snd (global_settings one_match_env initial_world))).
Proof.
  assert (H : sized (cfg initial_world)) by (left; reflexivity).
  split; [exact H|].
  exact (proj1 (proj2 (proj2
           (selected_algorithm_stays_sized one_match_env initial_world H)))).
Defined.

Lemma set_algorithm_sizes :
  forall name size w,
    0 <= size ->
    set_algorithm (VStr name) (VStr (str_int size)) w
    = set_algorithm (VStr name) (VInt size) w /\
    (size = 32 \/ size = 64 ->
     set_algorithm (VStr name) (VInt size) w
     = (Ret true, with_cfg w (algorithm_set name size (cfg w)))) /\
    (size <> 32 -> size <> 64 ->
     set_algorithm (VStr name) (VInt size) w
     = (Ret false,
        with_output w
          (output w
           ++ [Msg "HashDB encountered an error while trying to set the algorithm: the size provided was invalid"]))).
Proof.
  intros name size w Hsize. split; [|split].
  - unfold set_algorithm, bind at 1, bind at 1, lift.
    rewrite (int_str_str_int size). reflexivity.
  - intros [-> | ->]; reflexivity.
  - intros H32 H64. unfold set_algorithm, bind, ret. simpl.
    apply Z.eqb_neq in H32, H64. rewrite H32, H64. reflexivity.
Qed.

Lemma numeral_rest_cases n : forall s acc,
  (String.length s <= n)%nat ->
  (exists z, numeral_rest acc s = Ret z) \/
  numeral_rest acc s = Raise ValueError.
Proof.
  induction n as [|n IH]; intros [|c s] acc Hn; simpl in *;
    try (left; eexists; reflexivity); try lia.
  destruct (decimal_digit c); [apply IH; lia|].
  destruct (Ascii.eqb c "_"); [|now right].
  destruct s as [|c' s]; [now right|].
  destruct (decimal_digit c'); [|now right].
  apply IH. simpl in Hn. lia.
Qed.

(** [int(text)] gives a number or raises [ValueError]. *)
Lemma int_str_cases text :
  (exists z, int_str text = Ret z) \/ int_str text = Raise ValueError.
Proof.
  assert (Hn : forall s, (exists z, numeral s = Ret z) \/
                         numeral s = Raise ValueError).
  { intros [|c s]; simpl; [now right|].
    destruct (decimal_digit c); [|now right].
    apply (numeral_rest_cases (String.length s)). lia. }
  unfold int_str. destruct (rstrip (lstrip text)) as [|c r]; [now right|].
  destruct (Ascii.eqb c "-").
  - destruct (Hn r) as [[z ->]| ->]; [left; eexists; reflexivity | now right].
  - destruct (Ascii.eqb c "+"); apply Hn.
Qed.

(** X9.  [set_algorithm] accepts the sizes 32 and 64 and no other one: an
    accepted algorithm replaces the selected algorithm and its size and
    nothing else; any other number is refused, which leaves the globals as
    they were and is reported by one line.  A size given as a string is
    read by [int]: where [int] gives a number, [set_algorithm] goes on as
    for that number, and [int(str(n))] is [n] for every integer; where
    [int] raises [ValueError], the exception leaves [set_algorithm] and
    nothing is changed. *)
Theorem set_algorithm_supported_sizes :
  forall name w,
    (forall size,
        size = 32 \/ size = 64 ->
        set_algorithm (VStr name) (VInt size) w
        = (Ret true, with_cfg w (algorithm_set name size (cfg w)))) /\
    (forall size,
        size <> 32 -> size <> 64 ->
        set_algorithm (VStr name) (VInt size) w
        = (Ret false,
           with_output w
             (output w
              ++ [Msg "HashDB encountered an error while trying to set the algorithm: the size provided was invalid"]))) /\
    (forall text,
        (exists size,
            int_str text = Ret size /\
            set_algorithm (VStr name) (VStr text) w
            = set_algorithm (VStr name) (VInt size) w) \/
        (int_str text = Raise ValueError /\
         set_algorithm (VStr name) (VStr text) w = (Raise ValueError, w))) /\
    (forall size, int_str (str_int size) = Ret size).
Proof.
  intros name w. split; [|split; [|split]].
  - intros size [-> | ->]; reflexivity.
  - intros size H32 H64. unfold set_algorithm, bind, ret. simpl.
    apply Z.eqb_neq in H32, H64. rewrite H32, H64. reflexivity.
  - intro text. destruct (int_str_cases text) as [[size H]|H].
    + left. exists size. split; [exact H|].
      unfold set_algorithm, bind at 1, bind at 1, lift. now rewrite H.
    + right. split; [exact H|].
      unfold set_algorithm, bind at 1, bind at 1, lift. now rewrite H.
  - exact int_str_str_int.
Qed.

Lemma set_algorithm_supported_sizes_witness :
  set_algorithm (VStr "crc32") (VStr " 64") initial_world
  = (Ret true, with_cfg initial_world (algorithm_set "crc32" 64 initial_config))
  /\
  fst (set_algorithm (VStr "crc32") (VStr "-5") initial_world) = Ret false /\
  set_algorithm (VStr "crc32") (VStr "Unknown") initial_world
  = (Raise ValueError, initial_world).
Proof.
  destruct (set_algorithm_supported_sizes "crc32" initial_world)
    as [Hyes [Hno [Htext _]]].
  split; [|split].
  - destruct (Htext " 64") as [[size [Hsize Hset]]|[Hfail _]];
      [|discriminate Hfail].
    injection Hsize as <-. rewrite Hset. apply Hyes. now right.
  - destruct (Htext "-5") as [[size [Hsize Hset]]|[Hfail _]];
      [|discriminate Hfail].
    injection Hsize as <-. rewrite Hset, Hno by discriminate. reflexivity.
  - destruct (Htext "Unknown") as [[size [Hsize _]]|[_ Hset]];
      [discriminate Hsize | exact Hset].
Defined.

(** X6.  When the settings form is confirmed while no algorithm is chosen in
    it, the fields of the form (XOR switch, XOR value, API URL, enum prefix)
    are already stored in the globals, yet [hashdb_settings_t.show] returns
    [False] and [global_settings], which returns nothing in any case,
    prints that the configuration was cancelled. *)
Theorem settings_stored_without_algorithm :
  forall E w use_xor xor_value api_url enum_prefix,
    settings_form E (output w)
    = SettingsOk use_xor xor_value api_url enum_prefix None ->
    fst (hashdb_settings_t_show E w) = Ret false /\
    cfg (snd (hashdb_settings_t_show E w))
    = fields_stored use_xor xor_value api_url enum_prefix (cfg w) /\
    fst (global_settings E w) = Ret tt /\
    cfg (snd (global_settings E w))
    = fields_stored use_xor xor_value api_url enum_prefix (cfg w) /\
    output (snd (global_settings E w))
    = (output w
       ++ [SettingsForm; Msg "HashDB: No algorithm selected!";
           Msg "HashDB configuration cancelled!"])%list.
Proof.
  intros E w use_xor xor_value api_url enum_prefix Hform.
  unfold global_settings, hashdb_settings_t_show, bind, get, show, modify.
  simpl. rewrite Hform.
  unfold set_globals, msg, modify, ret. simpl.
  repeat split. now rewrite <- !app_assoc.
Qed.

Lemma settings_stored_without_algorithm_witness :
  cfg (snd (global_settings
              (make_env None (fun _ _ => TimedOut)
                 (fun _ => SettingsOk true 5 "http://localhost" "my" None)
                 (fun _ _ => None) (fun _ _ _ => None)
                 (fun _ _ => HuntCancel)) crc32_world))
  = fields_stored true 5 "http://localhost" "my" crc32_config.
Proof.
  apply (settings_stored_without_algorithm
           (make_env None (fun _ _ => TimedOut)
              (fun _ => SettingsOk true 5 "http://localhost" "my" None)
              (fun _ _ => None) (fun _ _ _ => None)
              (fun _ _ => HuntCancel)) crc32_world true 5 "http://localhost"
           "my").
  reflexivity.
Defined.

(** X11.  A catalog entry of unknown type has the size "Unknown" in its
    chooser row.  When no algorithm is selected and the user confirms the
    settings form with such a row, [int(size)] raises [ValueError] in
    [set_algorithm]: the exception leaves [hash_lookup] after the lock was
    acquired, so the lock stays held, no worker is started, no algorithm is
    selected, and the next lookup is turned away. *)
Theorem unknown_size_row_leaves_the_lock_held :
  forall E w use_xor xor_value api_url enum_prefix algorithm name,
    locked w = false ->
    HASHDB_ALGORITHM (cfg w) = None ->
    ai_algorithm algorithm = Some name ->
    unknown_type algorithm = true ->
    (forall shown,
        settings_form E shown
        = SettingsOk use_xor xor_value api_url enum_prefix
            (Some (row_entries algorithm))) ->
    fst (hash_lookup E w) = Raise ValueError /\
    lock_state (snd (hash_lookup E w)) = (true, S (acquires w), releases w) /\
    threads (snd (hash_lookup E w)) = threads w /\
    cfg (snd (hash_lookup E w))
    = fields_stored use_xor xor_value api_url enum_prefix (cfg w) /\
    hash_lookup E (snd (hash_lookup E w))
    = (Ret tt, rejected (snd (hash_lookup E w))).
Proof.
  intros E w use_xor xor_value api_url enum_prefix algorithm name
    Hfree Halg Hname Hunknown Hform.
  unfold unknown_type in Hunknown. apply String.eqb_eq in Hunknown.
  assert (Hrun :
            exists w',
              hash_lookup E w = (Raise ValueError, w') /\
              lock_state w' = (true, S (acquires w), releases w) /\
              threads w' = threads w /\
              cfg w'
              = fields_stored use_xor xor_value api_url enum_prefix (cfg w)).
  { unfold hash_lookup, hash_lookup_run, select_algorithm_first,
      hashdb_settings_t_show, lock_locked, lock_acquire, bind, global, msg,
      show, get, modify.
    simpl. repeat (rewrite Hfree; simpl). rewrite Halg. simpl.
    rewrite Hform.
    unfold row_entries. rewrite Hname, Hunknown.
    unfold set_globals, modify, set_algorithm, bind, lift. simpl.
    eexists. split; [reflexivity|]. simpl. unfold fields_stored.
    rewrite Halg. repeat split. }
  destruct Hrun as [w' [Hrun [Hlock [Hth Hcfg]]]].
  rewrite Hrun. simpl. repeat split; try assumption.
  apply (entry_points_rejected E true w').
  unfold lock_state in Hlock. congruence.
Qed.

Lemma unknown_size_row_leaves_the_lock_held_witness :
  fst (hash_lookup
         (make_env (Some ("0E40E9BDh", 1)) (fun _ _ => TimedOut)
            (fun _ =>
               SettingsOk false 0 "https://hashdb.openanalysis.net"
                 "hashdb_strings"
                 (Some (row_entries
                          {| ai_algorithm := Some "sha1";
                             ai_type := Some "string" |})))
            (fun _ _ => None) (fun _ _ _ => None) (fun _ _ => HuntCancel))
         initial_world)
  = Raise ValueError.
Proof.
  apply (unknown_size_row_leaves_the_lock_held
           (make_env (Some ("0E40E9BDh", 1)) (fun _ _ => TimedOut)
              (fun _ =>
                 SettingsOk false 0 "https://hashdb.openanalysis.net"
                   "hashdb_strings"
                   (Some (row_entries
                            {| ai_algorithm := Some "sha1";
                               ai_type := Some "string" |})))
              (fun _ _ => None) (fun _ _ _ => None) (fun _ _ => HuntCancel))
           initial_world false 0 "https://hashdb.openanalysis.net"
           "hashdb_strings"
           {| ai_algorithm := Some "sha1"; ai_type := Some "string" |} "sha1");
    reflexivity.
Defined.
(* ---------------------------------------------------------------------- *)
(** ** Saving and restoring the settings *)

Lemma str_int_not_empty z : String.eqb (str_int z) "" = false.
Proof.
  destruct z as [|p|p]; [reflexivity | | reflexivity].
  unfold str_int. simpl.
  rewrite string_of_uint_nonnil by apply DecimalPos.Unsigned.to_uint_nonnil.
  destruct (first_digit (Pos.to_uint p)
              (DecimalPos.Unsigned.to_uint_nonnil p)) as [c [r [-> _]]].
  reflexivity.
Qed.

Lemma lower_str_bool b : String.eqb (lower (str_bool b)) "true" = b.
Proof. destruct b; reflexivity. Qed.

Lemma not_empty s : s <> "" -> String.eqb s "" = false.
Proof. intro H. now apply String.eqb_neq. Qed.

Lemma saved_node_written c algorithm w :
  HASHDB_ALGORITHM (cfg w) = Some algorithm ->
  c = cfg w ->
  save_settings None w
  = (Ret (Some (saved_node c algorithm)),
     with_output w (output w ++ [Msg "HashDB settings saved"])).
Proof.
  intros Halg ->. unfold save_settings, bind, global, msg, modify, ret.
  rewrite Halg. reflexivity.
Qed.

Lemma saved_node_read c algorithm :
  HASHDB_API_URL c <> "" ->
  algorithm <> "" ->
  ENUM_PREFIX c <> "" ->
  stored (saved_node c algorithm) "HASHDB_API_URL" = Some (HASHDB_API_URL c) /\
  stored (saved_node c algorithm) "HASHDB_USE_XOR"
  = Some (str_bool (HASHDB_USE_XOR c)) /\
  stored (saved_node c algorithm) "HASHDB_XOR_VALUE"
  = Some (str_int (HASHDB_XOR_VALUE c)) /\
  stored (saved_node c algorithm) "HASHDB_ALGORITHM" = Some algorithm /\
  stored (saved_node c algorithm) "HASHDB_ALGORITHM_SIZE"
  = Some (str_int (HASHDB_ALGORITHM_SIZE c)) /\
  stored (saved_node c algorithm) "ENUM_PREFIX" = Some (ENUM_PREFIX c).
Proof.
  intros Hurl Halg Hprefix.
  unfold stored, hashstr, saved_node. cbn [find fst snd option_map].
  repeat split; simpl;
    rewrite ?str_int_not_empty, ?(not_empty _ Hurl), ?(not_empty _ Halg),
      ?(not_empty _ Hprefix); try reflexivity.
  now destruct (HASHDB_USE_XOR c).
Qed.

(** X5.  The settings survive the end of a session: what [save_settings]
    writes into a database without the node, [load_settings] reads back into
    the globals (API URL, XOR switch and value, algorithm and size, enum
    prefix; the request timeout is not saved), provided that an algorithm of
    size 32 or 64 is selected and that none of the three strings is empty, an
    empty string being skipped by [load_settings].  Once the node exists, a
    later [save_settings] reports an error and leaves the node as it is,
    whatever the globals are by then. *)
Theorem settings_round_trip :
  forall saved algorithm w later,
    HASHDB_ALGORITHM (cfg saved) = Some algorithm ->
    algorithm <> "" ->
    HASHDB_ALGORITHM_SIZE (cfg saved) = 32 \/
    HASHDB_ALGORITHM_SIZE (cfg saved) = 64 ->
    HASHDB_API_URL (cfg saved) <> "" ->
    ENUM_PREFIX (cfg saved) <> "" ->
    exists node,
      fst (save_settings None saved) = Ret (Some node) /\
      fst (load_settings (Some node) w) = Ret tt /\
      restored (cfg saved) (cfg w) (cfg (snd (load_settings (Some node) w))) /\
      save_settings (Some node) later
      = (Ret (Some node),
         with_output later
           (output later ++ [Msg "ERROR: Unable to save HashDB settings"])).
Proof.
  intros saved algorithm w later Halg Hne Hsize Hurl Hprefix.
  exists (saved_node (cfg saved) algorithm).
  split; [now rewrite (saved_node_written (cfg saved) algorithm saved)|].
  assert (Hload :
            load_settings (Some (saved_node (cfg saved) algorithm)) w
            = (Ret tt,
               with_output
                 (with_cfg w
                    {| HASHDB_API_URL := HASHDB_API_URL (cfg saved);
                       HASHDB_USE_XOR := HASHDB_USE_XOR (cfg saved);
                       HASHDB_XOR_VALUE := HASHDB_XOR_VALUE (cfg saved);
                       HASHDB_ALGORITHM := Some algorithm;
                       HASHDB_ALGORITHM_SIZE :=
                         HASHDB_ALGORITHM_SIZE (cfg saved);
                       ENUM_PREFIX := ENUM_PREFIX (cfg saved);
                       HASHDB_REQUEST_TIMEOUT :=
                         HASHDB_REQUEST_TIMEOUT (cfg w) |})
                 (output w ++ [Msg "HashDB configuration loaded!"]))).
  { destruct (saved_node_read (cfg saved) algorithm Hurl Hne Hprefix)
      as [H1 [H2 [H3 [H4 [H5 H6]]]]].
    unfold load_settings. rewrite H1, H2, H3, H4, H5, H6.
    unfold bind at 1. unfold set_globals at 1, modify at 1.
    unfold bind at 1. unfold set_globals at 1, modify at 1.
    unfold bind at 1. unfold bind at 1, lift.
    rewrite int_str_str_int. unfold set_globals at 1, modify at 1.
    unfold bind at 1. unfold bind at 1.
    destruct (set_algorithm_sizes algorithm
                (HASHDB_ALGORITHM_SIZE (cfg saved))
                (with_cfg
                   (with_cfg
                      (with_cfg w (set_HASHDB_API_URL (HASHDB_API_URL (cfg saved)) (cfg w)))
                      (set_HASHDB_USE_XOR
                         (String.eqb (lower (str_bool (HASHDB_USE_XOR (cfg saved)))) "true")
                         (cfg (with_cfg w (set_HASHDB_API_URL (HASHDB_API_URL (cfg saved)) (cfg w))))))
                   (set_HASHDB_XOR_VALUE (HASHDB_XOR_VALUE (cfg saved))
                      (cfg
                         (with_cfg
                            (with_cfg w (set_HASHDB_API_URL (HASHDB_API_URL (cfg saved)) (cfg w)))
                            (set_HASHDB_USE_XOR
                               (String.eqb (lower (str_bool (HASHDB_USE_XOR (cfg saved)))) "true")
                               (cfg (with_cfg w (set_HASHDB_API_URL (HASHDB_API_URL (cfg saved)) (cfg w))))))))))
      as [Htext [Hok _]]; [destruct Hsize as [-> | ->]; lia|].
    rewrite Htext, (Hok Hsize).
    unfold bind, ret, set_globals, msg, modify. simpl.
    rewrite lower_str_bool. reflexivity. }
  rewrite Hload. simpl. split; [reflexivity|]. split.
  - unfold restored. simpl. rewrite Halg. repeat split.
  - reflexivity.
Qed.

Lemma settings_round_trip_witness :
  exists node,
    fst (save_settings None crc32_world) = Ret (Some node) /\
    fst (load_settings (Some node) initial_world) = Ret tt /\
    restored crc32_config initial_config
      (cfg (snd (load_settings (Some node) initial_world))) /\
    save_settings (Some node) foo_world
    = (Ret (Some node),
       with_output foo_world
         (output foo_world ++ [Msg "ERROR: Unable to save HashDB settings"])).
Proof.
  apply (settings_round_trip crc32_world "crc32" initial_world foo_world).
  - reflexivity.
  - discriminate.
  - left; reflexivity.
  - discriminate.
  - discriminate.
Defined.

(* ---------------------------------------------------------------------- *)
(** ** Reading integers from the database *)

Lemma type_size_cases E ea :
  determine_highlighted_type_size E ea = 0 \/
  determine_highlighted_type_size E ea = 1 \/
  determine_highlighted_type_size E ea = 2 \/
  determine_highlighted_type_size E ea = 4 \/
  determine_highlighted_type_size E ea = 8.
Proof.
  unfold determine_highlighted_type_size.
  destruct (String.eqb (idc_guess_type E ea) "__int64"); [auto 6|].
  destruct (String.eqb (idc_guess_type E ea) "int"); [auto 6|].
  destruct (String.eqb (idc_guess_type E ea) "__int16"); [auto 6|].
  destruct (String.eqb (idc_guess_type E ea) "char"); auto 6.
Qed.

Lemma read_typed E ea default_size :
  determine_highlighted_type_size E ea <> 0 ->
  In (determine_highlighted_type_size E ea) data_sizes /\
  read_integer_from_db E ea default_size
  = Ret (read_sized E (determine_highlighted_type_size E ea) ea,
         determine_highlighted_type_size E ea, true).
Proof.
  intro Hn. unfold read_integer_from_db, read_sized.
  destruct (type_size_cases E ea) as [H|[H|[H|[H|H]]]]; rewrite H in *;
    [congruence | | | |]; simpl; split; tauto.
Qed.

Lemma read_untyped E ea default_size :
  determine_highlighted_type_size E ea = 0 ->
  In default_size data_sizes ->
  read_integer_from_db E ea default_size
  = Ret (read_sized E default_size ea, default_size, false).
Proof.
  intros H Hin. unfold read_integer_from_db, read_sized. rewrite H.
  destruct Hin as [<-|[<-|[<-|[<-|[]]]]]; reflexivity.
Qed.

(** X8.  [read_integer_from_db] reads the integer of the size of the type that
    the host guesses at the location, whatever the default size is; where the
    host guesses no type it reads an integer of the default size, one byte for
    the default size 0, and raises [HashDBError] for a default size other than
    0, 1, 2, 4 and 8.  The flag it returns tells whether the host guessed a
    type. *)
Theorem read_integer_from_db_sizes :
  forall E ea default_size,
    (determine_highlighted_type_size E ea <> 0 ->
     In (determine_highlighted_type_size E ea) data_sizes /\
     read_integer_from_db E ea default_size
     = Ret (read_sized E (determine_highlighted_type_size E ea) ea,
            determine_highlighted_type_size E ea, true)) /\
    (determine_highlighted_type_size E ea = 0 ->
     (In default_size data_sizes ->
      read_integer_from_db E ea default_size
      = Ret (read_sized E default_size ea, default_size, false)) /\
     (default_size = 0 ->
      read_integer_from_db E ea default_size = Ret (get_byte E ea, 1, false)) /\
     (default_size <> 0 -> ~ In default_size data_sizes ->
      read_integer_from_db E ea default_size = Raise HashDBError)).
Proof.
  intros E ea default_size. split; [apply read_typed|].
  intro H. split; [now apply read_untyped|]. split.
  - intros ->. unfold read_integer_from_db. now rewrite H.
  - intros Hn0 Hnot. unfold read_integer_from_db. rewrite H. simpl in *.
    destruct (default_size =? 8) eqn:H8; [apply Z.eqb_eq in H8; intuition congruence|].
    destruct (default_size =? 4) eqn:H4; [apply Z.eqb_eq in H4; intuition congruence|].
    destruct (default_size =? 2) eqn:H2; [apply Z.eqb_eq in H2; intuition congruence|].
    destruct (default_size =? 0) eqn:H0'; [apply Z.eqb_eq in H0'; intuition congruence|].
    destruct (default_size =? 1) eqn:H1; [apply Z.eqb_eq in H1; intuition congruence|].
    reflexivity.
Qed.

(** One round of the loop of [scan_range]. *)
Lemma scan_round E convert_values size ea :
  size = 32 \/ size = 64 ->
  exists (hash_value : Z) (typed typed' : bool),
    read_integer_from_db E ea 0
    = Ret (hash_value, if typed then entry_size E convert_values size ea
                       else 1, typed) /\
    (if convert_values && negb typed
     then read_integer_from_db E ea (Z.quot size 8)
     else Ret (hash_value,
               if typed then entry_size E convert_values size ea else 1,
               typed))
    = Ret (read_sized E (entry_size E convert_values size ea) ea,
           entry_size E convert_values size ea, typed') /\
    In (entry_size E convert_values size ea) data_sizes.
Proof.
  intros Hsize. unfold entry_size.
  destruct (Z.eq_dec (determine_highlighted_type_size E ea) 0) as [H|H].
  - rewrite H. simpl.
    exists (get_byte E ea), false, false.
    split; [unfold read_integer_from_db; now rewrite H|].
    rewrite andb_true_r. destruct convert_values.
    + assert (Hin : In (Z.quot size 8) data_sizes)
        by (destruct Hsize as [-> | ->]; simpl; tauto).
      split; [now apply read_untyped | exact Hin].
    + split; [reflexivity | simpl; tauto].
  - destruct (read_typed E ea 0 H) as [Hin Hread].
    assert (Hb : negb (determine_highlighted_type_size E ea =? 0) = true)
      by (apply negb_true_iff, Z.eqb_neq, H).
    rewrite Hb.
    exists (read_sized E (determine_highlighted_type_size E ea) ea), true, true.
    split; [exact Hread|]. rewrite andb_false_r. split; [reflexivity | exact Hin].
Qed.

(** X18.  On a selected algorithm of 32 or 64 bits, [scan_range] ends and
    returns entries that cover the range one after the other, from its start
    to the first entry that reaches its end: nothing of the range is skipped
    and no address is read twice, a location whose type the host knows keeps
    the size of its type, and the other ones are read as integers of the size
    of the algorithm when values are to be converted and as single bytes when
    not. *)
Theorem scan_range_covers_the_range :
  forall fuel E convert_values size ea end_,
    size = 32 \/ size = 64 ->
    end_ - ea <= Z.of_nat fuel ->
    exists hash_values,
      scan_range fuel E convert_values size ea end_ = Ret hash_values /\
      tiles E convert_values size ea end_ hash_values /\
      Z.of_nat (List.length hash_values) <= Z.max 0 (end_ - ea).
Proof.
  induction fuel as [|fuel IH]; intros E convert_values size ea end_ Hsize Hfuel.
  - exists []. simpl. destruct (ea <? end_) eqn:Hlt.
    + apply Z.ltb_lt in Hlt. lia.
    + apply Z.ltb_ge in Hlt. repeat split; [assumption | lia].
  - simpl. destruct (ea <? end_) eqn:Hlt.
    + apply Z.ltb_lt in Hlt.
      destruct (scan_round E convert_values size ea Hsize)
        as [hash_value [typed [typed' [Hfirst [Hsecond Hin]]]]].
      rewrite Hfirst, Hsecond.
      assert (Hpos : 1 <= entry_size E convert_values size ea)
        by (simpl in Hin; lia).
      destruct (IH E convert_values size
                  (ea + entry_size E convert_values size ea) end_ Hsize)
        as [rest [Hrest [Htiles Hlen]]]; [lia|].
      rewrite Hrest. eexists. split; [reflexivity|]. split.
      * simpl. repeat split; try assumption.
      * simpl List.length. lia.
    + apply Z.ltb_ge in Hlt. exists []. repeat split; [assumption | simpl; lia].
Qed.

Lemma scan_range_covers_the_range_witness :
  exists hash_values,
    scan_range 20 (scan_env all_answered) true 32 0x401000 0x401014
    = Ret hash_values /\
    tiles (scan_env all_answered) true 32 0x401000 0x401014 hash_values /\
    Z.of_nat (List.length hash_values) <= Z.max 0 (0x401014 - 0x401000).
Proof.
  apply (scan_range_covers_the_range 20 (scan_env all_answered) true 32
           0x401000 0x401014).
  - left; reflexivity.
  - simpl; lia.
Defined.

(* ---------------------------------------------------------------------- *)
(** ** Labels *)











(* ---------------------------------------------------------------------- *)
(** ** What the insertion into an enum keeps *)

Lemma extended_refl db : extended db db.
Proof.
  repeat split; [exists [] | intro; exists [] | exists []];
    now rewrite app_nil_r.
Qed.

Lemma extended_trans a b c : extended a b -> extended b c -> extended a c.
Proof.
  intros [Hn1 [[a1 He1] [Hm1 [c1 Hj1]]]] [Hn2 [[a2 He2] [Hm2 [c2 Hj2]]]].
  repeat split.
  - congruence.
  - exists (a1 ++ a2)%list. now rewrite He2, He1, app_assoc.
  - intro i. destruct (Hm1 i) as [m1 H1]. destruct (Hm2 i) as [m2 H2].
    exists (m1 ++ m2)%list. now rewrite H2, H1, app_assoc.
  - exists (c1 ++ c2)%list. now rewrite Hj2, Hj1, app_assoc.
Qed.

Lemma extended_update_enum db enum_id f :
  (forall e, IDA.enum_name (f e) = IDA.enum_name e) ->
  (forall e, exists more,
        IDA.enum_members (f e) = (IDA.enum_members e ++ more)%list) ->
  extended db (IDA.update_enum db enum_id f).
Proof.
  intros Hname Hmembers. repeat split.
  - exists []. rewrite app_nil_r. now apply map_update_enum.
  - intro i. unfold IDA.members_of. rewrite nth_error_update_enum.
    destruct (nth_error (IDA.enums db) i) as [e|]; simpl.
    + destruct (Nat.eqb i enum_id); [apply Hmembers|].
      exists []. now rewrite app_nil_r.
    + now exists [].
  - exists []. simpl. now rewrite app_nil_r.
Qed.

Lemma extended_record_call db c : extended db (IDA.record_call db c).
Proof.
  repeat split; [exists [] | intro; exists [] | exists [c]];
    simpl; now rewrite ?app_nil_r.
Qed.

Lemma extended_add_enum db name : extended db (snd (IDA.add_enum db name)).
Proof.
  unfold IDA.add_enum. destruct (IDA.name_in_use db name);
    [apply extended_refl|]. simpl. repeat split.
  - eexists. simpl. now rewrite map_app.
  - intro i. unfold IDA.members_of. simpl.
    destruct (nth_error (IDA.enums db) i) as [e|] eqn:He.
    + rewrite nth_error_app1 by (apply nth_error_Some; congruence).
      rewrite He. exists []. now rewrite app_nil_r.
    + apply nth_error_None in He.
      rewrite nth_error_app2 by assumption.
      destruct (i - List.length (IDA.enums db))%nat as [|[|n]]; simpl;
        now exists [].
  - exists []. simpl. now rewrite app_nil_r.
Qed.

Lemma extended_set_enum_width db enum_id width :
  extended db (snd (IDA.set_enum_width db enum_id width)).
Proof.
  unfold IDA.set_enum_width.
  destruct (nth_error (IDA.enums db) enum_id); [|apply extended_refl].
  destruct (existsb (Z.eqb width) IDA.valid_widths); [|apply extended_refl].
  simpl. apply extended_update_enum; [reflexivity|].
  intro member. exists []. simpl. now rewrite app_nil_r.
Qed.

Lemma extended_add_enum_member db enum_id name value :
  extended db (snd (IDA.add_enum_member db enum_id name value)).
Proof.
  unfold IDA.add_enum_member. simpl.
  eapply extended_trans; [|apply extended_record_call].
  match goal with |- context [if ?c then _ else _] => destruct c end;
    [|apply extended_refl].
  apply extended_update_enum; [reflexivity|].
  intro member. simpl. now eexists.
Qed.

(** The same, on worlds. *)
Lemma extended_world_refl w : extended (idb w) (idb w).
Proof. apply extended_refl. Qed.

Lemma extended_world_trans (a b c : world) :
  extended (idb a) (idb b) -> extended (idb b) (idb c) ->
  extended (idb a) (idb c).
Proof. apply extended_trans. Qed.

Lemma same_idb_extended {A} (m : M world A) :
  stable (same idb) m -> stable (fun w w' => extended (idb w) (idb w')) m.
Proof.
  intros H w. specialize (H w). unfold same in H. rewrite <- H.
  apply extended_refl.
Qed.

Lemma host_extended {A} (f : IDA.idb -> A * IDA.idb) :
  (forall db, extended db (snd (f db))) ->
  stable (fun w w' => extended (idb w) (idb w')) (host f).
Proof.
  intros H w. unfold host. specialize (H (idb w)).
  destruct (f (idb w)) as [a d]. exact H.
Qed.

Ltac extended_step :=
  lazymatch goal with
  | |- stable _ (bind _ _) =>
      apply (keeps_bind _ extended_world_trans); [|intro]
  | |- stable _ (ret _) => apply (keeps_ret _ extended_world_refl)
  | |- stable _ (for_each _ _) =>
      apply (keeps_for_each _ extended_world_refl extended_world_trans); intro
  | |- stable _ (host _) => apply host_extended; intro
  | |- stable _ (match ?x with _ => _ end) => destruct x
  | |- stable _ (let '(_, _) := ?x in _) => destruct x
  | |- stable _ _ =>
      first [ assumption
            | solve [apply same_idb_extended; stable_tac; stable_leaf] ]
  | |- extended _ (snd (IDA.add_enum _ _)) => apply extended_add_enum
  | |- extended _ (snd (IDA.set_enum_width _ _ _)) =>
      apply extended_set_enum_width
  | |- extended _ (snd (IDA.add_enum_member _ _ _ _)) =>
      apply extended_add_enum_member
  end.

(** X7.  [add_enums] only adds: every enum that was in the database is still
    there under its id and name, with the members it had in front of the new
    ones; an enum that [add_enums] creates comes after them; the named
    addresses are not touched.  Outside the database it changes nothing: not
    the globals, the lock, the started threads, the requests sent or the
    output. *)
Theorem add_enums_only_adds :
  forall enum_name hash_list enum_size w,
    extended (idb w) (idb (snd (add_enums enum_name hash_list enum_size w))) /\
    beside_idb (snd (add_enums enum_name hash_list enum_size w))
    = beside_idb w.
Proof.
  intros enum_name hash_list enum_size w. split.
  - assert (H : stable (fun w w' => extended (idb w) (idb w'))
                  (add_enums enum_name hash_list enum_size));
      [|exact (H w)].
    unfold add_enums, insert_members, insert_member, insert_attempt.
    repeat extended_step.
  - assert (H : stable (same beside_idb)
                  (add_enums enum_name hash_list enum_size));
      [|symmetry; exact (H w)].
    unfold add_enums, insert_members, insert_member, insert_attempt.
    stable_tac.
Qed.

(* ---------------------------------------------------------------------- *)
(** ** Colliding matches *)

Lemma dict_set_keys {A} (d : list (string * A)) k v :
  map fst (dict_set d k v)
  = if existsb (String.eqb k) (map fst d) then map fst d
    else (map fst d ++ [k])%list.
Proof.
  induction d as [|[k' v'] d IH]; simpl; [reflexivity|].
  rewrite (String.eqb_sym k k').
  destruct (String.eqb k' k) eqn:Hk; simpl; [reflexivity|].
  rewrite IH. now destruct (existsb (String.eqb k) (map fst d)).
Qed.

Lemma dict_set_in {A} (d : list (string * A)) k v k0 v0 :
  In (k0, v0) (dict_set d k v) -> In (k0, v0) d \/ (k0 = k /\ v0 = v).
Proof.
  induction d as [|[k' v'] d IH]; simpl.
  - intros [H|[]]. injection H as <- <-. auto.
  - destruct (String.eqb k' k) eqn:Hk; simpl.
    + apply String.eqb_eq in Hk. subst k'.
      intros [H|H]; [injection H as <- <-; auto | auto].
    + intros [H|H]; [auto|]. destruct (IH H) as [H'|H']; auto.
Qed.

Lemma dict_set_NoDup {A} (d : list (string * A)) k v :
  NoDup (map fst d) -> NoDup (map fst (dict_set d k v)).
Proof.
  intro H. rewrite dict_set_keys.
  destruct (existsb (String.eqb k) (map fst d)) eqn:Hk; [assumption|].
  apply NoDup_app; [assumption | repeat constructor; auto |].
  intros x Hx [<-|[]].
  assert (existsb (String.eqb k) (map fst d) = true) as Ht.
  { apply existsb_exists. exists k. split; [assumption | apply String.eqb_refl]. }
  congruence.
Qed.

Lemma dict_set_key_in {A} (d : list (string * A)) k v k0 :
  In k0 (map fst d) \/ k0 = k -> In k0 (map fst (dict_set d k v)).
Proof.
  rewrite dict_set_keys.
  destruct (existsb (String.eqb k) (map fst d)) eqn:Hk.
  - intros [H| ->]; [assumption|].
    apply existsb_exists in Hk as [x [Hx Hxe]].
    apply String.eqb_eq in Hxe. now subst.
  - rewrite in_app_iff. simpl. intuition.
Qed.

Lemma collisions_fold hashes : forall acc,
  NoDup (map fst acc) ->
  let collisions :=
    fold_left
      (fun collisions string_match =>
         let string_value := string_object string_match in
         dict_set collisions (string_of_match string_value) string_value)
      hashes acc in
  NoDup (map fst collisions) /\
  (forall k, In k (map fst acc) -> In k (map fst collisions)) /\
  (forall h, In h hashes ->
             In (string_of_match (string_object h)) (map fst collisions)) /\
  (forall k v, In (k, v) collisions ->
               In (k, v) acc \/
               exists h, In h hashes /\ v = string_object h /\
                         k = string_of_match v).
Proof.
  induction hashes as [|h hashes IH]; intros acc Hnd; simpl.
  - repeat split; auto. intros h [].
  - specialize (IH _ (dict_set_NoDup acc (string_of_match (string_object h))
                        (string_object h) Hnd)).
    simpl in IH. destruct IH as [H1 [H2 [H3 H4]]].
    split; [assumption|]. split; [|split].
    + intros k Hk. apply H2, dict_set_key_in. auto.
    + intros h0 [<-|Hin]; [|now apply H3].
      apply H2, dict_set_key_in. auto.
    + intros k v Hin. destruct (H4 k v Hin) as [H|[h0 [Hh0 [Hv Hk]]]].
      * apply dict_set_in in H as [H|[-> ->]]; [auto|].
        right. exists h. auto.
      * right. exists h0. auto.
Qed.

Lemma find_key_in {A} (d : list (string * A)) k :
  In k (map fst d) ->
  exists p, find (fun p => String.eqb (fst p) k) d = Some p /\
            In p d /\ fst p = k.
Proof.
  intro Hin. destruct (find (fun p => String.eqb (fst p) k) d) as [p|] eqn:Hf.
  - exists p. apply find_some in Hf as [Hp He].
    apply String.eqb_eq in He. auto.
  - apply in_map_iff in Hin as [p [Hk Hp]].
    apply (find_none _ _ Hf) in Hp. rewrite Hk, String.eqb_refl in Hp.
    discriminate.
Qed.

(** X12.  The strings offered in the collision form are pairwise different and
    cover the received matches: every match is offered under its string (the
    API name of an API match, the string of another one), and matches of the
    same string are offered once.  Whatever the user does with the form, the
    choice returns: a match that comes out of it is the string object of one
    of the received matches, a single match is taken without asking, and
    nothing but the output changes. *)
Theorem choose_match_picks_a_received_match :
  forall E hashes w,
    NoDup (map fst (collisions_of hashes)) /\
    (forall h, In h hashes ->
       In (string_of_match (string_object h))
          (map fst (collisions_of hashes))) /\
    (forall h, choose_match E [h] w = (Ret (Some (string_object h)), w)) /\
    exists chosen_match,
      fst (choose_match E hashes w) = Ret chosen_match /\
      (forall hash_string,
          chosen_match = Some hash_string ->
          exists h, In h hashes /\ hash_string = string_object h) /\
      surroundings (snd (choose_match E hashes w)) = surroundings w /\
      sent (snd (choose_match E hashes w)) = sent w.
Proof.
  intros E hashes w.
  destruct (collisions_fold hashes [] (NoDup_nil _)) as [H1 [_ [H3 H4]]].
  fold (collisions_of hashes) in H1, H3, H4.
  split; [assumption|]. split; [assumption|]. split; [reflexivity|].
  assert (Hmulti :
            exists chosen_match,
              fst (bind
                     (execute_sync
                        (match_select_t_show E (map fst (collisions_of hashes)))
                        None)
                     (fun selected_string =>
                        match selected_string with
                        | None => ret None
                        | Some selected_string =>
                            bind (dict_item (collisions_of hashes)
                                    selected_string)
                              (fun hash_string => ret (Some hash_string))
                        end) w) = Ret chosen_match /\
              (forall hash_string,
                  chosen_match = Some hash_string ->
                  exists h, In h hashes /\ hash_string = string_object h) /\
              surroundings
                (snd (bind
                        (execute_sync
                           (match_select_t_show E
                              (map fst (collisions_of hashes))) None)
                        (fun selected_string =>
                           match selected_string with
                           | None => ret None
                           | Some selected_string =>
                               bind (dict_item (collisions_of hashes)
                                       selected_string)
                                 (fun hash_string => ret (Some hash_string))
                           end) w)) = surroundings w /\
              sent
                (snd (bind
                        (execute_sync
                           (match_select_t_show E
                              (map fst (collisions_of hashes))) None)
                        (fun selected_string =>
                           match selected_string with
                           | None => ret None
                           | Some selected_string =>
                               bind (dict_item (collisions_of hashes)
                                       selected_string)
                                 (fun hash_string => ret (Some hash_string))
                           end) w)) = sent w).
  { unfold bind, execute_sync, match_select_t_show, bind, get, show, modify,
      chosen, ret, raise. simpl.
    destruct (match_select_form E (output w) (map fst (collisions_of hashes)))
      as [index|]; simpl.
    - destruct (nth_error (map fst (collisions_of hashes)) index)
        as [key|] eqn:Hkey; simpl.
      + apply nth_error_In in Hkey.
        destruct (find_key_in _ _ Hkey) as [[k v] [Hf [Hin Hk]]].
        unfold dict_item. rewrite Hf. simpl.
        exists (Some v). repeat split.
        intros hash_string [= <-].
        destruct (H4 k v Hin) as [[]|[h [Hh [Hv _]]]]. eauto.
      + exists None. repeat split. discriminate.
    - exists None. repeat split. discriminate. }
  unfold choose_match. destruct hashes as [|h [|h' rest]]; try exact Hmulti.
  exists (Some (string_object h)). repeat split.
  intros hash_string [= <-]. exists h. simpl. auto.
Qed.

(* ---------------------------------------------------------------------- *)
(** ** How the worker threads end *)

Lemma hash_lookup_request_run E c hash_value timeout w :
  hash_lookup_request E (th_args (lookup_thread c hash_value timeout)) w
  = let w1 := with_sent w (sent w ++ [thread_query c hash_value timeout]) in
    match service E (List.length (sent w)) (thread_query c hash_value timeout)
    with
    | TimedOut =>
        (Ret VNone,
         with_output w1
           (output w1
            ++ [Msg "ERROR: HashDB API lookup hash request timed out."]))
    | Failed => (Raise RequestsError, w1)
    | Response status_code json =>
        if ok status_code then
          match strip_all (received_hashes json) with
          | Ret [] =>
              (Ret VNone,
               with_output w1 (output w1 ++ [Msg "HashDB: No hash found"]))
          | Ret hash_list =>
              (Ret (VTuple [VList (map VHash hash_list); VInt hash_value]), w1)
          | Raise e =>
              if exn_eqb RequestsTimeout e then
                (Ret VNone,
                 with_output w1
                   (output w1
                    ++ [Msg "ERROR: HashDB API lookup hash request timed out."]))
              else (Raise e, w1)
          | Blocked => (Blocked, w1)
          end
        else (Raise HashDBError, w1)
    | Page status_code =>
        (Raise (if ok status_code then JSONDecodeError else HashDBError), w1)
    end.
Proof.
  unfold hash_lookup_request, lookup_thread, th_args, thread_query, xor_mask,
    xor_argument, optional_str.
  destruct (HASHDB_ALGORITHM c), (HASHDB_USE_XOR c);
    unfold as_str, as_optional_str, as_optional_int, as_int, try_except, bind,
      ret;
    rewrite get_strings_from_hash_run; unfold lookup_query; cbv zeta;
    (destruct (service E _ _) as [| |sc json|sc]; simpl; try reflexivity;
     destruct (ok sc); simpl; try reflexivity;
     destruct (strip_all (received_hashes json)) as [[|h l]|e|];
     try reflexivity; destruct e; reflexivity).
Qed.

(** X13.  How the thread of a lookup ends when its query finds nothing.  A
    query that times out, or that is answered with an ok status and no hashes,
    is reported by one line and ends on the done callback, which releases the
    lock: a timed-out query does not go to the error callback.  A query that
    fails to connect, or that is answered with a status that is not ok or with
    a body that is not JSON, raises out of the thread: no callback runs and
    the lock stays held.  In no case is the database touched. *)
Theorem lookup_thread_finds_nothing :
  forall E c hash_value timeout w,
    locked w = true ->
    match service E (List.length (sent w)) (thread_query c hash_value timeout)
    with
    | TimedOut =>
        ended_quietly [thread_query c hash_value timeout]
          [Msg "ERROR: HashDB API lookup hash request timed out."] w
          (run_thread E (lookup_thread c hash_value timeout) w)
    | Failed =>
        left_thread RequestsError [thread_query c hash_value timeout] w
          (run_thread E (lookup_thread c hash_value timeout) w)
    | Response status_code json =>
        (ok status_code = false ->
         left_thread HashDBError [thread_query c hash_value timeout] w
           (run_thread E (lookup_thread c hash_value timeout) w)) /\
        (ok status_code = true -> received_hashes json = [] ->
         ended_quietly [thread_query c hash_value timeout]
           [Msg "HashDB: No hash found"] w
           (run_thread E (lookup_thread c hash_value timeout) w))
    | Page status_code =>
        left_thread (if ok status_code then JSONDecodeError else HashDBError)
          [thread_query c hash_value timeout] w
          (run_thread E (lookup_thread c hash_value timeout) w)
    end.
Proof.
  intros E c hash_value timeout w Hlocked.
  pose proof (hash_lookup_request_run E c hash_value timeout w) as Hreq.
  cbv zeta in Hreq.
  destruct (service E (List.length (sent w))
              (thread_query c hash_value timeout)) as [| |sc json|sc].
  - erewrite run_thread_done;
      [| reflexivity | exact Hreq
       | simpl; unfold hash_lookup_done, hash_lookup_done_handler, bind,
           ret, lock_release; simpl; rewrite Hlocked; reflexivity].
    unfold ended_quietly, released_once. simpl. repeat split.
  - erewrite run_thread_raises; [| exact Hreq | reflexivity].
    unfold left_thread. simpl. repeat split.
  - split.
    + intro Hok. rewrite Hok in Hreq.
      erewrite run_thread_raises; [| exact Hreq | reflexivity].
      unfold left_thread. simpl. repeat split.
    + intros Hok Hempty. rewrite Hok, Hempty in Hreq. simpl in Hreq.
      erewrite run_thread_done;
        [| reflexivity | exact Hreq
         | simpl; unfold hash_lookup_done, hash_lookup_done_handler, bind,
             ret, lock_release; simpl; rewrite Hlocked; reflexivity].
      unfold ended_quietly, released_once. simpl. repeat split.
  - erewrite run_thread_raises;
      [| exact Hreq | destruct (ok sc); reflexivity].
    unfold left_thread. simpl. repeat split.
Qed.

Lemma lookup_thread_finds_nothing_witness :
  left_thread HashDBError [thread_query crc32_config 0xE40E9BD 15]
    (snd (hash_lookup (with_service one_match_env
                         (constant_service 500 no_body)) crc32_world))
    (run_thread (with_service one_match_env (constant_service 500 no_body))
       (lookup_thread crc32_config 0xE40E9BD 15)
       (snd (hash_lookup (with_service one_match_env
                            (constant_service 500 no_body)) crc32_world))).
Proof.
  apply (lookup_thread_finds_nothing
           (with_service one_match_env (constant_service 500 no_body))
           crc32_config 0xE40E9BD 15
           (snd (hash_lookup (with_service one_match_env
                                (constant_service 500 no_body)) crc32_world))
           eq_refl).
  reflexivity.
Defined.

Lemma join_results_rows matches rows :
  Forall (fun row =>
            In row rows /\
            exists name, In name matches /\ row_has_name name row = true)
    (join_results matches rows) /\
  (List.length (join_results matches rows) <= List.length matches)%nat.
Proof.
  unfold join_results. induction matches as [|m matches [IH1 IH2]]; simpl.
  - split; [constructor | lia].
  - destruct (find (row_has_name m) rows) as [row|] eqn:Hf; simpl.
    + apply find_some in Hf as [Hin Hname]. split; [|lia].
      constructor; [split; [assumption | exists m; auto]|].
      eapply Forall_impl; [|exact IH1].
      intros r [Hr [n [Hn Hrn]]]. split; [assumption | exists n; auto].
    + split; [|lia].
      eapply Forall_impl; [|exact IH1].
      intros r [Hr [n [Hn Hrn]]]. split; [assumption | exists n; auto].
Qed.

(** The join keeps, for each match that has a row, the first row of its
    name. *)
Lemma join_results_exact matches rows :
  Forall2 (first_row rows)
    (filter (fun name => existsb (row_has_name name) rows) matches)
    (join_results matches rows).
Proof.
  unfold join_results, first_row.
  induction matches as [|m matches IH]; simpl; [constructor|].
  destruct (find (row_has_name m) rows) as [row|] eqn:Hf.
  - assert (He : existsb (row_has_name m) rows = true).
    { apply find_some in Hf as [Hin Hname].
      apply existsb_exists. eauto. }
    rewrite He. simpl. constructor; assumption.
  - assert (He : existsb (row_has_name m) rows = false).
    { destruct (existsb (row_has_name m) rows) eqn:He; [|reflexivity].
      apply existsb_exists in He as [row [Hin Hname]].
      now rewrite (find_none _ _ Hf row Hin) in Hname. }
    rewrite He. simpl. exact IH.
Qed.

(** X22.  When the hunt and the catalog are both answered with an ok status,
    the hunt thread returns exactly one row for each algorithm that a hit
    names and that has a row in the catalog, namely the first row of that
    name in the catalog, and no other row: an algorithm that several hits
    name gets one row, and an algorithm that is not in the catalog is
    dropped.  The hunt is posted to the API URL that the globals hold when
    the thread runs, and the catalog is always read from the default
    server, whatever the API URL is. *)
Theorem hunt_request_joins_hits_and_catalog :
  forall E hash_value timeout w status1 hits status2 catalog,
    service E (List.length (sent w)) (hunt_query (cfg w) hash_value timeout)
    = Response status1 hits ->
    ok status1 = true ->
    service E (S (List.length (sent w))) (catalog_query timeout)
    = Response status2 catalog ->
    ok status2 = true ->
    exists names rows,
      fst (hunt_algorithm_request E [VInt hash_value; VInt timeout] w)
      = Ret (VList rows) /\
      NoDup names /\
      (forall name,
          In name names <->
          (exists hit,
              In hit (received_hits hits) /\ hit_algorithm hit = Some name) /\
          (exists row,
              In row (map row_of (received_algorithms catalog)) /\
              row_has_name name row = true)) /\
      Forall2 (first_row (map row_of (received_algorithms catalog))) names
        rows /\
      Forall (matched_row hits catalog) rows /\
      (List.length rows <= List.length (received_hits hits))%nat /\
      sent (snd (hunt_algorithm_request E [VInt hash_value; VInt timeout] w))
      = (sent w ++ [hunt_query (cfg w) hash_value timeout;
                    catalog_query timeout])%list /\
      surroundings
        (snd (hunt_algorithm_request E [VInt hash_value; VInt timeout] w))
      = surroundings w.
Proof.
  intros E hash_value timeout w sc1 hits sc2 catalog H1 Hok1 H2 Hok2.
  exists (filter
            (fun name =>
               existsb (row_has_name name)
                 (map row_of (received_algorithms catalog)))
            (collect_matches (received_hits hits) [])).
  exists (join_results (collect_matches (received_hits hits) [])
            (map row_of (received_algorithms catalog))).
  destruct (join_results_rows (collect_matches (received_hits hits) [])
              (map row_of (received_algorithms catalog))) as [Hrows Hlen].
  destruct (collect_matches_spec (received_hits hits) [] (NoDup_nil _))
    as [Hnd [Hin _]].
  assert (Hrun :
            hunt_algorithm_request E [VInt hash_value; VInt timeout] w
            = (Ret (VList (join_results
                             (collect_matches (received_hits hits) [])
                             (map row_of (received_algorithms catalog)))),
               with_output
                 (with_sent w
                    (sent w ++ [hunt_query (cfg w) hash_value timeout;
                                catalog_query timeout]))
                 (output w
                  ++ map (fun _ => Msg "ERROR: Unknown algorithm type encountered when fetching algorithms")
                       (filter unknown_type (received_algorithms catalog))))).
  { unfold hunt_query, catalog_query in *. simpl in H2.
    unfold hunt_algorithm_request, as_optional_int, as_int, try_except,
      hunt_hash, get_algorithms, default_timeout, requests_send, global, bind,
      ret. simpl. rewrite H1. simpl. rewrite Hok1. simpl.
    rewrite length_app. simpl. rewrite Nat.add_1_r, H2. simpl.
    rewrite Hok2. simpl. rewrite algorithm_rows_run. simpl.
    unfold received_hits, received_algorithms.
    rewrite <- app_assoc. reflexivity. }
  rewrite Hrun. cbn [fst snd].
  split; [reflexivity|]. split; [now apply NoDup_filter|].
  split; [|split; [apply join_results_exact|]].
  { intro name. rewrite filter_In, existsb_exists, Hin. split.
    - intros [[[]|Hhit] Hrow]. split; assumption.
    - intros [Hhit Hrow]. split; [now right | assumption]. }
  simpl. repeat split.
  - eapply Forall_impl; [|exact Hrows].
    intros row [Hr [name [Hname Hrn]]]. split; [assumption|].
    apply Hin in Hname as [[]|[hit [Hhit Ha]]]. exists hit, name. auto.
  - pose proof (NoDup_incl_length Hnd
                  (l' := map (fun hit => match hit_algorithm hit with
                                         | Some a => a
                                         | None => ""
                                         end) (received_hits hits))) as Hl.
    rewrite length_map in Hl. etransitivity; [exact Hlen|]. apply Hl.
    intros a Ha. apply Hin in Ha as [[]|[hit [Hhit Halg]]].
    apply in_map_iff. exists hit. now rewrite Halg.
Qed.

Lemma hunt_request_joins_hits_and_catalog_witness :
  exists names rows,
    fst (hunt_algorithm_request (hunt_env ["crc32"; "md5"; "crc32"])
           [VInt 5; VInt 15] initial_world)
    = Ret (VList rows) /\
    NoDup names /\
    Forall2 (first_row (map row_of (received_algorithms catalog_body))) names
      rows /\
    fst (hunt_algorithm_request (hunt_env ["crc32"; "md5"; "crc32"])
           [VInt 5; VInt 15] initial_world)
    = Ret (VList [VList [VStr "crc32"; VStr "32"]]).
Proof.
  destruct (hunt_request_joins_hits_and_catalog
              (hunt_env ["crc32"; "md5"; "crc32"]) 5 15 initial_world
              200 (hits_body ["crc32"; "md5"; "crc32"]) 200 catalog_body)
    as [names [rows [Hrun [Hnd [_ [Hrows _]]]]]]; try reflexivity.
  exists names, rows.
  split; [exact Hrun|]. split; [exact Hnd|]. split; [exact Hrows|].
  reflexivity.
Defined.

(* ---------------------------------------------------------------------- *)
(** ** Callbacks and the lock *)

(** X16.  A done callback that returns has released the lock exactly once,
    whatever it was called with.  An error callback called while the lock is
    held always returns: it shows one line, releases the lock once and touches
    neither the database nor the globals.  Called while the lock is free, an
    error callback fails with the [RuntimeError] of the release and leaves
    the lock as it was. *)
Theorem callbacks_release_the_lock :
  forall E w,
    (forall f args r w',
        Worker.call (done_callable E f) args w = (Ret r, w') ->
        released_once w w') /\
    (forall f e,
        locked w = true ->
        exists w',
          Worker.call (error_callable f) e w = (Ret tt, w') /\
          released_once w w' /\ idb w' = idb w /\ cfg w' = cfg w /\
          output w' = (output w ++ [Msg "ERROR: HashDB hash scan failed"])%list) /\
    (forall f e,
        locked w = false ->
        fst (Worker.call (error_callable f) e w) = Raise RuntimeError /\
        lock_state (snd (Worker.call (error_callable f) e w)) = lock_state w).
Proof.
  intros E w. split; [|split].
  - intros f args r w' H. exact (done_callbacks_release E f args w r w' H).
  - intros f e Hw. destruct f; simpl;
      unfold hash_lookup_error, hash_scan_error, hunt_algorithm_error, bind,
        msg, modify, lock_release; simpl; rewrite Hw;
      eexists; (split; [reflexivity|]); unfold released_once; simpl;
      repeat split.
  - intros f e Hw. destruct f; simpl;
      unfold hash_lookup_error, hash_scan_error, hunt_algorithm_error, bind,
        msg, modify, lock_release; simpl; rewrite Hw; split; reflexivity.
Qed.

(* ---------------------------------------------------------------------- *)
(** ** Starting a worker *)

(** X1.  [Worker.start] refuses exactly one combination: a target that is no
    coroutine function with a callback that is one, which raises [TypeError]
    before the thread is started.  In every other case the worker keeps its
    target and arguments and takes the callbacks given; the timeout is
    recorded only for a coroutine target and only when it is not zero, so a
    plain target runs without a timeout whatever timeout is given. *)
Theorem start_checks_the_callbacks :
  forall (S : Type) (w : Worker.t S) timeout done_callback error_callback,
    (Worker.start w timeout done_callback error_callback = Raise TypeError <->
     Worker.iscoroutinefunction (Worker._target w) = false /\
     (is_coroutine done_callback = true \/
      is_coroutine error_callback = true)) /\
    (Worker.start w timeout done_callback error_callback <> Raise TypeError ->
     exists started,
       Worker.start w timeout done_callback error_callback = Ret started /\
       Worker._target started = Worker._target w /\
       Worker._args started = Worker._args w /\
       (done_callback <> None ->
        Worker.__done_callback started = done_callback) /\
       (error_callback <> None ->
        Worker.__error_callback started = error_callback) /\
       Worker.__timeout started
       = if Worker.iscoroutinefunction (Worker._target w)
            && negb (timeout =? 0)
         then Some timeout
         else Worker.__timeout w).
Proof.
  intros S w timeout done_callback error_callback.
  unfold Worker.start, Worker.callback_fits, is_coroutine.
  destruct (Worker.iscoroutinefunction (Worker._target w));
    destruct done_callback as [d|]; destruct error_callback as [e|];
    try destruct (Worker.iscoroutinefunction d);
    try destruct (Worker.iscoroutinefunction e); simpl.
  all: split.
  all: try (split; [intro H; try discriminate H; intuition
                   | intros [H1 [H2|H2]]; try discriminate H1;
                     try discriminate H2; reflexivity]).
  all: intro Hne; try (exfalso; apply Hne; reflexivity).
  all: eexists; split; [reflexivity|]; simpl; repeat split.
  all: intros; congruence.
Qed.

Lemma entry_points_balance_witness :
  acquires (snd (hash_lookup quiet_env crc32_world))
  = S (acquires crc32_world) /\
  ((locked (snd (hash_lookup quiet_env crc32_world)) = false /\
    releases (snd (hash_lookup quiet_env crc32_world))
    = S (releases crc32_world)) \/
   (locked (snd (hash_lookup quiet_env crc32_world)) = true /\
    releases (snd (hash_lookup quiet_env crc32_world))
    = releases crc32_world)).
Proof.
  apply (entry_points_balance quiet_env true crc32_world
           (snd (hash_lookup quiet_env crc32_world)) eq_refl).
  left. reflexivity.
Defined.

(* ---------------------------------------------------------------------- *)
(** ** A lookup that finds one string *)

Lemma update_last (f : IDA.enum_t -> IDA.enum_t) e : forall es k,
  map (fun p => if Nat.eqb (fst p) (k + List.length es) then f (snd p)
                else snd p)
    (combine (seq k (List.length (es ++ [e]))) (es ++ [e]))
  = (es ++ [f e])%list.
Proof.
  induction es as [|x es IH]; intro k; simpl.
  - now rewrite Nat.add_0_r, Nat.eqb_refl.
  - destruct (Nat.eqb_spec k (k + S (List.length es))) as [H|_]; [lia|].
    f_equal. specialize (IH (S k)).
    replace (S k + List.length es)%nat with (k + S (List.length es))%nat
      in IH by lia.
    exact IH.
Qed.

Lemma update_enum_last db es e f :
  IDA.enums db = (es ++ [e])%list ->
  IDA.update_enum db (List.length es) f = IDA.with_enums db (es ++ [f e]).
Proof.
  intro H. unfold IDA.update_enum. rewrite H. f_equal.
  exact (update_last f e es 0).
Qed.

Lemma name_in_use_new db e name :
  IDA.name_in_use db name = false ->
  IDA.enum_members e = [] ->
  name <> IDA.enum_name e ->
  IDA.name_in_use (IDA.with_enums db (IDA.enums db ++ [e])) name = false.
Proof.
  unfold IDA.name_in_use, IDA.member_names. simpl. intros H He Hne.
  rewrite map_app, flat_map_app. simpl. rewrite He. simpl.
  rewrite app_nil_r, !existsb_app in *. simpl.
  apply orb_false_iff in H as [H1 H2]. apply orb_false_iff in H2 as [H2 H3].
  rewrite H1, H2, H3. simpl. rewrite ?orb_false_r.
  now apply String.eqb_neq.
Qed.

(** [add_enums] of one pair whose name and whose enum's name are both
    free: the enum is created after the present ones, with the width of
    the algorithm, and gets the pair as its only member. *)
Lemma add_enums_fresh w enum_name member_name value :
  IDA.name_in_use (idb w) enum_name = false ->
  IDA.name_in_use (idb w) member_name = false ->
  member_name <> enum_name ->
  HASHDB_ALGORITHM_SIZE (cfg w) = 32 \/ HASHDB_ALGORITHM_SIZE (cfg w) = 64 ->
  add_enums enum_name [(member_name, value)] 0 w
  = (Ret (Some (List.length (IDA.enums (idb w)))),
     with_idb w
       {| IDA.enums :=
            IDA.enums (idb w)
            ++ [{| IDA.enum_name := enum_name;
                   IDA.enum_width := Z.quot (HASHDB_ALGORITHM_SIZE (cfg w)) 8;
                   IDA.enum_members := [(member_name, value)] |}];
          IDA.names := IDA.names (idb w);
          IDA.journal :=
            IDA.journal (idb w)
            ++ [IDA.AddEnumMember (List.length (IDA.enums (idb w)))
                  member_name value IDA.ENUM_MEMBER_ERROR_SUCCESS] |}).
Proof.
  intros Henum Hmember Hne Hsize.
  set (n := List.length (IDA.enums (idb w))).
  set (e0 := {| IDA.enum_name := enum_name; IDA.enum_width := 0;
                IDA.enum_members := [] |}).
  set (width := Z.quot (HASHDB_ALGORITHM_SIZE (cfg w)) 8).
  set (e1 := {| IDA.enum_name := enum_name; IDA.enum_width := width;
                IDA.enum_members := [] |}).
  set (db1 := IDA.with_enums (idb w) (IDA.enums (idb w) ++ [e0])).
  set (db2 := IDA.with_enums (idb w) (IDA.enums (idb w) ++ [e1])).
  assert (Hvalid : existsb (Z.eqb width) IDA.valid_widths = true)
    by (subst width; destruct Hsize as [-> | ->]; reflexivity).
  assert (Hcreate : IDA.add_enum (idb w) enum_name = (Some n, db1))
    by (unfold IDA.add_enum; now rewrite Henum).
  assert (Hnth1 : nth_error (IDA.enums db1) n = Some e0)
    by (simpl; subst n; now rewrite nth_error_app2, Nat.sub_diag by lia).
  assert (Hwidth : IDA.set_enum_width db1 n width = (true, db2)).
  { unfold IDA.set_enum_width. rewrite Hnth1, Hvalid. f_equal.
    subst n db1 db2. now rewrite (update_enum_last _ (IDA.enums (idb w)) e0). }
  assert (Hnth2 : nth_error (IDA.enums db2) n = Some e1)
    by (simpl; subst n; now rewrite nth_error_app2, Nat.sub_diag by lia).
  assert (Hfree : IDA.name_in_use db2 member_name = false)
    by (apply name_in_use_new; auto).
  assert (Hmembers : IDA.members_of db2 n = [])
    by (unfold IDA.members_of; now rewrite Hnth2).
  assert (Hadd :
            IDA.add_enum_member db2 n member_name value
            = (IDA.ENUM_MEMBER_ERROR_SUCCESS,
               IDA.member_added db2 n member_name value)).
  { apply add_enum_member_free; [congruence | assumption |].
    unfold IDA.same_value_count. rewrite Hmembers. simpl. lia. }
  unfold add_enums, insert_members, insert_member.
  change (seq 0 MAXIMUM_ATTEMPTS) with (0%nat :: seq 1 255).
  unfold for_each at 1. cbn [for_each].
  unfold bind at 1. cbn [Z.eqb]. unfold bind at 1, global at 1, ret at 1.
  unfold bind at 1, host at 1. rewrite Hcreate.
  unfold bind at 1, ret at 1.
  unfold bind at 1, host at 1. cbn [idb with_idb]. fold width.
  rewrite Hwidth. cbn [negb].
  unfold bind at 1. unfold bind at 1. unfold bind at 1, host_read at 1.
  cbn [idb with_idb]. unfold IDA.get_enum_member. rewrite Hmembers.
  cbn [find]. unfold bind at 1. unfold bind at 1.
  unfold insert_attempt at 1. unfold bind at 1, host at 1.
  cbn [idb with_idb]. change (attempt_name member_name 0) with member_name.
  rewrite Hadd. cbn [Z.eqb IDA.ENUM_MEMBER_ERROR_SUCCESS]. unfold ret.
  f_equal. unfold with_idb. cbn [cfg locked acquires releases threads sent output].
  f_equal. unfold IDA.member_added, IDA.record_call.
  rewrite (update_enum_last db2 (IDA.enums (idb w)) e1) by reflexivity.
  reflexivity.
Qed.
Lemma make_const_enum_keeps E enum_id hash_value :
  stable (same enums_and_names) (make_const_enum E enum_id hash_value).
Proof. unfold make_const_enum. stable_tac. Qed.

Lemma strip_one_string h s text :
  hi_string h = Some s ->
  si_is_api s = Some false ->
  si_string s = Some text ->
  strip_all [h]
  = Ret [{| hi_hash := hi_hash h;
            hi_string :=
              Some {| si_string := Some (remove_char zero text);
                      si_is_api := si_is_api s;
                      si_api := si_api s;
                      si_modules := si_modules s;
                      si_permutation := si_permutation s |} |}].
Proof.
  intros Hs Hapi Htext. unfold strip_all, strip_null_bytes.
  now rewrite Hs, Hapi, Htext.
Qed.

Lemma bind_run {S A B} (m : M S A) (k : A -> M S B) s a s1 :
  m s = (Ret a, s1) -> bind m k s = k a s1.
Proof. intro H. unfold bind. now rewrite H. Qed.

Lemma make_const_enum_returns E enum_id hash_value w :
  exists w',
    make_const_enum E enum_id hash_value w = (Ret tt, w') /\
    enums_and_names w' = enums_and_names w.
Proof.
  unfold make_const_enum.
  destruct (is_code E (here E));
    [destruct (get_operand_value E (here E) 0 =? hash_value);
     [|destruct (get_operand_value E (here E) 1 =? hash_value)]|];
    eexists; split; reflexivity.
Qed.

Lemma add_enums_sync_fresh w algorithm member_name value :
  HASHDB_ALGORITHM (cfg w) = Some algorithm ->
  HASHDB_ALGORITHM_SIZE (cfg w) = 32 \/ HASHDB_ALGORITHM_SIZE (cfg w) = 64 ->
  IDA.name_in_use (idb w) (ENUM_PREFIX (cfg w) ++ "_" ++ algorithm) = false ->
  IDA.name_in_use (idb w) member_name = false ->
  member_name <> (ENUM_PREFIX (cfg w) ++ "_" ++ algorithm)%string ->
  exists w',
    add_enums_sync [(member_name, value)] w
    = (Ret (Some (List.length (IDA.enums (idb w)))), w') /\
    IDA.enums (idb w')
    = (IDA.enums (idb w)
       ++ [first_enum (cfg w) algorithm member_name value])%list /\
    IDA.names (idb w') = IDA.names (idb w) /\
    cfg w' = cfg w /\ lock_state w' = lock_state w /\ sent w' = sent w /\
    threads w' = threads w /\ output w' = output w.
Proof.
  intros Halg Hsize Henum Hmember Hne.
  unfold add_enums_sync, generate_enum_name, bind, global. rewrite Halg.
  unfold ret, execute_sync.
  rewrite (add_enums_fresh w _ member_name value) by assumption.
  eexists. split; [reflexivity|]. repeat split.
Qed.

Lemma hash_lookup_done_one_string E h s member_name value algorithm w :
  locked w = true ->
  hi_string h = Some s ->
  si_is_api s = Some false ->
  member_name = or_empty_string (string_of_match s) ->
  HASHDB_ALGORITHM (cfg w) = Some algorithm ->
  HASHDB_ALGORITHM_SIZE (cfg w) = 32 \/ HASHDB_ALGORITHM_SIZE (cfg w) = 64 ->
  IDA.name_in_use (idb w) (ENUM_PREFIX (cfg w) ++ "_" ++ algorithm) = false ->
  IDA.name_in_use (idb w) member_name = false ->
  member_name <> (ENUM_PREFIX (cfg w) ++ "_" ++ algorithm)%string ->
  exists w',
    hash_lookup_done E [VList [VHash h]; VInt value] w = (Ret tt, w') /\
    released_once w w' /\
    IDA.enums (idb w')
    = (IDA.enums (idb w)
       ++ [first_enum (cfg w) algorithm member_name value])%list /\
    IDA.names (idb w') = IDA.names (idb w) /\
    cfg w' = cfg w /\ sent w' = sent w /\ threads w' = threads w /\
    output w' = (output w ++ [Msg "HashDB: Hash match found"])%list.
Proof.
  intros Hlocked Hs Hapi Hname Halg Hsize Henum Hmember Hne.
  set (w1 := with_output w (output w ++ [Msg "HashDB: Hash match found"])).
  destruct (add_enums_sync_fresh w1 algorithm member_name value)
    as [w2 [Hadd [He2 [Hn2 [Hc2 [Hl2 [Hs2 [Ht2 Ho2]]]]]]]]; try assumption.
  destruct (make_const_enum_returns E (List.length (IDA.enums (idb w1)))
              value w2) as [w3 [Hconst Hk3]].
  assert (Hsync :
            exists w3',
              execute_sync
                (if viewer_at_idaplace E
                 then make_const_enum E (List.length (IDA.enums (idb w1))) value
                 else ret tt) tt w2 = (Ret tt, w3') /\
              enums_and_names w3' = enums_and_names w2).
  { unfold execute_sync. destruct (viewer_at_idaplace E).
    - rewrite Hconst. eauto.
    - eexists. split; reflexivity. }
  destruct Hsync as [w3' [Hsync Hk3']].
  unfold enums_and_names in Hk3'.
  injection Hk3' as Hen3 Hna3 Hcf3 Hlo3 Hth3 Hse3 Hou3.
  assert (Hhandler :
            hash_lookup_done_handler E (VList [VHash h]) (VInt value) w
            = (Ret tt, w3')).
  { unfold hash_lookup_done_handler.
    cbn -[add_enums_sync make_const_enum execute_sync lock_release msg bind
          api_import_select_t_show is_api or_empty_string string_of_match
          string_object].
    change (bind (ret [h]) ?k) with (k [h]). cbv beta.
    change (bind (ret value) ?k) with (k value). cbv beta.
    change (choose_match E [h]) with (@ret world _ (Some (string_object h))).
    change (bind (ret (Some (string_object h))) ?k)
      with (k (Some (string_object h))). cbv beta iota.
    unfold string_object. rewrite Hs. rewrite <- Hname.
    unfold is_api. rewrite Hapi. cbn [negb].
    rewrite (bind_run (msg "HashDB: Hash match found") _ w tt w1)
      by reflexivity.
    rewrite (bind_run _ _ w1 _ w2 Hadd).
    rewrite (bind_run _ _ w2 _ w3' Hsync). reflexivity. }
  assert (Hheld : locked w3' = true).
  { unfold lock_state in *. simpl in Hl2. congruence. }
  exists (snd (lock_release w3')).
  unfold hash_lookup_done. rewrite (bind_run _ _ w _ w3' Hhandler).
  unfold lock_release. rewrite Hheld. simpl.
  unfold released_once, lock_state in *. simpl in *.
  repeat split; congruence.
Qed.
(** X14.  A lookup whose query is answered with one string that is no API
    symbol writes one member and nothing else: the enum named [ENUM_PREFIX +
    '_' + HASHDB_ALGORITHM] by the globals that hold when the thread runs is
    created after the present enums with the width of the algorithm in bytes,
    and its member is the string without NUL characters, valued with the
    highlighted value, not with the value XORed for the query.  The thread
    ends on the done callback, which releases the lock; no form is shown and
    no further request is sent.  This needs the two names to be free in the
    database and different from each other. *)
Theorem lookup_writes_the_string :
  forall E c hash_value timeout w status_code json h s text algorithm,
    locked w = true ->
    service E (List.length (sent w)) (thread_query c hash_value timeout)
    = Response status_code json ->
    ok status_code = true ->
    received_hashes json = [h] ->
    hi_string h = Some s ->
    si_is_api s = Some false ->
    si_string s = Some text ->
    HASHDB_ALGORITHM (cfg w) = Some algorithm ->
    HASHDB_ALGORITHM_SIZE (cfg w) = 32 \/ HASHDB_ALGORITHM_SIZE (cfg w) = 64 ->
    IDA.name_in_use (idb w) (ENUM_PREFIX (cfg w) ++ "_" ++ algorithm) = false ->
    IDA.name_in_use (idb w) (member_name_of text) = false ->
    member_name_of text <> (ENUM_PREFIX (cfg w) ++ "_" ++ algorithm)%string ->
    fst (run_thread E (lookup_thread c hash_value timeout) w)
    = {| Worker.outcome := Ret tt; Worker.invoked := [Worker.onDone] |} /\
    released_once w (snd (run_thread E (lookup_thread c hash_value timeout) w)) /\
    IDA.enums (idb (snd (run_thread E (lookup_thread c hash_value timeout) w)))
    = (IDA.enums (idb w)
       ++ [first_enum (cfg w) algorithm (member_name_of text) hash_value])%list /\
    IDA.names (idb (snd (run_thread E (lookup_thread c hash_value timeout) w)))
    = IDA.names (idb w) /\
    cfg (snd (run_thread E (lookup_thread c hash_value timeout) w)) = cfg w /\
    sent (snd (run_thread E (lookup_thread c hash_value timeout) w))
    = (sent w ++ [thread_query c hash_value timeout])%list /\
    output (snd (run_thread E (lookup_thread c hash_value timeout) w))
    = (output w ++ [Msg "HashDB: Hash match found"])%list.
Proof.
  intros E c hash_value timeout w sc json h s text algorithm Hlocked Hservice
    Hok Hone Hs Hapi Htext Halg Hsize Henum Hmember Hne.
  pose proof (hash_lookup_request_run E c hash_value timeout w) as Hreq.
  cbv zeta in Hreq.
  rewrite Hservice, Hok, Hone, (strip_one_string h s text Hs Hapi Htext)
    in Hreq.
  set (w1 := with_sent w (sent w ++ [thread_query c hash_value timeout])) in *.
  set (s' := {| si_string := Some (remove_char zero text);
                si_is_api := si_is_api s;
                si_api := si_api s;
                si_modules := si_modules s;
                si_permutation := si_permutation s |}) in *.
  set (h' := {| hi_hash := hi_hash h; hi_string := Some s' |}) in *.
  assert (Hname : member_name_of text = or_empty_string (string_of_match s')).
  { unfold member_name_of, string_of_match, is_api. simpl. now rewrite Hapi. }
  destruct (hash_lookup_done_one_string E h' s' (member_name_of text)
              hash_value algorithm w1 Hlocked eq_refl Hapi Hname Halg Hsize
              Henum Hmember Hne)
    as [w' [Hdone [Hrel [Hen [Hna [Hcf [Hse [Hth Hou]]]]]]]].
  rewrite (run_thread_done E (lookup_thread c hash_value timeout) w
             hash_lookup_done_fn _ w1 tt w' eq_refl Hreq Hdone).
  simpl. repeat split; try assumption. apply Hrel. apply Hrel. apply Hrel.
Qed.

Lemma lookup_writes_the_string_witness :
  IDA.enums
    (idb (snd (run_thread one_match_env
                 (lookup_thread crc32_config 0xE40E9BD 15)
                 (snd (hash_lookup one_match_env crc32_world)))))
  = [{| IDA.enum_name := "hashdb_strings_crc32"; IDA.enum_width := 4;
        IDA.enum_members := [("LoadLibraryA", 0xE40E9BD)] |}].
Proof.
  apply (lookup_writes_the_string one_match_env crc32_config 0xE40E9BD 15
           (snd (hash_lookup one_match_env crc32_world)) 200
           (hashes_body [string_match "LoadLibraryA"])
           (string_match "LoadLibraryA")
           {| si_string := Some "LoadLibraryA"; si_is_api := Some false;
              si_api := None; si_modules := None; si_permutation := None |}
           "LoadLibraryA" "crc32");
    try reflexivity.
  - left; reflexivity.
  - discriminate.
Defined.

Lemma filter_count_app {A} (p : A -> bool) l x :
  List.length (filter p (l ++ [x]))
  = (List.length (filter p l) + if p x then 1 else 0)%nat.
Proof.
  rewrite filter_app, length_app. simpl. now destruct (p x).
Qed.

(** The outer loop of [add_enums] always returns, and it adds no member
    of a value that the enum holds already. *)
Lemma insert_members_count enum_id v : forall hash_list w,
  (1 <= IDA.same_value_count (idb w) enum_id v)%nat ->
  exists r w',
    insert_members enum_id hash_list w = (Ret r, w') /\
    IDA.same_value_count (idb w') enum_id v
    = IDA.same_value_count (idb w) enum_id v.
Proof.
  unfold insert_members.
  induction hash_list as [|[name value] rest IH]; intros w Hc.
  - exists None, w. split; reflexivity.
  - cbn [for_each]. unfold bind at 1. unfold bind at 1, host_read at 1.
    destruct (IDA.get_enum_member (idb w) enum_id value) as [m|] eqn:Hget.
    + unfold ret at 1. cbv iota beta. apply IH. exact Hc.
    + unfold bind at 1.
      destruct (insert_member enum_id name value w) as [r0 w1] eqn:Hins.
      unfold insert_member in Hins.
      destruct (insert_attempts_grown _ _ _ _ _ _ _ Hins)
        as [db [-> [[_ Hgrow] Hr]]].
      assert (Hsame : IDA.same_value_count db enum_id v
                      = IDA.same_value_count (idb w) enum_id v).
      { unfold IDA.same_value_count.
        destruct Hgrow as [->|[name' ->]]; [reflexivity|].
        rewrite filter_count_app. cbn [snd].
        destruct (Z.eqb_spec value v) as [->|Hne]; [|lia].
        unfold IDA.get_enum_member in Hget.
        unfold IDA.same_value_count in Hc.
        rewrite (find_none_filter _ _ Hget) in Hc. simpl in Hc. lia. }
      destruct Hr as [-> | ->]; cbv iota beta.
      * unfold ret at 1. cbv iota beta.
        destruct (IH (with_idb w db)) as [r [w' [Hrun Hcount]]].
        { cbn [idb with_idb]. now rewrite Hsame. }
        exists r, w'. split; [exact Hrun|].
        rewrite Hcount. cbn [idb with_idb]. exact Hsame.
      * unfold ret. cbv iota beta.
        eexists. eexists. split; [reflexivity|].
        cbn [idb with_idb]. exact Hsame.
Qed.

(** [add_enums] into an enum that exists returns, and it adds no member of
    a value that the enum holds already. *)
Lemma add_enums_count w enum_name enum_id hash_list v :
  existsb (Z.eqb (Z.quot (HASHDB_ALGORITHM_SIZE (cfg w)) 8)) IDA.valid_widths
  = true ->
  IDA.get_enum (idb w) enum_name = Some enum_id ->
  (1 <= IDA.same_value_count (idb w) enum_id v)%nat ->
  exists r w',
    add_enums enum_name hash_list 0 w = (Ret r, w') /\
    IDA.same_value_count (idb w') enum_id v
    = IDA.same_value_count (idb w) enum_id v.
Proof.
  intros Hvalid Hfound Hc.
  destruct (add_enums_prepare w enum_name Hvalid)
    as [id [db_b [Hrun [_ [_ [Hmem [_ [Hid _]]]]]]]];
    [right; congruence|].
  rewrite <- (Hid enum_id Hfound) in *.
  assert (Hb : IDA.same_value_count db_b enum_id v
               = IDA.same_value_count (idb w) enum_id v)
    by (unfold IDA.same_value_count; now rewrite Hmem).
  destruct (insert_members_count enum_id v hash_list (with_idb w db_b))
    as [r [w' [Hins Hcount]]].
  { cbn [idb with_idb]. now rewrite Hb. }
  rewrite Hrun. unfold bind. rewrite Hins.
  destruct r as [x|]; unfold ret; eexists; eexists;
    (split; [reflexivity|]); rewrite Hcount; exact Hb.
Qed.

Lemma hash_lookup_done_api E h s api index module_name status_code listing
    algorithm value w :
  locked w = true ->
  hi_string h = Some s ->
  si_is_api s = Some true ->
  si_api s = Some api ->
  api <> ""%string ->
  api_import_select_form E (output w ++ [Msg "HashDB: Hash match found"]) api
    (modules_of s) = Some index ->
  nth_error (modules_of s) index = Some module_name ->
  service E (List.length (sent w))
    (module_query (cfg w) module_name (permutation_of s))
  = Response status_code listing ->
  ok status_code = true ->
  HASHDB_ALGORITHM (cfg w) = Some algorithm ->
  HASHDB_ALGORITHM_SIZE (cfg w) = 32 \/ HASHDB_ALGORITHM_SIZE (cfg w) = 64 ->
  IDA.name_in_use (idb w) (ENUM_PREFIX (cfg w) ++ "_" ++ algorithm) = false ->
  IDA.name_in_use (idb w) api = false ->
  api <> (ENUM_PREFIX (cfg w) ++ "_" ++ algorithm)%string ->
  exists w_import w',
    hash_lookup_done E [VList [VHash h]; VInt value] w = (Ret tt, w') /\
    released_once w w' /\
    IDA.enums (idb w_import)
    = (IDA.enums (idb w) ++ [first_enum (cfg w) algorithm api value])%list /\
    IDA.names (idb w_import) = IDA.names (idb w) /\
    cfg w_import = cfg w /\
    sent w_import
    = (sent w ++ [module_query (cfg w) module_name (permutation_of s)])%list /\
    idb w'
    = idb (snd (add_enums (ENUM_PREFIX (cfg w) ++ "_" ++ algorithm)
                  (import_list (cfg w) (received_hashes listing)) 0
                  w_import)) /\
    cfg w' = cfg w /\ sent w' = sent w_import /\
    IDA.same_value_count (idb w') (List.length (IDA.enums (idb w))) value
    = 1%nat.
Proof.
  intros Hlocked Hs Hapi Hname Hne0 Hform Hmodule Hservice Hok Halg Hsize
    Henum Hmember Hne.
  unfold modules_of, permutation_of, module_query, import_list,
    received_hashes in *.
  set (enum_name := (ENUM_PREFIX (cfg w) ++ "_" ++ algorithm)%string) in *.
  set (n := List.length (IDA.enums (idb w))).
  set (w1 := with_output w (output w ++ [Msg "HashDB: Hash match found"])).
  destruct (add_enums_sync_fresh w1 algorithm api value)
    as [w2 [Hadd [He2 [Hn2 [Hc2 [Hl2 [Hs2 [Ht2 Ho2]]]]]]]]; try assumption.
  assert (Hsync :
            exists w3,
              execute_sync
                (if viewer_at_idaplace E
                 then make_const_enum E (List.length (IDA.enums (idb w1)))
                        value
                 else ret tt) tt w2 = (Ret tt, w3) /\
              enums_and_names w3 = enums_and_names w2).
  { unfold execute_sync. destruct (viewer_at_idaplace E).
    - destruct (make_const_enum_returns E
                  (List.length (IDA.enums (idb w1))) value w2)
        as [w3 [-> Hk]]. eauto.
    - eexists. split; reflexivity. }
  destruct Hsync as [w3 [Hsync Hk3]].
  unfold enums_and_names in Hk3.
  assert (Hen3 : IDA.enums (idb w3) = IDA.enums (idb w2)) by congruence.
  assert (Hna3 : IDA.names (idb w3) = IDA.names (idb w2)) by congruence.
  assert (Hcf3 : cfg w3 = cfg w2) by congruence.
  assert (Hlo3 : lock_state w3 = lock_state w2) by congruence.
  assert (Hse3 : sent w3 = sent w2) by congruence.
  assert (Hou3 : output w3 = output w2) by congruence.
  clear Hk3.
  set (w4 := with_output w3
               ((output w ++ [Msg "HashDB: Hash match found"])
                ++ [ApiImportSelectForm api
                      (match si_modules s with Some l => l | None => [] end)])).
  assert (Hshow :
            execute_sync
              (api_import_select_t_show E api
                 (match si_modules s with Some l => l | None => [] end))
              None w3
            = (Ret (Some module_name), w4)).
  { unfold execute_sync, api_import_select_t_show, bind, get, show, modify,
      chosen, ret.
    cbn [fst snd]. rewrite Hou3, Ho2. cbn [output with_output w1].
    rewrite Hform, Hmodule. reflexivity. }
  set (rq := GET (HASHDB_API_URL (cfg w) ++ "/module/" ++ module_name ++ "/"
                  ++ format_s (HASHDB_ALGORITHM (cfg w)) ++ "/"
                  ++ match si_permutation s with Some p => p | None => "" end)
               (HASHDB_REQUEST_TIMEOUT (cfg w))) in *.
  set (w5 := with_sent w4 (sent w4 ++ [rq])).
  assert (Hcfg3 : cfg w3 = cfg w) by (rewrite Hcf3, Hc2; reflexivity).
  assert (Hlen3 : List.length (sent w3) = List.length (sent w))
    by (rewrite Hse3, Hs2; reflexivity).
  assert (Hquery :
            try_except
              (bind
                 (get_module_hashes E module_name (HASHDB_ALGORITHM (cfg w))
                    (match si_permutation s with Some p => p | None => "" end)
                    (HASHDB_API_URL (cfg w))
                    (Some (HASHDB_REQUEST_TIMEOUT (cfg w))))
                 (fun r => ret (Some r)))
              (exn_eqb RequestsTimeout)
              (fun _ =>
                 bind (msg "ERROR: HashDB API module hashes request timed out.")
                   (fun _ => ret None)) w4
            = (Ret (Some listing), w5)).
  { unfold try_except, get_module_hashes, default_timeout, requests_send,
      r_json, bind, ret.
    cbn [sent with_output w4]. rewrite Hlen3. fold rq.
    rewrite Hservice, Hok. reflexivity. }
  assert (Hget : IDA.get_enum (idb w5) enum_name = Some n).
  { unfold IDA.get_enum. cbn [idb with_sent with_output w5 w4].
    rewrite Hen3, He2. cbn [idb with_output w1].
    rewrite (find_enum_new (IDA.enums (idb w)) _ enum_name 0); [reflexivity| |reflexivity].
    unfold IDA.name_in_use in Henum. rewrite existsb_app in Henum.
    now apply orb_false_iff in Henum as [Henum _]. }
  assert (Hmembers : IDA.members_of (idb w5) n = [(api, value)]).
  { unfold IDA.members_of. cbn [idb with_sent with_output w5 w4].
    rewrite Hen3, He2. cbn [idb with_output w1].
    unfold n. now rewrite nth_error_app2, Nat.sub_diag by lia. }
  assert (Hone : IDA.same_value_count (idb w5) n value = 1%nat).
  { unfold IDA.same_value_count. rewrite Hmembers. simpl.
    now rewrite Z.eqb_refl. }
  destruct (add_enums_count w5 enum_name n
              (enum_list_of (HASHDB_USE_XOR (cfg w)) (HASHDB_XOR_VALUE (cfg w))
                 (match b_hashes listing with Some l => l | None => [] end))
              value) as [r [w6 [Hrun Hcount]]].
  { cbn [cfg with_sent with_output w5 w4]. rewrite Hcfg3.
    destruct Hsize as [-> | ->]; reflexivity. }
  { exact Hget. }
  { rewrite Hone. lia. }
  assert (Hsync2 :
            add_enums_sync
              (enum_list_of (HASHDB_USE_XOR (cfg w)) (HASHDB_XOR_VALUE (cfg w))
                 (match b_hashes listing with Some l => l | None => [] end))
              w5 = (Ret r, w6)).
  { unfold add_enums_sync, generate_enum_name, bind, global, ret.
    cbn [cfg with_sent with_output w5 w4]. rewrite Hcfg3, Halg.
    unfold execute_sync. fold enum_name.
    change (with_sent (with_output w3 _) _) with w5. now rewrite Hrun. }
  set (line := match r with
               | None => "ERROR: Unable to create or find enum"
               | Some _ => "Added hashes for module"
               end%string).
  set (w7 := with_output w6 (output w6 ++ [Msg line])).
  assert (Hsv : or_empty_string (string_of_match s) = api).
  { unfold string_of_match, is_api. rewrite Hapi, Hname.
    unfold or_empty_string.
    destruct (String.eqb_spec api ""); congruence. }
  assert (Hhandler :
            hash_lookup_done_handler E (VList [VHash h]) (VInt value) w
            = (Ret tt, w7)).
  { unfold hash_lookup_done_handler.
    cbn -[add_enums_sync make_const_enum execute_sync lock_release msg bind
          api_import_select_t_show is_api or_empty_string string_of_match
          string_object try_except get_module_hashes global enum_list_of].
    change (bind (ret [h]) ?k) with (k [h]). cbv beta.
    change (bind (ret value) ?k) with (k value). cbv beta.
    change (choose_match E [h]) with (@ret world _ (Some (string_object h))).
    change (bind (ret (Some (string_object h))) ?k)
      with (k (Some (string_object h))). cbv beta iota.
    unfold string_object. rewrite Hs. rewrite Hsv.
    unfold is_api. rewrite Hapi. cbn [negb].
    rewrite (bind_run (msg "HashDB: Hash match found") _ w tt w1)
      by reflexivity.
    rewrite (bind_run _ _ w1 _ w2 Hadd).
    rewrite (bind_run _ _ w2 _ w3 Hsync).
    rewrite (bind_run _ _ w3 _ w4 Hshow).
    assert (Hcfg4 : cfg w4 = cfg w) by exact Hcfg3.
    assert (Hcfg5 : cfg w5 = cfg w) by exact Hcfg3.
    unfold bind at 1, global at 1. unfold bind at 1, global at 1.
    unfold bind at 1, global at 1. rewrite Hcfg4.
    rewrite (bind_run _ _ w4 _ w5 Hquery).
    unfold bind at 1, global at 1. unfold bind at 1, global at 1.
    rewrite Hcfg5.
    rewrite (bind_run _ _ w5 _ w6 Hsync2).
    destruct r; reflexivity. }
  pose proof (add_enums_sync_lock
                (enum_list_of (HASHDB_USE_XOR (cfg w))
                   (HASHDB_XOR_VALUE (cfg w))
                   (match b_hashes listing with Some l => l | None => [] end))
                w5) as Hlock6.
  pose proof (add_enums_sync_cfg
                (enum_list_of (HASHDB_USE_XOR (cfg w))
                   (HASHDB_XOR_VALUE (cfg w))
                   (match b_hashes listing with Some l => l | None => [] end))
                w5) as Hcfg6.
  assert (Hsent6 : sent w6 = sent w5).
  { assert (H : stable (same sent)
                  (add_enums_sync
                     (enum_list_of (HASHDB_USE_XOR (cfg w))
                        (HASHDB_XOR_VALUE (cfg w))
                        (match b_hashes listing with
                         | Some l => l
                         | None => []
                         end))))
      by (unfold add_enums_sync, generate_enum_name, add_enums,
            insert_members, insert_member, insert_attempt; stable_tac).
    specialize (H w5). rewrite Hsync2 in H. symmetry. exact H. }
  rewrite Hsync2 in Hlock6, Hcfg6. unfold same in Hlock6, Hcfg6.
  cbn [snd] in Hlock6, Hcfg6.
  assert (Hheld : locked w7 = true).
  { cbn [locked with_output w7].
    assert (Hl : lock_state w6 = lock_state w).
    { rewrite <- Hlock6. cbn [lock_state locked acquires releases with_sent
                               with_output w5 w4].
      change (lock_state w3 = lock_state w). rewrite Hlo3, Hl2. reflexivity. }
    unfold lock_state in Hl. congruence. }
  exists w5, (snd (lock_release w7)).
  unfold hash_lookup_done. rewrite (bind_run _ _ w _ w7 Hhandler).
  unfold lock_release. rewrite Hheld. cbn [fst snd].
  assert (Hl7 : lock_state w7 = lock_state w).
  { cbn [lock_state locked acquires releases with_output w7].
    change (lock_state w6 = lock_state w).
    rewrite <- Hlock6.
    cbn [lock_state locked acquires releases with_sent with_output w5 w4].
    change (lock_state w3 = lock_state w). rewrite Hlo3, Hl2. reflexivity. }
  unfold lock_state in Hl7. injection Hl7 as Hlk Hacq Hrel.
  split; [reflexivity|].
  split; [unfold released_once; cbn; repeat split; congruence|].
  split.
  { cbn [idb with_sent with_output w5 w4]. rewrite Hen3, He2. reflexivity. }
  split.
  { cbn [idb with_sent with_output w5 w4]. rewrite Hna3, Hn2. reflexivity. }
  split; [exact Hcfg3|].
  split.
  { cbn [sent with_sent with_output w5 w4]. rewrite Hse3, Hs2. reflexivity. }
  split; [now rewrite Hrun|].
  split.
  { cbn [cfg with_output w7]. rewrite <- Hcfg6. exact Hcfg3. }
  split; [exact Hsent6|].
  cbn [idb with_output w7]. rewrite Hcount. exact Hone.
Qed.

(** X15.  The two XORs of a lookup with bulk import.  The thread asks for
    the highlighted value XORed with the mask of the globals it was
    launched under; when the query finds one API symbol, the done callback
    enters it under the highlighted value, and when the user then asks for
    the import of a module, the listing of the module is asked for under
    the globals of that moment and entered by [add_enums] with every hash
    XORed with the mask of the globals of that moment.  When the globals
    were not edited in between, the two XORs cancel: a listed symbol whose
    hash is the one the query asked for comes in under the highlighted
    value, which the enum holds already, so that the enum holds one member
    of the highlighted value after the import.  This needs the enum name
    and the name of the symbol to be free in the database and different
    from each other. *)
Theorem import_undoes_the_query_xor :
  forall E c hash_value timeout w status_code json h s api index module_name
         status_code' listing algorithm,
    locked w = true ->
    service E (List.length (sent w)) (thread_query c hash_value timeout)
    = Response status_code json ->
    ok status_code = true ->
    received_hashes json = [h] ->
    hi_string h = Some s ->
    si_is_api s = Some true ->
    si_api s = Some api ->
    api <> ""%string ->
    api_import_select_form E (output w ++ [Msg "HashDB: Hash match found"])
      api (modules_of s) = Some index ->
    nth_error (modules_of s) index = Some module_name ->
    service E (S (List.length (sent w)))
      (module_query (cfg w) module_name (permutation_of s))
    = Response status_code' listing ->
    ok status_code' = true ->
    HASHDB_ALGORITHM (cfg w) = Some algorithm ->
    HASHDB_ALGORITHM_SIZE (cfg w) = 32 \/ HASHDB_ALGORITHM_SIZE (cfg w) = 64 ->
    IDA.name_in_use (idb w) (ENUM_PREFIX (cfg w) ++ "_" ++ algorithm) = false ->
    IDA.name_in_use (idb w) api = false ->
    api <> (ENUM_PREFIX (cfg w) ++ "_" ++ algorithm)%string ->
    exists w_import,
      fst (run_thread E (lookup_thread c hash_value timeout) w)
      = {| Worker.outcome := Ret tt; Worker.invoked := [Worker.onDone] |} /\
      released_once w
        (snd (run_thread E (lookup_thread c hash_value timeout) w)) /\
      sent (snd (run_thread E (lookup_thread c hash_value timeout) w))
      = (sent w
         ++ [thread_query c hash_value timeout;
             module_query (cfg w) module_name (permutation_of s)])%list /\
      IDA.enums (idb w_import)
      = (IDA.enums (idb w)
         ++ [first_enum (cfg w) algorithm api hash_value])%list /\
      IDA.names (idb w_import) = IDA.names (idb w) /\
      cfg w_import = cfg w /\
      idb (snd (run_thread E (lookup_thread c hash_value timeout) w))
      = idb (snd (add_enums (ENUM_PREFIX (cfg w) ++ "_" ++ algorithm)
                    (import_list (cfg w) (received_hashes listing)) 0
                    w_import)) /\
      import_list (cfg w) (received_hashes listing)
      = map (fun entry =>
               (api_of entry, Z.lxor (hash_of entry) (xor_mask (cfg w))))
            (received_hashes listing) /\
      (cfg w = c ->
       forall entry,
         In entry (received_hashes listing) ->
         hash_of entry = Z.lxor hash_value (xor_mask c) ->
         In (api_of entry, hash_value)
            (import_list (cfg w) (received_hashes listing))) /\
      IDA.same_value_count
        (idb (snd (run_thread E (lookup_thread c hash_value timeout) w)))
        (List.length (IDA.enums (idb w))) hash_value = 1%nat.
Proof.
  intros E c hash_value timeout w sc json h s api index module_name sc'
    listing algorithm Hlocked Hservice Hok Hone Hs Hapi Hname Hne0 Hform
    Hmodule Hservice' Hok' Halg Hsize Henum Hmember Hne.
  pose proof (hash_lookup_request_run E c hash_value timeout w) as Hreq.
  cbv zeta in Hreq.
  assert (Hstrip : strip_all [h] = Ret [h])
    by (unfold strip_all, strip_null_bytes; now rewrite Hs, Hapi).
  rewrite Hservice, Hok, Hone, Hstrip in Hreq.
  set (w1 := with_sent w (sent w ++ [thread_query c hash_value timeout])) in *.
  assert (Hrank : List.length (sent w1) = S (List.length (sent w)))
    by (cbn [sent with_sent w1]; rewrite length_app; simpl; lia).
  destruct (hash_lookup_done_api E h s api index module_name sc' listing
              algorithm hash_value w1)
    as [w_import [w' [Hdone [Hrel [Hen [Hna [Hcf [Hse [Hidb [Hcf' [Hse'
          Hcount]]]]]]]]]]]; try assumption.
  { now rewrite Hrank. }
  rewrite (run_thread_done E (lookup_thread c hash_value timeout) w
             hash_lookup_done_fn _ w1 tt w' eq_refl Hreq Hdone).
  assert (Hlist :
            import_list (cfg w) (received_hashes listing)
            = map (fun entry =>
                     (api_of entry,
                      Z.lxor (hash_of entry) (xor_mask (cfg w))))
                (received_hashes listing)).
  { unfold import_list, enum_list_of, xor_mask. apply map_ext. intro entry.
    unfold api_of, hash_of.
    destruct (HASHDB_USE_XOR (cfg w)); [reflexivity|].
    now rewrite Z.lxor_0_r. }
  exists w_import. cbn [fst snd].
  split; [reflexivity|]. split; [exact Hrel|].
  split.
  { rewrite Hse', Hse. cbn [sent with_sent w1 cfg].
    now rewrite <- app_assoc. }
  split; [exact Hen|]. split; [exact Hna|]. split; [exact Hcf|].
  split; [exact Hidb|]. split; [exact Hlist|]. split; [|exact Hcount].
  intros Hc entry Hin Hhash. rewrite Hlist. apply in_map_iff.
  exists entry. split; [|exact Hin].
  rewrite Hhash, Hc. f_equal.
  now rewrite Z.lxor_assoc, Z.lxor_nilpotent, Z.lxor_0_r.
Qed.

Lemma import_undoes_the_query_xor_witness :
  IDA.same_value_count
    (idb (snd (run_thread import_env (lookup_thread xor_config 0xE40E9BD 15)
                 (snd (hash_lookup import_env
                         (with_cfg initial_world xor_config))))))
    0 0xE40E9BD = 1%nat /\
  IDA.members_of
    (idb (snd (run_thread import_env (lookup_thread xor_config 0xE40E9BD 15)
                 (snd (hash_lookup import_env
                         (with_cfg initial_world xor_config))))))
    0
  = [("CreateFileW", 0xE40E9BD); ("ReadFile", Z.lxor 0x1234 0xFF)].
Proof.
  split; [|vm_compute; reflexivity].
  pose proof (import_undoes_the_query_xor import_env xor_config 0xE40E9BD 15
                (snd (hash_lookup import_env
                        (with_cfg initial_world xor_config)))
                200 (hashes_body [api_match "CreateFileW" ["kernel32"]])
                (api_match "CreateFileW" ["kernel32"])
                {| si_string := Some "CreateFileW"; si_is_api := Some true;
                   si_api := Some "CreateFileW";
                   si_modules := Some ["kernel32"];
                   si_permutation := Some "api" |}
                "CreateFileW" 0%nat "kernel32" 200
                (hashes_body [listed "CreateFileW" (Z.lxor 0xE40E9BD 0xFF);
                              listed "ReadFile" 0x1234])
                "crc32" eq_refl eq_refl eq_refl eq_refl eq_refl eq_refl
                eq_refl ltac:(discriminate) eq_refl eq_refl eq_refl eq_refl
                eq_refl (or_introl eq_refl) eq_refl eq_refl
                ltac:(discriminate)) as H.
  destruct H as [w_import [_ [_ [_ [_ [_ [_ [_ [_ [_ Hcount]]]]]]]]]].
  exact Hcount.
Defined.


(* ---------------------------------------------------------------------- *)
(** ** A scan that finds nothing *)

Lemma hash_scan_queries_nothing E api_url algorithm xor_value timeout :
  forall hash_list w,
    (forall i, (i < List.length hash_list)%nat ->
               finds_nothing E (List.length (sent w) + i)) ->
    exists w1,
      hash_scan_queries E hash_list api_url algorithm xor_value timeout w
      = (Ret (Some (map without_matches hash_list)), w1) /\
      List.length (sent w1)
      = (List.length (sent w) + List.length hash_list)%nat /\
      surroundings w1 = surroundings w /\ output w1 = output w.
Proof.
  induction hash_list as [|hash_entry rest IH]; intros w Hall.
  - exists w. simpl. repeat split. lia.
  - assert (H0 : finds_nothing E (List.length (sent w)))
      by (rewrite <- (Nat.add_0_r (List.length (sent w))); apply Hall;
          simpl; lia).
    simpl. unfold bind at 1, try_except, bind at 1.
    rewrite get_strings_from_hash_run. cbv zeta.
    destruct (H0 (lookup_query (cfg w) algorithm (se_hash_value hash_entry)
                    (match xor_value with Some x => x | None => 0 end)
                    api_url timeout)) as [sc [json [Hs [Hok Hempty]]]].
    rewrite Hs, Hok, Hempty. cbn [strip_all]. unfold ret at 1. cbv iota beta.
    set (w0 := with_sent w _).
    destruct (IH w0) as [w1 [Hrest [Hlen [Hsur Hout]]]].
    + intros i Hi. subst w0. cbn [sent with_sent]. rewrite length_app. simpl.
      replace (List.length (sent w) + 1 + i)%nat
        with (List.length (sent w) + S i)%nat by lia.
      apply Hall. simpl. lia.
    + unfold bind at 1. rewrite Hrest. exists w1. unfold ret.
      split; [reflexivity|]. split; [|split; assumption].
      rewrite Hlen. subst w0. cbn [sent with_sent]. rewrite length_app.
      simpl. lia.
Qed.

Lemma no_match_lines E convert_values : forall hash_list w,
  for_each (map without_matches hash_list)
    (hash_scan_done_entry E convert_values) w
  = (Ret None,
     with_output w
       (output w
        ++ map (fun _ => Msg "HashDB: Couldn't find any matches for hash value")
             hash_list)).
Proof.
  induction hash_list as [|e rest IH]; intro w; simpl.
  - unfold ret. destruct w; unfold with_output; simpl. now rewrite app_nil_r.
  - unfold bind at 1, hash_scan_done_entry at 1. cbn [se_hashes without_matches].
    unfold bind at 1, msg, modify, ret at 1. rewrite IH.
    unfold with_output. simpl. now rewrite <- app_assoc.
Qed.

(** X20.  A scan in which every query is answered with an ok status and no
    hashes sends one query per scanned value, reports each value by one line
    and writes nothing: the database and the globals are as they were, and the
    thread ends on the done callback, which releases the lock. *)
Theorem scan_without_matches_writes_nothing :
  forall E c convert_values hash_list timeout w,
    locked w = true ->
    (forall i, (i < List.length hash_list)%nat ->
               finds_nothing E (List.length (sent w) + i)) ->
    fst (run_thread E (scan_thread c convert_values hash_list timeout) w)
    = {| Worker.outcome := Ret tt; Worker.invoked := [Worker.onDone] |} /\
    released_once w
      (snd (run_thread E (scan_thread c convert_values hash_list timeout) w)) /\
    idb (snd (run_thread E (scan_thread c convert_values hash_list timeout) w))
    = idb w /\
    cfg (snd (run_thread E (scan_thread c convert_values hash_list timeout) w))
    = cfg w /\
    List.length
      (sent (snd (run_thread E
                    (scan_thread c convert_values hash_list timeout) w)))
    = (List.length (sent w) + List.length hash_list)%nat /\
    output (snd (run_thread E
                   (scan_thread c convert_values hash_list timeout) w))
    = (output w
       ++ map (fun _ => Msg "HashDB: Couldn't find any matches for hash value")
            hash_list)%list.
Proof.
  intros E c convert_values hash_list timeout w Hlocked Hall.
  destruct (hash_scan_queries_nothing E (HASHDB_API_URL c) (HASHDB_ALGORITHM c)
              (if HASHDB_USE_XOR c then Some (HASHDB_XOR_VALUE c) else None)
              (Some timeout) hash_list w Hall)
    as [w1 [Hq [Hlen [Hsur Hout]]]].
  unfold surroundings in Hsur. injection Hsur as Hcfg Hlock Hidb Hth.
  assert (Hreq :
            hash_scan_request E
              (th_args (scan_thread c convert_values hash_list timeout)) w
            = (Ret (VTuple [VBool convert_values;
                            VList (map VEntry
                                     (map without_matches hash_list))]), w1)).
  { unfold hash_scan_request, scan_thread, th_args, as_scan_list.
    rewrite scan_entries_map. unfold xor_argument, optional_str.
    destruct (HASHDB_ALGORITHM c), (HASHDB_USE_XOR c);
      unfold bind, ret, as_str, as_optional_str, as_optional_int, as_int in *;
      simpl; rewrite Hq; reflexivity. }
  assert (Hheld : locked w1 = true)
    by (unfold lock_state in Hlock; congruence).
  assert (Hdone :
            hash_scan_done E
              [VBool convert_values;
               VList (map VEntry (map without_matches hash_list))] w1
            = (Ret tt,
               snd (lock_release
                      (with_output w1
                         (output w1
                          ++ map (fun _ => Msg "HashDB: Couldn't find any matches for hash value")
                               hash_list))))).
  { unfold hash_scan_done. unfold bind at 1, ret at 1. cbv iota beta.
    unfold as_scan_list. rewrite scan_entries_map.
    unfold bind at 1, ret at 1. unfold bind at 1. rewrite no_match_lines.
    unfold lock_release. cbn [locked with_output]. rewrite Hheld.
    reflexivity. }
  rewrite (run_thread_done E (scan_thread c convert_values hash_list timeout)
             w hash_scan_done_fn _ w1 tt _ eq_refl Hreq Hdone).
  unfold lock_release. cbn [locked with_output]. rewrite Hheld. simpl.
  unfold released_once, lock_state in *. simpl.
  repeat split; try congruence.
Qed.

Lemma scan_without_matches_writes_nothing_witness :
  idb (snd (run_thread (scan_env (fun _ => Response 200 (hashes_body [])))
              (scan_thread crc32_config true
                 [ {| se_ea := 0x401000; se_hash_value := 5; se_size := 4;
                      se_hashes := None |};
                   {| se_ea := 0x401004; se_hash_value := 6; se_size := 4;
                      se_hashes := None |} ] 15)
              (snd (hash_scan (scan_env (fun _ => Response 200 (hashes_body [])))
                      true crc32_world))))
  = idb (snd (hash_scan (scan_env (fun _ => Response 200 (hashes_body [])))
                true crc32_world)).
Proof.
  apply (scan_without_matches_writes_nothing
           (scan_env (fun _ => Response 200 (hashes_body [])))
           crc32_config true _ 15
           (snd (hash_scan (scan_env (fun _ => Response 200 (hashes_body [])))
                   true crc32_world))).
  - reflexivity.
  - intros i Hi rq. exists 200, (hashes_body []). repeat split.
Defined.

(* ---------------------------------------------------------------------- *)
(** ** The result of a hunt *)

(** X23.  The done callback of the hunt shows the one row it is given in the
    result form.  When the user picks the row, an algorithm of 32 or 64 bits
    becomes the selected algorithm with its size; when the form is closed, or
    confirmed without a pick, the globals stay as they were.  In each case the
    callback returns after releasing the lock, and the database is not
    touched. *)
Theorem hunt_done_selects_the_algorithm :
  forall E name size w,
    locked w = true ->
    size = 32 \/ size = 64 ->
    exists w',
      hunt_algorithm_done E [hunt_row name size] w = (Ret tt, w') /\
      released_once w w' /\ idb w' = idb w /\
      output w'
      = (output w
         ++ [HuntResultForm [hunt_row name size]
               "The following algorithms contain a matching hash."])%list /\
      cfg w'
      = match hunt_result_form E (output w) [hunt_row name size] with
        | HuntOk (Some O) => algorithm_set name size (cfg w)
        | _ => cfg w
        end.
Proof.
  intros E name size w Hlocked Hsize.
  unfold hunt_algorithm_done, hunt_row, hunt_result_form_t_show, execute_sync,
    bind, get, show, modify, ret, lock_release.
  simpl.
  destruct (hunt_result_form E (output w)
              [VList [VStr name; VStr (str_int size)]]) as [|[[|n]|]];
    simpl.
  - rewrite Hlocked. eexists. split; [reflexivity|].
    unfold released_once. simpl. repeat split.
  - destruct Hsize as [-> | ->]; simpl; rewrite Hlocked;
      (eexists; split; [reflexivity|]); unfold released_once; simpl;
      repeat split.
  - destruct n; simpl; rewrite Hlocked;
      (eexists; split; [reflexivity|]); unfold released_once; simpl;
      repeat split.
  - rewrite Hlocked. eexists. split; [reflexivity|].
    unfold released_once. simpl. repeat split.
Qed.

Lemma hunt_done_selects_the_algorithm_witness :
  exists w',
    hunt_algorithm_done (hunt_env ["crc32"]) [hunt_row "crc32" 32]
      (snd (hunt_algorithm (hunt_env ["crc32"]) initial_world))
    = (Ret tt, w') /\
    cfg w' = crc32_config.
Proof.
  destruct (hunt_done_selects_the_algorithm (hunt_env ["crc32"]) "crc32" 32
              (snd (hunt_algorithm (hunt_env ["crc32"]) initial_world))
              eq_refl (or_introl eq_refl))
    as [w' [Hrun [_ [_ [_ Hcfg]]]]].
  exists w'. split; [exact Hrun|]. rewrite Hcfg. reflexivity.
Defined.

(* ---------------------------------------------------------------------- *)
(** ** The properties above at work *)

Lemma client_sends_one_request_witness :
  fst (get_algorithms (with_service quiet_env (constant_service 500 no_body))
         "https://hashdb.openanalysis.net" None initial_world)
  = Raise HashDBError /\
  fst (hunt_hash (with_service quiet_env (fun _ _ => Page 502)) 5
         "https://hashdb.openanalysis.net" None initial_world)
  = Raise JSONDecodeError /\
  output (snd (hunt_hash (with_service quiet_env (fun _ _ => Page 502)) 5
                 "https://hashdb.openanalysis.net" None initial_world))
  = [Print (VStr "https://hashdb.openanalysis.net/hunt");
     Print (VList [VInt 5])].
Proof.
  destruct (client_sends_one_request
              (with_service quiet_env (constant_service 500 no_body))
              "https://hashdb.openanalysis.net" None) as [Hcatalog _].
  destruct (client_sends_one_request
              (with_service quiet_env (fun _ _ => Page 502))
              "https://hashdb.openanalysis.net" None)
    as [_ [_ [_ [Hhunt Hprint]]]].
  split; [|split].
  - destruct (Hcatalog initial_world) as [_ [_ Hfail]].
    apply Hfail. reflexivity.
  - destruct (Hhunt 5 initial_world) as [_ [_ Hfail]]. exact Hfail.
  - destruct (Hprint 5 initial_world 502 eq_refl) as [_ Hpage].
    apply Hpage. reflexivity.
Defined.

Lemma read_integer_from_db_sizes_witness :
  read_integer_from_db quiet_env 0x401000 8 = Ret (0, 4, true) /\
  read_integer_from_db untyped_env 0x401000 8 = Ret (0x401000, 8, false) /\
  read_integer_from_db untyped_env 0x401000 3 = Raise HashDBError.
Proof.
  destruct (read_integer_from_db_sizes quiet_env 0x401000 8) as [Htyped _].
  destruct (read_integer_from_db_sizes untyped_env 0x401000 8)
    as [_ Huntyped].
  destruct (read_integer_from_db_sizes untyped_env 0x401000 3)
    as [_ Hother].
  split; [|split].
  - apply Htyped. discriminate.
  - apply Huntyped; [reflexivity | simpl; tauto].
  - apply Hother; [reflexivity | discriminate | simpl; lia].
Defined.

Lemma start_checks_the_callbacks_witness :
  exists started,
    Worker.start (Worker.init logging_target []) 15 (Some logging_done)
      (Some logging_error) = Ret started /\
    Worker.__timeout started = Some 15.
Proof.
  destruct (start_checks_the_callbacks (list string)
              (Worker.init logging_target []) 15 (Some logging_done)
              (Some logging_error)) as [_ H].
  destruct H as [started [Hs [_ [_ [_ [_ Ht]]]]]]; [discriminate|].
  exists started. split; [exact Hs | exact Ht].
Defined.

Lemma callbacks_release_the_lock_witness :
  exists w',
    hash_lookup_error TimeoutError
      (snd (hash_lookup one_match_env crc32_world)) = (Ret tt, w') /\
    locked w' = false.
Proof.
  destruct (callbacks_release_the_lock one_match_env
              (snd (hash_lookup one_match_env crc32_world))) as [_ [H _]].
  destruct (H hash_lookup_error_fn TimeoutError eq_refl)
    as [w' [Hrun [Hrel _]]].
  exists w'. split; [exact Hrun | apply Hrel].
Defined.

Lemma choose_match_picks_a_received_match_witness :
  In "LoadLibraryA"
    (map fst (collisions_of [string_match "LoadLibraryA";
                             string_match "GetProcAddress";
                             string_match "LoadLibraryA"])).
Proof.
  destruct (choose_match_picks_a_received_match quiet_env
              [string_match "LoadLibraryA"; string_match "GetProcAddress";
               string_match "LoadLibraryA"] initial_world) as [_ [H _]].
  exact (H (string_match "LoadLibraryA") (or_introl eq_refl)).
Defined.

